(** * Workshop collection download pipeline of [steamcmd.base.ServerBase]

    A shallow embedding of the methods of [src/steamcmd/base.py] that make
    up the collection download pipeline ([download_collections],
    [_download_file], [_get_collection_file_ids], [_get_steam_file_info])
    and of the add-on update check ([_allied_mods_download]), together with
    the properties the specification states about them.

    The methods talk to the file system, to the network and to the logger.
    They are embedded in a small state-and-exception monad over a [world]
    (the file system, the HTTP calls made so far, the sleeps, the log); an
    exception keeps the effects performed before it was raised, as in
    Python.  What the program does not decide is a parameter, an
    [environment]: the answer to the i-th HTTP call, the system clock, the
    library parsers. *)

From Stdlib Require Import ZArith QArith Qround String Ascii List Lia.
From Stdlib Require Import Init.Byte.
From stdpp Require Import base option list gmap strings pretty.
Import ListNotations.

Close Scope Q_scope.
Local Open Scope string_scope.
Local Open Scope list_scope.
Local Open Scope Z_scope.

(** ** Python values *)

(** Exception messages built by the f-strings of [base.py]; the fields are
    the interpolated values, in the order of the source text. *)
Inductive error_message :=
| CollectionIdsError (retries : Z) (url : string) (status : Z) (body : list byte)
| FileInfoError (retries : Z) (url : string) (status : Z) (body : list byte)
| LatestVersionError (latest_suffix : string).

(** The exceptions the methods meet; those of the file system carry the
    path they are about, as the absolute normal form of that path. *)
Inductive exn :=
| TypeError
| ValueError
| UnboundLocalError (name : string)
| KeyError (key : string)
| UnicodeDecodeError
| JSONDecodeError
| FileNotFoundError (p : string)
| FileExistsError (p : string)
| NotADirectoryError (p : string)
| IsADirectoryError (p : string)
| RequestException (what : string)
| HTTPError (status : Z)
| PyException (msg : error_message).

Inductive result (A : Type) :=
| Ok (a : A)
| Raise (e : exn).
Arguments Ok {A} a.
Arguments Raise {A} e.

(** A [dict] keeps its keys in insertion order and holds each key once:
    an association list, with the operations the source uses. *)
Module PyDict.

Abbreviation t V := (list (string * V)) (only parsing).

Fixpoint get {V} (d : t V) (k : string) : option V :=
  match d with
  | [] => None
  | (k', v) :: d' => if String.eqb k' k then Some v else get d' k
  end.

(** [k in d] *)
Definition mem {V} (d : t V) (k : string) : bool :=
  match get d k with Some _ => true | None => false end.

(** [d[k] = v]: an existing key keeps its position, a new key goes last. *)
Fixpoint set {V} (d : t V) (k : string) (v : V) : t V :=
  match d with
  | [] => [(k, v)]
  | (k', v') :: d' =>
      if String.eqb k' k then (k', v) :: d' else (k', v') :: set d' k v
  end.

Definition keys {V} (d : t V) : list string := map fst d.

End PyDict.

(** ** Paths ([pathlib.PurePosixPath], [os.path.join])

    Paths are POSIX.  A [Path] object is represented by the string of its
    absolute normal form, [str(p.absolute())]: the methods the program
    calls on its paths ([exists], [is_dir], [is_file], [stat], [mkdir],
    [unlink], [write_text], [absolute], [open]) all go through the working
    directory, which does not change during a run.  The keys of the file
    system are such strings.  A path names the file its normal form
    spells: [..] components and symbolic links are not resolved, as in
    pathlib. *)

(** [Some (h, t)] when [s] is [h ++ c ++ t] with [t] free of [c]. *)
Fixpoint rsplit (c : ascii) (s : string) : option (string * string) :=
  match s with
  | EmptyString => None
  | String a rest =>
      match rsplit c rest with
      | Some (h, t) => Some (String a h, t)
      | None => if Ascii.eqb a c then Some (EmptyString, rest) else None
      end
  end.

Definition starts_with_slash (s : string) : bool :=
  match s with
  | String a _ => Ascii.eqb a "/"
  | EmptyString => false
  end.

Fixpoint ends_with_slash (s : string) : bool :=
  match s with
  | EmptyString => false
  | String a EmptyString => Ascii.eqb a "/"
  | String _ rest => ends_with_slash rest
  end.

(** [posixpath.join(a, b)] *)
Definition path_join (a b : string) : string :=
  if starts_with_slash b then b
  else if (String.eqb a "" || ends_with_slash a)%bool then a +:+ b
  else a +:+ "/" +:+ b.

(** [s.split("/")] *)
Fixpoint split_slash (s : string) : list string :=
  match s with
  | EmptyString => [EmptyString]
  | String a rest =>
      if Ascii.eqb a "/" then EmptyString :: split_slash rest
      else match split_slash rest with
           | h :: t => String a h :: t
           | [] => [String a EmptyString]
           end
  end.

(** The number of slashes [s] starts with *)
Fixpoint leading_slashes (s : string) : nat :=
  match s with
  | String a rest => if Ascii.eqb a "/" then S (leading_slashes rest) else O
  | EmptyString => O
  end.

(** [PurePosixPath(s).root]: exactly two leading slashes are kept as they
    are, any other number of them is one slash. *)
Definition path_root (s : string) : string :=
  match leading_slashes s with
  | O => ""
  | 2%nat => "//"
  | _ => "/"
  end.

(** The components pathlib keeps: not the empty ones (doubled or trailing
    slashes), not the [.] ones. *)
Definition is_component (c : string) : bool :=
  negb (String.eqb c "" || String.eqb c ".")%bool.

(** [PurePosixPath(s).parts], without the root *)
Definition path_parts (s : string) : list string :=
  List.filter is_component (split_slash s).

Fixpoint join_slash (parts : list string) : string :=
  match parts with
  | [] => ""
  | [c] => c
  | c :: rest => c +:+ "/" +:+ join_slash rest
  end.

(** The string of the path with the given root and components *)
Definition render (root : string) (parts : list string) : string :=
  match parts with
  | [] => if String.eqb root "" then "." else root
  | _ :: _ => root +:+ join_slash parts
  end.

(** [str(PurePosixPath(s))] *)
Definition normal_form (s : string) : string :=
  render (path_root s) (path_parts s).

(** [PurePosixPath(s).name] *)
Definition path_name (s : string) : string :=
  List.last (path_parts s) "".

(** [PurePosixPath(s).suffix]: from the last dot of the name, unless that
    dot is the first or the last character of the name (pathlib up to
    Python 3.13). *)
Definition path_suffix (s : string) : string :=
  let name := path_name s in
  match rsplit "." name with
  | Some (h, t) =>
      if (String.eqb h "" || String.eqb t "")%bool then "" else "." +:+ t
  | None => ""
  end.

(** [str(PurePosixPath(s).parent)] *)
Definition path_parent (s : string) : string :=
  render (path_root s) (removelast (path_parts s)).

(** [str(Path(s).absolute())] when [os.getcwd()] is [working_dir]: the
    path itself when it has a root, the components of the working
    directory followed by its own otherwise. *)
Definition absolute (working_dir s : string) : string :=
  if starts_with_slash s then normal_form s
  else render (path_root working_dir) (path_parts working_dir ++ path_parts s).

(** [str.lower] on ASCII *)
Definition ascii_lower (c : ascii) : ascii :=
  let n := nat_of_ascii c in
  if ((65 <=? n) && (n <=? 90))%nat then ascii_of_nat (n + 32) else c.

Fixpoint lower (s : string) : string :=
  match s with
  | EmptyString => EmptyString
  | String c rest => String (ascii_lower c) (lower rest)
  end.

(** ** The remote API and the local machine *)

Abbreviation FileID := string (only parsing).

(** One element of [response.collectiondetails[].children[]] *)
Record collection_child := { child_publishedfileid : FileID }.

(** One element of [response.collectiondetails[]] *)
Record collection_result := { children : list collection_child }.

(** One element of [response.publishedfiledetails[]] *)
Record published_file := {
  publishedfileid : FileID;
  filename : string;
  pf_file_size : Z;
  pf_time_updated : Z;
  pf_file_url : string }.

(** What [resp.json()["response"]] holds, by the key it is read under.
    The entries have the fields the methods index, with the types the
    comparisons of [download_collections] take them at; a payload that
    lacks a field is outside the model. *)
Inductive json_value :=
| CollectionDetails (collectiondetails : list collection_result)
| PublishedFileDetails (publishedfiledetails : list published_file).

(** A [requests.Response]; [parsed] is what [resp.json()] returns, [None]
    when the body is not JSON. *)
Record response := {
  status_code : Z;
  content : list byte;
  headers : PyDict.t string;
  parsed : option json_value }.

Inductive form_value :=
| FStr (s : string)
| FInt (n : Z).

Inductive request :=
| POST (url : string) (data : PyDict.t form_value)
| GET (url : string) (stream : bool)
| HEAD (url : string).

(** The value [_get_steam_file_info] stores per file *)
Record file_details := {
  file_name : string;
  file_size : Z;
  time_updated : Z;
  file_url : string }.

(** A [datetime]: microseconds since the epoch, and whether it carries a
    time zone. *)
Record datetime := { instant_us : Z; tz_aware : bool }.

Inductive file_kind := RegularFile | Directory.

(** What [os.stat] reports for a path; [st_mtime] is the value of the
    float, in seconds. *)
Record stat_result := { st_kind : file_kind; st_size : Z; st_mtime : Q }.

Inductive log_level := DEBUG | INFO | ERROR.

Inductive log_message :=
| MsgNotADirectory (p : string)
| MsgFileIds (file_ids : list FileID)
| MsgFileDetails (d : PyDict.t file_details)
| MsgSkipping (name : string)
| MsgDownloading (name : string)
| MsgAlreadyInstalled (download_file : string)
| MsgHeaders (h : PyDict.t string)
| MsgDownloadingFrom (download_url : string).

(** The state of a run: the file system, the HTTP calls made so far, the
    sleeps taken so far, and the log. *)
Record world := {
  fs : gmap string stat_result;
  calls : list request;
  slept : list Z;
  logged : list (log_level * log_message) }.

(** Everything the program does not decide: the answer to the [i]-th HTTP
    call of the run ([Raise] when [requests] itself raises), the time on
    the system clock after the given calls and sleeps, the two library
    parsers, the size the file system gives a new directory, and the
    working directory of the process ([os.getcwd()]). *)
Record environment := {
  respond : nat -> request -> result response;
  clock : list request -> list Z -> Q;
  parsedate_to_datetime : string -> result datetime;
  decode_utf8 : list byte -> option string;
  new_dir_size : Z;
  cwd : string }.

Definition now (env : environment) (w : world) : Q := clock env (calls w) (slept w).

Definition set_fs (f : gmap string stat_result) (w : world) : world :=
  {| fs := f; calls := calls w; slept := slept w; logged := logged w |}.

Definition add_call (r : request) (w : world) : world :=
  {| fs := fs w; calls := calls w ++ [r]; slept := slept w; logged := logged w |}.

Definition add_sleep (s : Z) (w : world) : world :=
  {| fs := fs w; calls := calls w; slept := slept w ++ [s]; logged := logged w |}.

Definition add_log (l : log_level) (m : log_message) (w : world) : world :=
  {| fs := fs w; calls := calls w; slept := slept w; logged := logged w ++ [(l, m)] |}.

(** ** The monad *)

Definition M (A : Type) : Type := world -> result A * world.

Definition ret {A} (a : A) : M A := fun w => (Ok a, w).

Definition raise {A} (e : exn) : M A := fun w => (Raise e, w).

Definition bind {A B} (c : M A) (k : A -> M B) : M B :=
  fun w =>
    match c w with
    | (Ok a, w') => k a w'
    | (Raise e, w') => (Raise e, w')
    end.

Declare Scope py_scope.
Delimit Scope py_scope with py.
Notation "'let*' x ':=' c 'in' k" := (bind c (fun x => k))
  (at level 10, x name, c at level 100, k at level 200) : py_scope.
Notation "c '>>' k" := (bind c (fun _ => k))
  (at level 65, right associativity) : py_scope.
Local Open Scope py_scope.

(** *** Logger, clock, file system *)

Definition LOG (l : log_level) (m : log_message) : M unit :=
  fun w => (Ok tt, add_log l m w).

(** [time.sleep] *)
Definition sleep (secs : Z) : M unit :=
  fun w => if secs <? 0 then (Raise ValueError, w) else (Ok tt, add_sleep secs w).

(** [Path(install_path)], as the absolute normal form of the path object;
    [None] is not a path. *)
Definition Path (env : environment) (s : option string) : M string :=
  match s with
  | Some p => ret (absolute (cwd env) p)
  | None => raise TypeError
  end.

Definition path_exists (p : string) : M bool :=
  fun w => (Ok (match fs w !! p with Some _ => true | None => false end), w).

Definition kind_at (k : file_kind) (p : string) (w : world) : bool :=
  match fs w !! p with
  | Some st => match st_kind st, k with
               | RegularFile, RegularFile | Directory, Directory => true
               | _, _ => false
               end
  | None => false
  end.

Definition is_dir (p : string) : M bool := fun w => (Ok (kind_at Directory p w), w).

Definition is_file (p : string) : M bool := fun w => (Ok (kind_at RegularFile p w), w).

Definition stat (p : string) : M stat_result :=
  fun w =>
    match fs w !! p with
    | Some st => (Ok st, w)
    | None => (Raise (FileNotFoundError p), w)
    end.

(** What creating an entry at [p] needs of the parent of [p] *)
Definition check_parent (p : string) (w : world) : result unit :=
  match fs w !! path_parent p with
  | Some st => match st_kind st with
               | Directory => Ok tt
               | RegularFile => Raise (NotADirectoryError p)
               end
  | None => Raise (FileNotFoundError p)
  end.

(** [Path.mkdir()] with its defaults [parents=False], [exist_ok=False] *)
Definition mkdir (env : environment) (p : string) : M unit :=
  fun w =>
    match fs w !! p with
    | Some _ => (Raise (FileExistsError p), w)
    | None =>
        match check_parent p w with
        | Ok _ =>
            (Ok tt, set_fs (<[p := {| st_kind := Directory; st_size := new_dir_size env;
                                      st_mtime := now env w |}]> (fs w)) w)
        | Raise e => (Raise e, w)
        end
    end.

Definition empty_file (env : environment) (w : world) : stat_result :=
  {| st_kind := RegularFile; st_size := 0; st_mtime := now env w |}.

(** [open(p, "wb")]: creates the file, or truncates it *)
Definition open_wb (env : environment) (p : string) : M unit :=
  fun w =>
    match fs w !! p with
    | Some st =>
        match st_kind st with
        | Directory => (Raise (IsADirectoryError p), w)
        | RegularFile => (Ok tt, set_fs (<[p := empty_file env w]> (fs w)) w)
        end
    | None =>
        match check_parent p w with
        | Ok _ => (Ok tt, set_fs (<[p := empty_file env w]> (fs w)) w)
        | Raise e => (Raise e, w)
        end
    end.

(** [f.write(chunk)] on the file opened at [p] *)
Definition write (env : environment) (p : string) (chunk : list byte) : M unit :=
  fun w =>
    match fs w !! p with
    | Some st =>
        (Ok tt, set_fs (<[p := {| st_kind := st_kind st;
                                  st_size := st_size st + Z.of_nat (length chunk);
                                  st_mtime := now env w |}]> (fs w)) w)
    | None => (Raise (FileNotFoundError p), w)
    end.

(** ** [ServerBase] *)

Definition get_collection_url : string :=
  "https://api.steampowered.com/ISteamRemoteStorage/GetCollectionDetails/v1/".

Definition get_file_details_url : string :=
  "https://api.steampowered.com/ISteamRemoteStorage/GetPublishedFileDetails/v1/".

Definition default_retries : Z := 5.

Definition default_retry_seconds : Z := 5.

(** [r.raise_for_status()]: raises on a 4xx or 5xx status only *)
Definition raise_for_status (r : response) : M unit :=
  if ((400 <=? status_code r) && (status_code r <? 600))%bool
  then raise (HTTPError (status_code r))
  else ret tt.

(** [resp.json()] *)
Definition json (r : response) : M json_value :=
  match parsed r with
  | Some v => ret v
  | None => raise JSONDecodeError
  end.

(** [headers[key]] on the headers of a response, a
    [CaseInsensitiveDict]: the names are compared in lower case.  (Header
    names are ASCII; the names of such a dictionary differ beyond case, so
    at most one of them matches.) *)
Fixpoint header_value (hs : PyDict.t string) (key : string) : option string :=
  match hs with
  | [] => None
  | (k, v) :: rest =>
      if String.eqb (lower k) (lower key) then Some v else header_value rest key
  end.

(** [resp.headers[key]] *)
Definition header (r : response) (key : string) : M string :=
  match header_value (headers r) key with
  | Some v => ret v
  | None => raise (KeyError key)
  end.

Fixpoint iter_content_loop (fuel chunk_size : nat) (body : list byte) : list (list byte) :=
  match fuel with
  | O => []
  | S fuel' =>
      match body with
      | [] => []
      | _ => take chunk_size body :: iter_content_loop fuel' chunk_size (drop chunk_size body)
      end
  end.

(** [chunk_size=8192] *)
Definition CHUNK_SIZE : nat := Z.to_nat 8192.

(** [r.iter_content(chunk_size=...)] *)
Definition iter_content (r : response) (chunk_size : nat) : list (list byte) :=
  iter_content_loop (length (content r)) chunk_size (content r).

(** [for chunk in ...: f.write(chunk)] *)
Fixpoint write_chunks (env : environment) (p : string) (chunks : list (list byte))
  : M unit :=
  match chunks with
  | [] => ret tt
  | chunk :: rest => write env p chunk >> write_chunks env p rest
  end.

(** [data[f"publishedfileids[{i}]"] = v] for [i, v] in [enumerate(ids)],
    counting from [i] *)
Fixpoint add_publishedfileids (data : PyDict.t form_value) (i : nat) (ids : list string)
  : PyDict.t form_value :=
  match ids with
  | [] => data
  | v :: ids' =>
      add_publishedfileids
        (PyDict.set data ("publishedfileids[" +:+ pretty i +:+ "]") (FStr v)) (S i) ids'
  end.

(** The form [_get_collection_file_ids] posts: [collectioncount] holds
    [str(len(collection_ids))]. *)
Definition collection_data (collection_ids : list string) : PyDict.t form_value :=
  add_publishedfileids
    [("collectioncount", FStr (pretty (length collection_ids)))] 0 collection_ids.

(** The form [_get_steam_file_info] posts: [itemcount] holds the integer
    [len(file_ids)]. *)
Definition file_info_data (file_ids : list FileID) : PyDict.t form_value :=
  add_publishedfileids
    [("itemcount", FInt (Z.of_nat (length file_ids)))] 0 file_ids.

(** The second loop of [_get_collection_file_ids]: one child *)
Definition append_child (resp : list FileID) (collection_detail : collection_child)
  : list FileID :=
  let collection := child_publishedfileid collection_detail in
  if bool_decide (collection ∈ resp) then resp else resp ++ [collection].

(** ... and all the children of all the collections *)
Definition collect_file_ids (collectiondetails : list collection_result) : list FileID :=
  fold_left (fun resp result => fold_left append_child (children result) resp)
            collectiondetails [].

(** The loop of [_get_steam_file_info]: one entry of the response *)
Definition store_details (result : PyDict.t file_details) (fd : published_file)
  : PyDict.t file_details :=
  if negb (PyDict.mem result (publishedfileid fd))
  then PyDict.set result (publishedfileid fd)
         {| file_name := filename fd;
            file_size := pf_file_size fd;
            time_updated := pf_time_updated fd;
            file_url := pf_file_url fd |}
  else result.

Definition collect_file_info (publishedfiledetails : list published_file)
  : PyDict.t file_details :=
  fold_left store_details publishedfiledetails [].

(** [datetime.fromtimestamp(t, tz)]: [t] rounded to the microsecond, ties to
    even, in exact arithmetic; the result carries a time zone. *)
Definition round_half_even (q : Q) : Z :=
  let f := Qfloor q in
  match Qcompare (q - inject_Z f) (1 # 2) with
  | Lt => f
  | Gt => f + 1
  | Eq => if Z.even f then f else f + 1
  end.

Definition fromtimestamp (t : Q) : datetime :=
  {| instant_us := round_half_even (t * inject_Z 1000000); tz_aware := true |}.

(** [a - b] on datetimes, in microseconds; a naive and an aware datetime do
    not subtract. *)
Definition datetime_sub (a b : datetime) : M Z :=
  if Bool.eqb (tz_aware a) (tz_aware b)
  then ret (instant_us a - instant_us b)
  else raise TypeError.

(** [timedelta.days] of a difference given in microseconds *)
Definition timedelta_days (us : Z) : Z := us / (86400 * 1000000).

Section Methods.

Context (env : environment).

Definition requests_call (req : request) : M response :=
  fun w => (respond env (length (calls w)) req, add_call req w).

Definition requests_post (url : string) (data : PyDict.t form_value) : M response :=
  requests_call (POST url data).

Definition requests_get (url : string) (stream : bool) : M response :=
  requests_call (GET url stream).

Definition requests_head (url : string) : M response :=
  requests_call (HEAD url).

(** The retry loop shared by the two metadata calls:
    [for _ in range(n): resp = requests.post(...); if 200: break; sleep(...)].
    [resp] is the variable of that name, unbound ([None]) before the first
    iteration. *)
Fixpoint post_until_ok (n : nat) (url : string) (data : PyDict.t form_value)
    (retry_seconds : Z) (resp : option response) : M (option response) :=
  match n with
  | O => ret resp
  | S n' =>
      let* r := requests_post url data in
      if status_code r =? 200 then ret (Some r)
      else sleep retry_seconds >> post_until_ok n' url data retry_seconds (Some r)
  end.

(** [file_path] is a [Path] object *)
Definition _download_file (file_url file_path : string) : M unit :=
  let* r := requests_get file_url true in
  raise_for_status r >>
  open_wb env file_path >>
  write_chunks env file_path (iter_content r CHUNK_SIZE).

Definition _get_collection_file_ids (collection_ids : list string)
    (retries retry_seconds : Z) : M (list FileID) :=
  let data := collection_data collection_ids in
  let* last := post_until_ok (Z.to_nat retries) get_collection_url data retry_seconds None in
  match last with
  | None => raise (UnboundLocalError "resp")
  | Some resp =>
      if negb (status_code resp =? 200)
      then raise (PyException (CollectionIdsError retries get_collection_url
                                 (status_code resp) (content resp)))
      else
        let* collections := json resp in
        match collections with
        | CollectionDetails collectiondetails => ret (collect_file_ids collectiondetails)
        | PublishedFileDetails _ => raise (KeyError "collectiondetails")
        end
  end.

(** The error message names [get_collection_url], as the source does. *)
Definition _get_steam_file_info (file_ids : list FileID)
    (retries retry_seconds : Z) : M (PyDict.t file_details) :=
  let data := file_info_data file_ids in
  let* last := post_until_ok (Z.to_nat retries) get_file_details_url data retry_seconds None in
  match last with
  | None => raise (UnboundLocalError "resp")
  | Some resp =>
      if negb (status_code resp =? 200)
      then raise (PyException (FileInfoError retries get_collection_url
                                 (status_code resp) (content resp)))
      else
        let* payload := json resp in
        match payload with
        | PublishedFileDetails publishedfiledetails =>
            ret (collect_file_info publishedfiledetails)
        | CollectionDetails _ => raise (KeyError "publishedfiledetails")
        end
  end.

(** Where [download_collections] puts the file [k]:
    [Path(path.join(p.absolute(), f"{k}{Path(details['file_name']).suffix}"))].
    The joined path has a root, since [p.absolute()] has one. *)
Definition destination (p : string) (k : FileID) (details : file_details) : string :=
  normal_form (path_join p (k +:+ path_suffix (file_name details))).

(** The body of the loop of [download_collections]; [p] is the [Path]
    object of the install directory. *)
Definition download_entry (p : string) (kd : FileID * file_details) : M unit :=
  let '(k, details) := kd in
  let file_path := destination p k details in
  let* found := path_exists file_path in
  let* skip :=
    (if found : bool
     then let* st := stat file_path in
          if st_size st =? file_size details then ret true
          else let* st' := stat file_path in
               ret (negb (Qle_bool (st_mtime st') (inject_Z (time_updated details))))
     else ret false) in
  if skip : bool
  then LOG INFO (MsgSkipping (file_name details))
  else LOG INFO (MsgDownloading (file_name details)) >>
       _download_file (file_url details) file_path.

(** [for k, details in file_details.items(): ...] *)
Fixpoint download_loop (p : string) (items : PyDict.t file_details) : M unit :=
  match items with
  | [] => ret tt
  | kd :: rest => download_entry p kd >> download_loop p rest
  end.

(** Lines 160 to 183: resolution, metadata, and the download loop *)
Definition resolve_and_download (collection_ids : list string) (p : string) : M unit :=
  let* file_ids :=
    _get_collection_file_ids collection_ids default_retries default_retry_seconds in
  LOG DEBUG (MsgFileIds file_ids) >>
  let* file_details :=
    _get_steam_file_info file_ids default_retries default_retry_seconds in
  LOG DEBUG (MsgFileDetails file_details) >>
  download_loop p file_details.

Definition download_collections (collection_ids : list string)
    (install_path : option string) : M unit :=
  let* p := Path env install_path in
  let* found := path_exists p in
  (if found : bool
   then let* d := is_dir p in
        if d : bool then ret tt else LOG ERROR (MsgNotADirectory p)
   else mkdir env p) >>
  resolve_and_download collection_ids p.

Definition decode (b : list byte) : M string :=
  match decode_utf8 env b with
  | Some s => ret s
  | None => raise UnicodeDecodeError
  end.

Definition parsedate (s : string) : M datetime :=
  fun w => (parsedate_to_datetime env s, w).

(** The test of [_allied_mods_download] on an installed file: the HEAD
    response it looked at, and whether the download is skipped. *)
Definition already_installed (install_path download_url : string) : M (response * bool) :=
  let* resp := requests_head download_url in
  let* remote_size := header resp "Content-Length" in
  let* st := stat install_path in
  let local_size := pretty (st_size st) in
  let* last_modified := header resp "Last-Modified" in
  let* remote_ts := parsedate last_modified in
  let* st' := stat install_path in
  let local_ts := fromtimestamp (st_mtime st') in
  let* time_diff := datetime_sub remote_ts local_ts in
  ret (resp, (String.eqb remote_size local_size && (timedelta_days time_diff <? 0))%bool).

(** [install_path] is a [Path] object *)
Definition _allied_mods_download (install_path url_prefix version latest_suffix : string)
  : M bool :=
  let latest_url := url_prefix +:+ "/" +:+ version +:+ "/" +:+ latest_suffix in
  let* resp := requests_get latest_url false in
  if negb (status_code resp =? 200)
  then raise (PyException (LatestVersionError latest_suffix))
  else
    let* download_file := decode (content resp) in
    let download_url := url_prefix +:+ "/" +:+ version +:+ "/" +:+ download_file in
    let* installed := is_file install_path in
    let* checked :=
      (if installed : bool
       then already_installed install_path download_url
       else ret (resp, false)) in
    let '(resp', skip) := checked in
    if skip : bool
    then LOG INFO (MsgAlreadyInstalled download_file) >> ret false
    else LOG DEBUG (MsgHeaders (headers resp')) >>
         LOG INFO (MsgDownloadingFrom download_url) >>
         _download_file download_url install_path >>
         ret true.

End Methods.

(** ** Reading the results *)

(** The position of the first [x] in [l] *)
Fixpoint first_index (x : string) (l : list string) : option nat :=
  match l with
  | [] => None
  | y :: l' => if String.eqb y x then Some O else S <$> first_index x l'
  end.

(** The file identifiers of an expansion response, in the order the two
    nested loops of [_get_collection_file_ids] visit them. *)
Definition child_ids (collectiondetails : list collection_result) : list FileID :=
  child_publishedfileid <$> concat (children <$> collectiondetails).

(** The dictionary value made from one entry of the file-details response *)
Definition details_of (fd : published_file) : file_details :=
  {| file_name := filename fd;
     file_size := pf_file_size fd;
     time_updated := pf_time_updated fd;
     file_url := pf_file_url fd |}.

(** The first entry of the response that carries the identifier [k] *)
Definition first_entry (k : FileID) (publishedfiledetails : list published_file)
  : option published_file :=
  List.find (fun fd => String.eqb (publishedfileid fd) k) publishedfiledetails.

(** The test of the loop body on a file that exists, as one value:
    [st_size == file_size or st_mtime > time_updated] *)
Definition up_to_date (st : stat_result) (details : file_details) : bool :=
  ((st_size st =? file_size details)
   || negb (Qle_bool (st_mtime st) (inject_Z (time_updated details))))%bool.

(** [needs_download p kd w]: the test of the loop body of
    [download_collections] sends the entry [kd] to [_download_file]. *)
Definition needs_download (p : string) (kd : FileID * file_details) (w : world) : bool :=
  match fs w !! destination p kd.1 kd.2 with
  | Some st => negb (up_to_date st kd.2)
  | None => true
  end.

(** The download plan of a run of the loop from [w]: the entries it hands
    to [_download_file], in order.  The loop has no plan of its own; each
    test is made on the directory as the earlier downloads left it, and an
    exception ends the run. *)
Fixpoint download_plan (env : environment) (p : string) (items : PyDict.t file_details)
    (w : world) : PyDict.t file_details :=
  match items with
  | [] => []
  | kd :: rest =>
      (if needs_download p kd w then [kd] else []) ++
      match download_entry env p kd w with
      | (Ok _, w') => download_plan env p rest w'
      | (Raise _, _) => []
      end
  end.

Definition plan_paths (p : string) (plan : PyDict.t file_details) : list string :=
  (fun kd => destination p kd.1 kd.2) <$> plan.



(** ** Concrete machines and remotes, used to run the model *)

Module Sample.

Definition dir_stat : stat_result :=
  {| st_kind := Directory; st_size := 4096; st_mtime := 0%Q |}.

Definition file_stat (size : Z) (mtime : Q) : stat_result :=
  {| st_kind := RegularFile; st_size := size; st_mtime := mtime |}.

(** A machine with the given entries, at the start of a run *)
Definition machine (entries : list (string * stat_result)) : world :=
  {| fs := list_to_map entries; calls := []; slept := []; logged := [] |}.

(** A clock that starts at 1.7e9 seconds and counts the seconds slept. *)
Definition wall_clock (made : list request) (sleeps : list Z) : Q :=
  inject_Z (1700000000 + foldr Z.add 0 sleeps).

Definition addons : string := "/srv/addons".

(** [/srv/addons] is there and empty. *)
Definition fresh_install : world := machine [("/srv", dir_stat); (addons, dir_stat)].

(** [/srv] is missing altogether. *)
Definition no_parent : world := machine [("/", dir_stat)].

Definition reply (status : Z) (body : list byte) (payload : option json_value) : response :=
  {| status_code := status; content := body; headers := []; parsed := payload |}.

Definition server (answer : request → result response) : environment :=
  {| respond := fun _ req => answer req;
     clock := wall_clock;
     parsedate_to_datetime := fun _ => Raise ValueError;
     decode_utf8 := fun b => Some (string_of_list_byte b);
     new_dir_size := 4096;
     cwd := "/home/steam" |}.

(** A remote that answers the two metadata calls with the given payloads
    and every GET with the given status and body. *)
Definition steam (cds : list collection_result) (pfd : list published_file)
    (get_status : Z) (get_body : list byte) : environment :=
  server (fun req =>
    match req with
    | POST url _ =>
        if String.eqb url get_collection_url
        then Ok (reply 200 [] (Some (CollectionDetails cds)))
        else Ok (reply 200 [] (Some (PublishedFileDetails pfd)))
    | GET _ _ => Ok (reply get_status get_body None)
    | HEAD _ => Raise (RequestException "unexpected")
    end).

(** A remote whose every answer has the given status and body. *)
Definition unavailable (status : Z) (body : list byte) : environment :=
  server (fun _ => Ok (reply status body None)).

Definition map_vpk (url : string) : published_file :=
  {| publishedfileid := "42"; filename := "map.vpk"; pf_file_size := 3;
     pf_time_updated := 100; pf_file_url := url |}.

Definition skin_vpk : published_file :=
  {| publishedfileid := "43"; filename := "skin.vpk"; pf_file_size := 3;
     pf_time_updated := 100; pf_file_url := "http://cdn/43" |}.

Definition one_collection : list collection_result :=
  [ {| children := [ {| child_publishedfileid := "42" |} ] |} ].

Definition three_bytes : list byte := [x61; x62; x63].

(** [/srv/addons] holds [42.vpk], three bytes, older than the remote. *)
Definition installed_42 : world :=
  machine [("/srv", dir_stat); (addons, dir_stat);
           ("/srv/addons/42.vpk", file_stat 3 0%Q)].

Definition cdn_ok : environment :=
  steam one_collection [map_vpk "http://cdn/42"] 200 three_bytes.

Definition cdn_not_found : environment :=
  steam one_collection [map_vpk "http://cdn/42"] 404 [].

Definition cdn_not_modified : environment :=
  steam one_collection [map_vpk "http://cdn/42"] 304 [].

Definition two_files : PyDict.t file_details :=
  [("42", details_of (map_vpk "http://cdn/42")); ("43", details_of skin_vpk)].

(** [/srv/addons] is a regular file. *)
Definition addons_is_a_file : world :=
  machine [("/srv", dir_stat); (addons, file_stat 10 0%Q)].

(** [/srv] is there, [/srv/addons] is not. *)
Definition no_addons : world := machine [("/srv", dir_stat)].

(** The remote sends the file [42] without a download URL. *)
Definition cdn_no_url : environment :=
  steam one_collection [map_vpk ""] 200 three_bytes.

(** The add-on site: the pointer file names the archive, the HEAD of the
    archive carries the two headers, and [Last-Modified] parses to
    [remote_us] microseconds past the epoch. *)
Definition allied (content_length : string) (remote_us : Z) : environment :=
  {| respond := fun _ req =>
       match req with
       | GET _ false => Ok (reply 200 (list_byte_of_string "mmsource.tar.gz") None)
       | GET _ true => Ok (reply 200 three_bytes None)
       | HEAD _ =>
           Ok {| status_code := 200; content := [];
                 headers := [("Content-Length", content_length);
                             ("Last-Modified", "Wed, 21 Oct 2015 07:28:00 GMT")];
                 parsed := None |}
       | POST _ _ => Raise (RequestException "unexpected")
       end;
     clock := wall_clock;
     parsedate_to_datetime := fun _ => Ok {| instant_us := remote_us; tz_aware := true |};
     decode_utf8 := fun b => Some (string_of_list_byte b);
     new_dir_size := 4096;
     cwd := "/home/steam" |}.

Definition metamod : string := "/srv/addons/metamod.tar.gz".



End Sample.

(** ** Further definitions, for the properties beyond the pipeline's core *)

(** The world after [k] failed attempts of one request: [k] calls and [k]
    sleeps more, nothing else. *)
Definition after_failures (req : request) (secs : Z) (k : nat) (w : world) : world :=
  {| fs := fs w; calls := calls w ++ repeat req k;
     slept := slept w ++ repeat secs k; logged := logged w |}.

(** A component of a path in normal form: not empty, not [.], and free of
    slashes. *)
Definition component (c : string) : Prop :=
  is_component c = true /\ rsplit "/" c = None.

(** The three roots of POSIX paths: none, one slash, two slashes *)
Definition root_like (r : string) : Prop := r = "" \/ r = "/" \/ r = "//".

(** The form field that carries the [i]-th identifier *)
Definition publishedfileids_key (i : nat) : string :=
  "publishedfileids[" +:+ pretty i +:+ "]".

(** *** [update_server_cfg_settings]: text files

    The method reads and writes text.  A second, small file system holds
    the content of the files it touches.  The text is ASCII, the platform
    is POSIX: [os.linesep] is a line feed and nothing is translated on
    writing; on reading, the universal newlines of text mode turn a
    carriage return, alone or followed by a line feed, into a line feed. *)

Definition LF : ascii := ascii_of_nat 10.

Definition CR : ascii := ascii_of_nat 13.

(** [os.linesep] *)
Definition linesep : string := String LF "".

Definition dquote : string := String (ascii_of_nat 34) "".

Inductive text_node :=
| TDir
| TFile (content : string).

Abbreviation text_fs := (gmap string text_node) (only parsing).

(** The computations on the text file system *)
Definition TM (A : Type) : Type := gmap string text_node -> result A * gmap string text_node.

Definition tret {A} (a : A) : TM A := fun t => (Ok a, t).

Definition traise {A} (e : exn) : TM A := fun t => (Raise e, t).

Definition tbind {A B} (c : TM A) (k : A -> TM B) : TM B :=
  fun t =>
    match c t with
    | (Ok a, t') => k a t'
    | (Raise e, t') => (Raise e, t')
    end.

Declare Scope text_scope.
Delimit Scope text_scope with text.
Notation "'let+' x ':=' c 'in' k" := (tbind c (fun x => k))
  (at level 10, x name, c at level 100, k at level 200) : text_scope.
Notation "c '>>+' k" := (tbind c (fun _ => k))
  (at level 65, right associativity) : text_scope.

(** [Path.exists()] *)
Definition text_exists (p : string) : TM bool :=
  fun t => (Ok (match t !! p with Some _ => true | None => false end), t).

(** What creating [p] needs of its parent *)
Definition text_check_parent (p : string) (t : gmap string text_node) : result unit :=
  match t !! path_parent p with
  | Some TDir => Ok tt
  | Some (TFile _) => Raise (NotADirectoryError p)
  | None => Raise (FileNotFoundError p)
  end.

(** [open(p, "r")]: the content, with universal newlines *)
Fixpoint universal_newlines (s : string) : string :=
  match s with
  | EmptyString => EmptyString
  | String c rest =>
      if Ascii.eqb c CR
      then String LF
             (match rest with
              | String c' rest' =>
                  if Ascii.eqb c' LF then universal_newlines rest'
                  else universal_newlines rest
              | EmptyString => EmptyString
              end)
      else String c (universal_newlines rest)
  end.

Definition open_r (p : string) : TM string :=
  fun t =>
    match t !! p with
    | Some (TFile c) => (Ok (universal_newlines c), t)
    | Some TDir => (Raise (IsADirectoryError p), t)
    | None => (Raise (FileNotFoundError p), t)
    end.

(** [open(p, "w")] when [truncate], [open(p, "a")] otherwise *)
Definition open_for_writing (truncate : bool) (p : string) : TM unit :=
  fun t =>
    match t !! p with
    | Some (TFile c) => (Ok tt, if truncate then <[p := TFile ""]> t else t)
    | Some TDir => (Raise (IsADirectoryError p), t)
    | None =>
        match text_check_parent p t with
        | Ok _ => (Ok tt, <[p := TFile ""]> t)
        | Raise e => (Raise e, t)
        end
    end.

(** [outfile.write(s)] on the file opened at [p] *)
Definition text_write (p : string) (s : string) : TM unit :=
  fun t =>
    match t !! p with
    | Some (TFile c) => (Ok tt, <[p := TFile (c +:+ s)]> t)
    | _ => (Raise (FileNotFoundError p), t)
    end.

(** [Path.rename(target)] of a regular file: [target] is replaced, unless it
    is a directory. *)
Definition text_rename (src dst : string) : TM unit :=
  fun t =>
    match t !! src with
    | Some (TFile c) =>
        match t !! dst with
        | Some TDir => (Raise (IsADirectoryError dst), t)
        | Some (TFile _) => (Ok tt, <[dst := TFile c]> (delete src t))
        | None =>
            match text_check_parent dst t with
            | Ok _ => (Ok tt, <[dst := TFile c]> (delete src t))
            | Raise e => (Raise e, t)
            end
        end
    | Some TDir => (Raise (IsADirectoryError src), t)
    | None => (Raise (FileNotFoundError src), t)
    end.

(** [for line in infile]: the lines of the text, each with its line feed,
    the last one as it is. *)
Fixpoint readlines (s : string) : list string :=
  match s with
  | EmptyString => []
  | String c rest =>
      if Ascii.eqb c LF then String LF "" :: readlines rest
      else match readlines rest with
           | [] => [String c ""]
           | l :: ls => String c l :: ls
           end
  end.

(** [str.isspace] on ASCII: tab to carriage return, the four separators
    28 to 31, and the space *)
Definition is_space (c : ascii) : bool :=
  let n := nat_of_ascii c in
  ((9 <=? n) && (n <=? 13) || (28 <=? n) && (n <=? 32))%nat.

Fixpoint take_token (s : string) : string :=
  match s with
  | EmptyString => EmptyString
  | String c rest => if is_space c then EmptyString else String c (take_token rest)
  end.

(** [splits = line.split()], then [splits[0]] when [len(splits) != 0] *)
Fixpoint first_token (s : string) : option string :=
  match s with
  | EmptyString => None
  | String c rest => if is_space c then first_token rest else Some (String c (take_token rest))
  end.

(** The value of a setting, by what [isinstance] tells of it: a [str], an
    [int] (a [bool] is an [int], and formats as [True] or [False]), or
    anything else. *)
Inductive setting_value :=
| SStr (s : string)
| SInt (n : Z)
| SBool (b : bool)
| SOther.

(** The line written for a setting, if one is: [key "value"] for a
    [str], [key value] for an [int], each followed by [os.linesep]. *)
Definition setting_line (key : string) (v : setting_value) : option string :=
  match v with
  | SStr s => Some (key +:+ " " +:+ dquote +:+ s +:+ dquote +:+ linesep)
  | SInt n => Some (key +:+ " " +:+ pretty n +:+ linesep)
  | SBool b => Some (key +:+ " " +:+ (if b then "True" else "False") +:+ linesep)
  | SOther => None
  end.

(** [keys.remove(k)] *)
Fixpoint remove_first (k : string) (keys : list string) : list string :=
  match keys with
  | [] => []
  | k' :: rest => if String.eqb k' k then rest else k' :: remove_first k rest
  end.

(** [settings[key]] *)
Definition setting (settings : PyDict.t setting_value) (key : string) : result setting_value :=
  match PyDict.get settings key with
  | Some v => Ok v
  | None => Raise (KeyError key)
  end.

(** The body of the loop over the lines of [server.cfg]: the line to
    write, and the keys still to be written. *)
Definition patch_line (settings : PyDict.t setting_value) (keys : list string)
    (line : string) : result (string * list string) :=
  if negb (String.prefix "//" line)
  then
    match first_token line with
    | Some setting_key =>
        if bool_decide (setting_key ∈ keys)
        then
          match setting settings setting_key with
          | Ok v =>
              Ok (match setting_line setting_key v with
                  | Some l => l
                  | None => line
                  end, remove_first setting_key keys)
          | Raise e => Raise e
          end
        else Ok (line, keys)
    | None => Ok (line, keys)
    end
  else Ok (line, keys).

Local Open Scope text_scope.

(** [for line in infile: ... outfile.write(line)] *)
Fixpoint patch_loop (settings : PyDict.t setting_value) (outfile_path : string)
    (keys : list string) (lines : list string) : TM (list string) :=
  match lines with
  | [] => tret keys
  | line :: rest =>
      match patch_line settings keys line with
      | Ok (line', keys') =>
          text_write outfile_path line' >>+ patch_loop settings outfile_path keys' rest
      | Raise e => traise e
      end
  end.

(** [for key in keys: ...] of the second block *)
Fixpoint append_settings (settings : PyDict.t setting_value) (outfile_path : string)
    (keys : list string) : TM unit :=
  match keys with
  | [] => tret tt
  | key :: rest =>
      match setting settings key with
      | Ok v =>
          match setting_line key v with
          | Some l => text_write outfile_path l
          | None => tret tt
          end >>+ append_settings settings outfile_path rest
      | Raise e => traise e
      end
  end.

(** [for config in exec_configs: outfile.write(f"exec {config}{ls}")] *)
Fixpoint append_execs (outfile_path : string) (exec_configs : list string) : TM unit :=
  match exec_configs with
  | [] => tret tt
  | config :: rest =>
      text_write outfile_path ("exec " +:+ config +:+ linesep) >>+
      append_execs outfile_path rest
  end.

Definition default_exec_configs : list string := ["banned_user.cfg"; "banned_ip.cfg"].

(** [working_dir] is [os.getcwd()]; [infile_path] and [outfile_path] are
    the two [Path] objects, [Path(f"{self.game_path}/cfg/server.cfg")] and
    [Path(f"{infile_path}.new")], the second being the first with [.new]
    added to its last component. *)
Definition update_server_cfg_settings (working_dir game_path : string)
    (settings : PyDict.t setting_value) (exec_configs : list string) : TM unit :=
  let keys := PyDict.keys settings in
  let infile_path := absolute working_dir (game_path +:+ "/cfg/server.cfg") in
  let outfile_path := normal_form (infile_path +:+ ".new") in
  let+ found := text_exists infile_path in
  let+ keys :=
    (if found : bool
     then let+ infile := open_r infile_path in
          open_for_writing true outfile_path >>+
          patch_loop settings outfile_path keys (readlines infile)
     else tret keys) in
  open_for_writing false outfile_path >>+
  append_settings settings outfile_path keys >>+
  append_execs outfile_path exec_configs >>+
  text_write outfile_path ("writeid" +:+ linesep) >>+
  text_write outfile_path ("writeip" +:+ linesep) >>+
  text_rename outfile_path infile_path.

Local Close Scope text_scope.

(** *** Reading the result of [update_server_cfg_settings] *)

Definition concat_lines (lines : list string) : string := foldr String.append "" lines.

(** [line] is a line the loop looks up under the key [k]: no comment, and
    [k] is its first word. *)
Definition names_setting (k : string) (line : string) : bool :=
  negb (String.prefix "//" line)
  && match first_token line with
     | Some k' => String.eqb k' k
     | None => false
     end.

(** The lines that end the new file: one [exec] per configuration, then
    [writeid] and [writeip]. *)
Definition trailer (exec_configs : list string) : string :=
  concat_lines ((fun config => "exec " +:+ config +:+ linesep) <$> exec_configs)
  +:+ "writeid" +:+ linesep +:+ "writeip" +:+ linesep.

(** The lines of the settings of the given keys, for those that have one *)
Definition pending_lines (settings : PyDict.t setting_value) (keys : list string)
  : list string :=
  omap (fun k => PyDict.get settings k ≫= setting_line k) keys.

(** The lines the loop writes and the keys it leaves, when every key still
    to be written is a key of [settings]. *)
Fixpoint patched_lines (settings : PyDict.t setting_value) (keys : list string)
    (lines : list string) : list string * list string :=
  match lines with
  | [] => ([], keys)
  | line :: rest =>
      match patch_line settings keys line with
      | Ok (line', keys') =>
          let '(out, remaining) := patched_lines settings keys' rest in
          (line' :: out, remaining)
      | Raise _ => ([], keys)
      end
  end.

(** No carriage return in [s]: reading [s] in text mode gives [s] back *)
Fixpoint no_cr (s : string) : bool :=
  match s with
  | EmptyString => true
  | String c rest => negb (Ascii.eqb c CR) && no_cr rest
  end.

(** A full line: one line feed, which ends it *)
Fixpoint is_line (s : string) : bool :=
  match s with
  | EmptyString => false
  | String c rest =>
      if Ascii.eqb c LF then match rest with EmptyString => true | _ => false end
      else is_line rest
  end.

(** The file already carries the settings: for every setting that has a
    line, the first of [lines] that names its key is that line. *)
Definition settled (settings : PyDict.t setting_value) (lines : list string) : bool :=
  forallb (fun '(k, v) =>
             match setting_line k v with
             | Some l => bool_decide (List.find (names_setting k) lines = Some l)
             | None => true
             end) settings.

(** *** The installer: [install_app], the add-on installs, [Left4Dead2Server]

    These methods render templates, start [steamcmd] and unpack archives.
    What those do is a parameter ([tools]); the methods are embedded over a
    [host]: the [world] of the pipeline, and the processes started, the
    archives unpacked and the records logged by the installer, which are
    kept apart from those of the pipeline. *)

(** The exceptions of the installer: those of the pipeline, and the ones
    raised here. *)
Inductive failure :=
| Py (e : exn)
| InstallError (app_id : Z) (server_ref : string) (stdout stderr : list byte)
| TemplateNotFound (name : string)
| NoStdin.

Inductive outcome (A : Type) :=
| Done (a : A)
| Failed (f : failure).
Arguments Done {A} a.
Arguments Failed {A} f.

(** What [subprocess.run(..., capture_output=True)] returns *)
Record completed_process := { returncode : Z; stdout : list byte; stderr : list byte }.

(** The dictionary [install_app] renders its template with *)
Record install_data := {
  data_username : option string;
  data_password : option string;
  data_app_id : Z;
  data_install_path : string;
  data_context : PyDict.t string }.

Inductive note :=
| NoteInstalling (app_id : Z) (server_ref : string)
| NoteFinished (app_id : Z) (server_ref : string)
| WarnNotSourceModGame (what : string).

Record host := {
  machine : world;
  notes : list note;
  processes : list (list string);
  extractions : list (string * option string) }.

Record tools := {
  remote : environment;
  get_template : string -> option (install_data -> string);
  run_process : list string -> gmap string stat_result
                -> result completed_process * gmap string stat_result;
  extractall : string -> option string -> gmap string stat_result
               -> result unit * gmap string stat_result;
  platform_system : string;
  python_bin : string }.

(** The attributes of a [ServerBase]; [steamcmd_script_path] is a [Path]
    object, the others are strings or [None]. *)
Record server := {
  app_id : Z;
  steamcmd_path : string;
  steamcmd_script_path : string;
  install_base_path : string;
  username : option string;
  password : option string;
  server_ref : string;
  install_sourcemod : bool;
  game_path : option string;
  addons_path : option string;
  game_executable_path : option string;
  friendly_name : option string;
  stop_cmd : option string;
  install_path : string;
  SOURCE_MOD_GAME : bool }.

(** [f"{x}"] of an attribute that may be [None] *)
Definition fmt (o : option string) : string := default "None" o.

Definition ServerBase_init (working_dir : string) (app_id : Z) (steamcmd_path
    steamcmd_script_path install_base_path : string) (username password : option string)
    (server_ref : string) (install_sourcemod : bool) : server :=
  {| app_id := app_id;
     steamcmd_path := steamcmd_path;
     steamcmd_script_path := absolute working_dir steamcmd_script_path;
     install_base_path := install_base_path;
     username := username;
     password := password;
     server_ref := server_ref;
     install_sourcemod := install_sourcemod;
     game_path := None;
     addons_path := None;
     game_executable_path := None;
     friendly_name := None;
     stop_cmd := None;
     install_path := install_base_path +:+ "/" +:+ pretty app_id +:+ "/" +:+ server_ref;
     SOURCE_MOD_GAME := false |}.

(** [AppIds.L4D2] *)
Definition L4D2 : Z := 222860.

Definition Left4Dead2Server_init (working_dir python : string) (app_id : Z) (steamcmd_path
    steamcmd_script_path install_base_path : string) (username password : option string)
    (server_ref : string) (install_sourcemod : bool) : server :=
  let base := ServerBase_init working_dir app_id steamcmd_path steamcmd_script_path
                install_base_path username password server_ref install_sourcemod in
  {| app_id := app_id;
     steamcmd_path := steamcmd_path;
     steamcmd_script_path := absolute working_dir steamcmd_script_path;
     install_base_path := install_base_path;
     username := username;
     password := password;
     server_ref := server_ref;
     install_sourcemod := install_sourcemod;
     game_path := Some (install_path base +:+ "/left4dead2");
     addons_path := Some (install_path base +:+ "/left4dead2/addons");
     game_executable_path := Some (install_path base +:+ "/srcds_run");
     friendly_name := Some "left4dead2";
     stop_cmd := Some (python +:+ " -m steamcmd.systemd $MAINPID --cmd 'say Server shutting down in 10 seconds' --cmd 'quit' --cmd-delay 10");
     install_path := install_path base;
     SOURCE_MOD_GAME := true |}.

Definition set_machine (w : world) (h : host) : host :=
  {| machine := w; notes := notes h; processes := processes h;
     extractions := extractions h |}.

Definition add_note (n : note) (h : host) : host :=
  {| machine := machine h; notes := notes h ++ [n]; processes := processes h;
     extractions := extractions h |}.

Definition add_process (args : list string) (h : host) : host :=
  {| machine := machine h; notes := notes h; processes := processes h ++ [args];
     extractions := extractions h |}.

Definition add_extraction (archive : string) (dest : option string) (h : host) : host :=
  {| machine := machine h; notes := notes h; processes := processes h;
     extractions := extractions h ++ [(archive, dest)] |}.

Definition H (A : Type) : Type := host -> outcome A * host.

Definition hret {A} (a : A) : H A := fun h => (Done a, h).

Definition hfail {A} (f : failure) : H A := fun h => (Failed f, h).

Definition hbind {A B} (c : H A) (k : A -> H B) : H B :=
  fun h =>
    match c h with
    | (Done a, h') => k a h'
    | (Failed f, h') => (Failed f, h')
    end.

(** A computation of the pipeline, run on the machine of the host *)
Definition lift {A} (c : M A) : H A :=
  fun h =>
    match c (machine h) with
    | (Ok a, w) => (Done a, set_machine w h)
    | (Raise e, w) => (Failed (Py e), set_machine w h)
    end.

Declare Scope host_scope.
Delimit Scope host_scope with host.
Notation "'let!' x ':=' c 'in' k" := (hbind c (fun x => k))
  (at level 10, x name, c at level 100, k at level 200) : host_scope.
Notation "c '>>!' k" := (hbind c (fun _ => k))
  (at level 65, right associativity) : host_scope.
Local Open Scope host_scope.

Definition LOG_note (n : note) : H unit := fun h => (Done tt, add_note n h).

(** [Path.unlink()] *)
Definition unlink (p : string) : M unit :=
  fun w =>
    match fs w !! p with
    | Some st =>
        match st_kind st with
        | RegularFile => (Ok tt, set_fs (delete p (fs w)) w)
        | Directory => (Raise (IsADirectoryError p), w)
        end
    | None => (Raise (FileNotFoundError p), w)
    end.

(** [Path.write_text(text)] *)
Definition write_text (env : environment) (p : string) (text : string) : M unit :=
  (open_wb env p >> write env p (list_byte_of_string text))%py.

(** [subprocess.run(args, capture_output=True)]: the process runs on the
    file system of the machine. *)
Definition run (tl : tools) (args : list string) : H completed_process :=
  fun h =>
    let '(r, files) := run_process tl args (fs (machine h)) in
    let h' := add_process args (set_machine (set_fs files (machine h)) h) in
    match r with
    | Ok p => (Done p, h')
    | Raise e => (Failed (Py e), h')
    end.

(** [tar = tarfile.open(archive, "r:gz"); tar.extractall(dest)] *)
Definition untar (tl : tools) (archive : string) (dest : option string) : H unit :=
  fun h =>
    let '(r, files) := extractall tl archive dest (fs (machine h)) in
    let h' := add_extraction archive dest (set_machine (set_fs files (machine h)) h) in
    match r with
    | Ok _ => (Done tt, h')
    | Raise e => (Failed (Py e), h')
    end.

(** [if self.steamcmd_script_path.exists(): self.steamcmd_script_path.unlink()] *)
Definition remove_script (self : server) : H unit :=
  let! found := lift (path_exists (steamcmd_script_path self)) in
  if found : bool then lift (unlink (steamcmd_script_path self)) else hret tt.

(** The body of the [try] of [install_app] *)
Definition run_script (tl : tools) (self : server) : H unit :=
  let! found := lift (path_exists (steamcmd_script_path self)) in
  if found : bool
  then
    let! result := run tl [steamcmd_path self; "+runscript"; steamcmd_script_path self] in
    if negb (returncode result =? 0)
    then hfail (InstallError (app_id self) (server_ref self) (stdout result) (stderr result))
    else hret tt
  else hret tt.

(** [ServerBase.install_app] *)
Definition install_app (tl : tools) (self : server) (template_name : string)
    (context : PyDict.t string) : H unit :=
  LOG_note (NoteInstalling (app_id self) (server_ref self)) >>!
  match get_template tl template_name with
  | None => hfail (TemplateNotFound template_name)
  | Some template =>
      let data := {| data_username := username self;
                     data_password := password self;
                     data_app_id := app_id self;
                     data_install_path := install_path self;
                     data_context := context |} in
      lift (write_text (remote tl) (steamcmd_script_path self) (template data)) >>!
      (fun h =>
         match run_script tl self h with
         | (Done _, h') =>
             (remove_script self >>!
              LOG_note (NoteFinished (app_id self) (server_ref self))) h'
         | (Failed f, h') =>
             (* except Exception: remove the script, raise *)
             (remove_script self >>! hfail f) h'
         end)
  end.

(** The common shape of [_install_metamod] and [_install_sourcemod]; the
    download gets [Path(f"{self.addons_path}/<archive>")], [tarfile.open]
    gets the string. *)
Definition install_mod (tl : tools) (self : server) (what archive url_prefix version
    latest_prefix : string) : H unit :=
  (if negb (SOURCE_MOD_GAME self) then LOG_note (WarnNotSourceModGame what) else hret tt) >>!
  let! file_changed :=
    lift (_allied_mods_download (remote tl)
            (absolute (cwd (remote tl)) (fmt (addons_path self) +:+ "/" +:+ archive))
            url_prefix version
            (latest_prefix +:+ lower (platform_system tl))) in
  if file_changed : bool
  then untar tl (fmt (addons_path self) +:+ "/" +:+ archive) (game_path self)
  else hret tt.

Definition _install_metamod (tl : tools) (self : server) (version : string) : H unit :=
  install_mod tl self "metamod" "metamod.tar.gz" "https://mms.alliedmods.net/mmsdrop"
    version "mmsource-latest-".

Definition _install_sourcemod (tl : tools) (self : server) (version : string) : H unit :=
  install_mod tl self "sourcemod" "sourcemod.tar.gz" "https://sm.alliedmods.net/smdrop"
    version "sourcemod-latest-".

(** [Left4Dead2Server.install_app] *)
Definition l4d2_install_app (tl : tools) (self : server) (template_name : string)
    (context : PyDict.t string) (collection_ids : list string) : H unit :=
  install_app tl self template_name context >>!
  (if (0 <? length collection_ids)%nat
   then lift (download_collections (remote tl) collection_ids (addons_path self))
   else hret tt) >>!
  (if install_sourcemod self
   then _install_metamod tl self "1.11" >>! _install_sourcemod tl self "1.10"
   else hret tt).

Definition is_post (r : request) : bool :=
  match r with
  | POST _ _ => true
  | _ => false
  end.

(** A step of the installer that sends no request *)
Definition sends_nothing {A} (c : H A) : Prop :=
  forall h, calls (machine (c h).2) = calls (machine h).

(** A step of the installer that sends no POST request *)
Definition never_posts {A} (c : H A) : Prop :=
  forall h, exists new,
    calls (machine (c h).2) = calls (machine h) ++ new
    /\ Forall (fun q => is_post q = false) new.

(** *** [steamcmd.systemd]: the commands sent to a running server *)

Inductive stdin_event :=
| Sent (text : string)
| Paused (secs : Z).

(** The loop over [enumerate(args.cmd, start=1)]; [total] is
    [len(args.cmd)]. *)
Fixpoint send_loop (i total : nat) (cmds : list string) (cmd_delay : Z) (no_newline : bool)
  : outcome unit * list stdin_event :=
  match cmds with
  | [] => (Done tt, [])
  | cmd :: rest =>
      let sent := Sent (cmd +:+ (if no_newline then "" else linesep)) in
      if negb (i =? total)%nat
      then
        if cmd_delay <? 0 then (Failed (Py ValueError), [sent])
        else
          let '(r, events) := send_loop (S i) total rest cmd_delay no_newline in
          (r, sent :: Paused cmd_delay :: events)
      else
        let '(r, events) := send_loop (S i) total rest cmd_delay no_newline in
        (r, sent :: events)
  end.

(** The main program of [steamcmd.systemd], after the arguments are
    parsed; [proc_exists] tells whether [/proc/<pid>/fd/0] exists. *)
Definition send_commands (proc_exists : bool) (cmds : list string) (cmd_delay : Z)
    (no_newline : bool) : outcome unit * list stdin_event :=
  if negb proc_exists then (Failed NoStdin, [])
  else send_loop 1 (length cmds) cmds cmd_delay no_newline.

Definition is_pause (e : stdin_event) : bool :=
  match e with
  | Paused _ => true
  | Sent _ => false
  end.

(** The events of [cmds] sent one after the other, with a pause between
    two of them *)
Fixpoint with_pauses (cmd_delay : Z) (no_newline : bool) (cmds : list string)
  : list stdin_event :=
  match cmds with
  | [] => []
  | cmd :: rest =>
      Sent (cmd +:+ (if no_newline then "" else linesep))
      :: match rest with
         | [] => []
         | _ :: _ => Paused cmd_delay :: with_pauses cmd_delay no_newline rest
         end
  end.

Local Close Scope host_scope.

Module More.

(** A remote whose answers to the metadata calls fail [k] times with status
    503 and then succeed. *)
Definition flaky (k : nat) : environment :=
  {| respond := fun i req =>
       if (i <? k)%nat then Ok (Sample.reply 503 Sample.three_bytes None)
       else Ok (Sample.reply 200 []
                  (Some (match req with
                         | POST url _ =>
                             if String.eqb url get_collection_url
                             then CollectionDetails Sample.one_collection
                             else PublishedFileDetails [Sample.map_vpk "http://cdn/42"]
                         | _ => CollectionDetails []
                         end)));
     clock := Sample.wall_clock;
     parsedate_to_datetime := fun _ => Raise ValueError;
     decode_utf8 := fun b => Some (string_of_list_byte b);
     new_dir_size := 4096;
     cwd := "/home/steam" |}.

(** A remote that cannot be reached *)
Definition unreachable : environment :=
  Sample.server (fun _ => Raise (RequestException "connection refused")).

(** The working directory of the process *)
Definition home : string := "/home/steam".

(** A game directory with its [cfg] directory, and a [server.cfg] *)
Definition game : string := "/srv/game".

Definition cfg_only : gmap string text_node :=
  <[game +:+ "/cfg" := TDir]> (<[game := TDir]> ∅).

Definition with_server_cfg (c : string) : gmap string text_node :=
  <[game +:+ "/cfg/server.cfg" := TFile c]> cfg_only.

(** A comment, a host name, a setting, and the host name again *)
Definition old_cfg : string :=
  "// hostname is set below" +:+ linesep
  +:+ "hostname " +:+ dquote +:+ "old" +:+ dquote +:+ linesep
  +:+ "sv_lan 0" +:+ linesep
  +:+ "hostname " +:+ dquote +:+ "again" +:+ dquote +:+ linesep.

Definition new_settings : PyDict.t setting_value :=
  [("hostname", SStr "new"); ("sv_cheats", SInt 1); ("sv_gravity", SOther)].

Definition new_cfg : string :=
  "// hostname is set below" +:+ linesep
  +:+ "hostname " +:+ dquote +:+ "new" +:+ dquote +:+ linesep
  +:+ "sv_lan 0" +:+ linesep
  +:+ "hostname " +:+ dquote +:+ "again" +:+ dquote +:+ linesep
  +:+ "sv_cheats 1" +:+ linesep
  +:+ "exec banned_user.cfg" +:+ linesep
  +:+ "exec banned_ip.cfg" +:+ linesep
  +:+ "writeid" +:+ linesep
  +:+ "writeip" +:+ linesep.

(** A host for a Left 4 Dead 2 server: [steamcmd] exits with [code], and
    leaves the files as they are. *)
Definition tools_with (env : environment) (code : Z) : tools :=
  {| remote := env;
     get_template := fun name =>
       if String.eqb name "base_install_app.j2"
       then Some (fun data => "login " +:+ fmt (data_username data) +:+ " "
                              +:+ fmt (data_password data))
       else None;
     run_process := fun _ files =>
       (Ok {| returncode := code; stdout := Sample.three_bytes; stderr := [] |}, files);
     extractall := fun _ _ files => (Ok tt, files);
     platform_system := "Linux";
     python_bin := "/usr/bin/python3" |}.

Definition steam_tools : tools := tools_with (Sample.allied "100" 0) 0.

Definition l4d2 : server :=
  Left4Dead2Server_init "/home/steam" "/usr/bin/python3" L4D2 "/usr/games/steamcmd"
    "/home/steam/py-manager-update.script" "/home/steam/games"
    (Some "anonymous") (Some "secret") "0" true.

(** A server of the base class: no game paths, and not a Source game *)
Definition plain : server :=
  ServerBase_init "/home/steam" 90 "/usr/games/steamcmd" "/home/steam/py-manager-update.script"
    "/home/steam/games" None None "0" false.

Definition clean_host : host :=
  {| machine := Sample.machine [("/home", Sample.dir_stat); ("/home/steam", Sample.dir_stat)];
     notes := []; processes := []; extractions := [] |}.

End More.

(** ** Paths *)

Example suffix_vpk : path_suffix "map.vpk" = ".vpk".
Proof. reflexivity. Qed.

Example suffix_hidden : path_suffix ".bashrc" = "".
Proof. reflexivity. Qed.

Example suffix_two_dots : path_suffix "dir.d/archive.tar.gz" = ".gz".
Proof. reflexivity. Qed.

Example destination_naming :
  path_join "/srv/addons" ("123" +:+ path_suffix "map.vpk") = "/srv/addons/123.vpk".
Proof. reflexivity. Qed.

Example parent_of_addons : path_parent "/srv/addons" = "/srv".
Proof. reflexivity. Qed.

(** ** Lists and dictionaries *)

Lemma first_index_elem x l a : first_index x l = Some a → x ∈ l.
Proof.
  revert a. induction l as [|y l IH]; intros a; simpl; [done|].
  destruct (String.eqb_spec y x) as [->|Hne].
  - intros _. apply list_elem_of_here.
  - destruct (first_index x l) as [b|] eqn:E; [|done].
    intros _. apply list_elem_of_further. by eapply IH.
Qed.

Lemma first_index_lt x l a : first_index x l = Some a → (a < length l)%nat.
Proof.
  revert a. induction l as [|y l IH]; intros a; simpl; [done|].
  destruct (String.eqb_spec y x) as [->|Hne].
  - intros [= <-]. lia.
  - destruct (first_index x l) as [b|] eqn:E; [|done].
    intros [= <-]. specialize (IH b eq_refl). lia.
Qed.

Lemma first_index_is_Some x l : x ∈ l → is_Some (first_index x l).
Proof.
  induction 1 as [x l|x y l Hin IH]; simpl.
  - rewrite String.eqb_refl. by eexists.
  - destruct (String.eqb y x); [by eexists|].
    destruct IH as [b ->]. by eexists.
Qed.

Lemma first_index_app_l x l l' :
  x ∈ l → first_index x (l ++ l') = first_index x l.
Proof.
  induction 1 as [x l|x y l Hin IH]; simpl.
  - by rewrite String.eqb_refl.
  - destruct (String.eqb y x); [done|]. by rewrite IH.
Qed.

Lemma first_index_app_r x l l' :
  x ∉ l → first_index x (l ++ l') = (fun n => (length l + n)%nat) <$> first_index x l'.
Proof.
  induction l as [|y l IH]; intros Hnot; simpl.
  - by destruct (first_index x l').
  - destruct (String.eqb_spec y x) as [->|Hne].
    + exfalso. apply Hnot. apply list_elem_of_here.
    + rewrite IH.
      * by destruct (first_index x l').
      * intros Hin. apply Hnot. by apply list_elem_of_further.
Qed.

Module PyDictFacts.

Import PyDict.

Lemma get_set {V} (d : t V) k v k' :
  get (set d k v) k' = if String.eqb k k' then Some v else get d k'.
Proof.
  induction d as [|[k0 v0] d IH]; simpl.
  - done.
  - destruct (String.eqb_spec k0 k) as [->|Hne]; simpl.
    + by destruct (String.eqb k k').
    + rewrite IH. destruct (String.eqb_spec k0 k') as [->|Hne'].
      * destruct (String.eqb_spec k k') as [->|]; [done|done].
      * done.
Qed.

Lemma get_None_keys {V} (d : t V) k : get d k = None ↔ k ∉ keys d.
Proof.
  unfold keys. induction d as [|[k0 v0] d IH]; simpl.
  - split; [intros _; apply not_elem_of_nil | done].
  - destruct (String.eqb_spec k0 k) as [->|Hne].
    + split; [done|]. intros H. exfalso. apply H. apply list_elem_of_here.
    + rewrite IH, not_elem_of_cons. split; [intros H; split; [congruence|done] | by intros [_ H]].
Qed.

Lemma keys_set_new {V} (d : t V) k v :
  get d k = None → keys (set d k v) = keys d ++ [k].
Proof.
  unfold keys. induction d as [|[k0 v0] d IH]; simpl; [done|].
  destruct (String.eqb_spec k0 k) as [->|Hne]; [done|].
  intros H. simpl. by rewrite IH.
Qed.

Lemma get_elem {V} (d : t V) k v : get d k = Some v → (k, v) ∈ d.
Proof.
  induction d as [|[k0 v0] d IH]; simpl; [done|].
  destruct (String.eqb_spec k0 k) as [->|Hne].
  - intros [= ->]. apply list_elem_of_here.
  - intros H. apply list_elem_of_further. by apply IH.
Qed.

Lemma elem_get {V} (d : t V) k v : NoDup (keys d) → (k, v) ∈ d → get d k = Some v.
Proof.
  unfold keys. induction d as [|[k0 v0] d IH]; simpl.
  - intros _ H. by apply elem_of_nil in H.
  - rewrite NoDup_cons. intros [Hk Hd] Hin.
    apply elem_of_cons in Hin as [[= -> ->]|Hin].
    + by rewrite String.eqb_refl.
    + destruct (String.eqb_spec k0 k) as [->|Hne]; [|by apply IH].
      exfalso. apply Hk. apply list_elem_of_fmap. by exists (k, v).
Qed.

End PyDictFacts.

(** ** Collection membership: [_get_collection_file_ids], lines 225 to 234 *)

Lemma collect_file_ids_concat cds :
  collect_file_ids cds = fold_left append_child (concat (children <$> cds)) [].
Proof.
  unfold collect_file_ids. generalize (@nil FileID).
  induction cds as [|r cds IH]; intros acc; simpl; [done|].
  by rewrite fold_left_app, IH.
Qed.

Lemma append_children_snoc l c acc :
  fold_left append_child (l ++ [c]) acc = append_child (fold_left append_child l acc) c.
Proof. by rewrite fold_left_app. Qed.

Lemma append_children_elem l x :
  x ∈ fold_left append_child l [] ↔ x ∈ child_publishedfileid <$> l.
Proof.
  induction l as [|c l IH] using rev_ind; [done|].
  rewrite append_children_snoc, fmap_app, elem_of_app. simpl.
  unfold append_child. case_bool_decide as Hin.
  - rewrite IH. split; [tauto|]. intros [H|H]; [done|].
    apply list_elem_of_singleton in H as ->. by apply IH.
  - by rewrite elem_of_app, IH.
Qed.

Lemma append_children_NoDup l : NoDup (fold_left append_child l []).
Proof.
  induction l as [|c l IH] using rev_ind; [apply NoDup_nil_2|].
  rewrite append_children_snoc. unfold append_child. case_bool_decide as Hin; [done|].
  apply NoDup_app. split; [done|]. split; [|apply NoDup_singleton].
  intros x Hx Hx'. apply list_elem_of_singleton in Hx' as ->. done.
Qed.

Lemma append_children_order l i j x y :
  fold_left append_child l [] !! i = Some x →
  fold_left append_child l [] !! j = Some y →
  (i < j)%nat →
  ∃ a b, first_index x (child_publishedfileid <$> l) = Some a
         ∧ first_index y (child_publishedfileid <$> l) = Some b
         ∧ (a < b)%nat.
Proof.
  revert i j x y. induction l as [|c l IH] using rev_ind; intros i j x y; [done|].
  rewrite append_children_snoc, fmap_app. simpl.
  pose proof (append_children_elem l) as Helem.
  remember (fold_left append_child l []) as res eqn:Hres.
  remember (child_publishedfileid <$> l) as ids eqn:Hids.
  assert (Hold : ∀ i j x y, res !! i = Some x → res !! j = Some y → (i < j)%nat →
            ∃ a b, first_index x (ids ++ [child_publishedfileid c]) = Some a
                   ∧ first_index y (ids ++ [child_publishedfileid c]) = Some b
                   ∧ (a < b)%nat).
  { intros i' j' x' y' Hi Hj Hlt.
    destruct (IH _ _ _ _ Hi Hj Hlt) as (a & b & Ha & Hb & Hab).
    exists a, b. split_and!; [| |done].
    - rewrite first_index_app_l; [done|]. by eapply first_index_elem.
    - rewrite first_index_app_l; [done|]. by eapply first_index_elem. }
  unfold append_child. case_bool_decide as Hin; [by apply Hold|].
  intros Hi Hj Hlt.
  destruct (decide (j < length res)%nat) as [Hj'|Hj'].
  - rewrite lookup_app_l in Hi by lia. rewrite lookup_app_l in Hj by lia.
    exact (Hold _ _ _ _ Hi Hj Hlt).
  - assert (j = length res) as ->.
    { apply lookup_lt_Some in Hj. rewrite length_app in Hj. simpl in Hj. lia. }
    rewrite lookup_app_l in Hi by lia.
    rewrite lookup_app_r in Hj by lia. rewrite Nat.sub_diag in Hj.
    simpl in Hj. injection Hj as <-.
    assert (Hx : x ∈ ids).
    { apply Helem. by eapply list_elem_of_lookup_2. }
    destruct (first_index_is_Some _ _ Hx) as [a Ha].
    exists a, (length ids + 0)%nat. split_and!.
    + by rewrite first_index_app_l.
    + rewrite first_index_app_r.
      * simpl. by rewrite String.eqb_refl.
      * intros Hc. apply Hin. by apply Helem.
    + apply first_index_lt in Ha. lia.
Qed.

Lemma collect_file_ids_facts collectiondetails :
  NoDup (collect_file_ids collectiondetails)
  ∧ (∀ x, x ∈ collect_file_ids collectiondetails ↔ x ∈ child_ids collectiondetails)
  ∧ (∀ i j x y,
       collect_file_ids collectiondetails !! i = Some x →
       collect_file_ids collectiondetails !! j = Some y →
       (i < j)%nat →
       ∃ a b, first_index x (child_ids collectiondetails) = Some a
              ∧ first_index y (child_ids collectiondetails) = Some b
              ∧ (a < b)%nat).
Proof.
  rewrite collect_file_ids_concat. unfold child_ids. split_and!.
  - apply append_children_NoDup.
  - apply append_children_elem.
  - apply append_children_order.
Qed.

(** ** File metadata: [_get_steam_file_info], lines 261 to 271 *)

Lemma get_store_details result fd k :
  PyDict.get (store_details result fd) k =
  match PyDict.get result k with
  | Some v => Some v
  | None => if String.eqb (publishedfileid fd) k then Some (details_of fd) else None
  end.
Proof.
  unfold store_details, PyDict.mem.
  destruct (PyDict.get result (publishedfileid fd)) as [v|] eqn:E; simpl.
  - destruct (PyDict.get result k) as [v'|] eqn:E'; [done|].
    destruct (String.eqb_spec (publishedfileid fd) k) as [<-|]; [congruence|done].
  - rewrite PyDictFacts.get_set. fold (details_of fd).
    destruct (String.eqb_spec (publishedfileid fd) k) as [<-|]; [by rewrite E|].
    by destruct (PyDict.get result k).
Qed.

Lemma keys_store_details result fd :
  NoDup (PyDict.keys result) → NoDup (PyDict.keys (store_details result fd)).
Proof.
  intros Hnd. unfold store_details, PyDict.mem.
  destruct (PyDict.get result (publishedfileid fd)) as [v|] eqn:E; simpl; [done|].
  rewrite PyDictFacts.keys_set_new by done.
  apply NoDup_app. split; [done|]. split; [|apply NoDup_singleton].
  intros x Hx Hx'. apply list_elem_of_singleton in Hx' as ->.
  by apply PyDictFacts.get_None_keys in E.
Qed.

Lemma get_fold_store_details l result k :
  PyDict.get (fold_left store_details l result) k =
  match PyDict.get result k with
  | Some v => Some v
  | None => details_of <$> first_entry k l
  end.
Proof.
  revert result. induction l as [|fd l IH]; intros result; simpl.
  - by destruct (PyDict.get result k).
  - rewrite IH, get_store_details.
    destruct (PyDict.get result k); [done|].
    by destruct (String.eqb (publishedfileid fd) k).
Qed.

Lemma keys_fold_store_details l result :
  NoDup (PyDict.keys result) → NoDup (PyDict.keys (fold_left store_details l result)).
Proof.
  revert result. induction l as [|fd l IH]; intros result Hnd; simpl; [done|].
  by apply IH, keys_store_details.
Qed.

Lemma file_info_lookup publishedfiledetails :
  NoDup (PyDict.keys (collect_file_info publishedfiledetails))
  ∧ ∀ k, PyDict.get (collect_file_info publishedfiledetails) k
         = details_of <$> first_entry k publishedfiledetails.
Proof.
  unfold collect_file_info. split.
  - apply keys_fold_store_details. apply NoDup_nil_2.
  - intros k. by rewrite get_fold_store_details.
Qed.

(** ** The bulk fetcher: [_download_file] *)

Lemma total_length_chunks fuel n (body : list byte) :
  (0 < n)%nat → (length body ≤ fuel)%nat →
  concat (iter_content_loop fuel n body) = body.
Proof.
  intros Hn. revert body. induction fuel as [|fuel IH]; intros body Hlen; simpl.
  - destruct body; [done|simpl in Hlen; lia].
  - destruct body as [|b body]; [done|].
    simpl concat. rewrite IH.
    + apply take_drop.
    + rewrite length_drop. simpl in *. lia.
Qed.

Lemma iter_content_concat r n : (0 < n)%nat → concat (iter_content r n) = content r.
Proof. intros Hn. by apply total_length_chunks. Qed.

Lemma CHUNK_SIZE_pos : (0 < CHUNK_SIZE)%nat.
Proof. unfold CHUNK_SIZE. lia. Qed.

Lemma set_fs_same w : set_fs (fs w) w = w.
Proof. by destruct w. Qed.

Lemma write_chunks_spec env p chunks w st :
  fs w !! p = Some st →
  write_chunks env p chunks w =
    (Ok tt, set_fs (<[p := match chunks with
                           | [] => st
                           | _ => {| st_kind := st_kind st;
                                     st_size := st_size st + Z.of_nat (length (concat chunks));
                                     st_mtime := now env w |}
                           end]> (fs w)) w).
Proof.
  revert w st. induction chunks as [|c cs IH]; intros w st Hst; simpl.
  - unfold ret. by rewrite insert_id, set_fs_same.
  - unfold bind, write at 1. rewrite Hst.
    erewrite IH by (simpl; apply lookup_insert_eq).
    unfold set_fs; simpl. rewrite insert_insert_eq. do 3 f_equal.
    destruct cs as [|c' cs]; simpl.
    + by rewrite app_nil_r.
    + f_equal. rewrite !length_app. lia.
Qed.

(** What [_download_file] does, call by call *)
Lemma _download_file_unfold env url p w :
  _download_file env url p w =
  match respond env (length (calls w)) (GET url true) with
  | Raise e => (Raise e, add_call (GET url true) w)
  | Ok r =>
      if ((400 <=? status_code r) && (status_code r <? 600))%bool
      then (Raise (HTTPError (status_code r)), add_call (GET url true) w)
      else match open_wb env p (add_call (GET url true) w) with
           | (Ok _, w') => write_chunks env p (iter_content r CHUNK_SIZE) w'
           | (Raise e, w') => (Raise e, w')
           end
  end.
Proof.
  unfold _download_file, bind, requests_get, requests_call, raise_for_status.
  destruct (respond env (length (calls w)) (GET url true)) as [r|e]; [|done].
  destruct ((400 <=? status_code r) && (status_code r <? 600))%bool; [done|].
  unfold ret. by destruct (open_wb env p (add_call (GET url true) w)) as [[[]|e] w'].
Qed.

Lemma open_wb_inv env p w res w' :
  open_wb env p w = (res, w') →
  calls w' = calls w ∧ logged w' = logged w ∧ slept w' = slept w
  ∧ (∀ q, q ≠ p → fs w' !! q = fs w !! q)
  ∧ (res = Ok tt → fs w' !! p = Some (empty_file env w))
  ∧ (res ≠ Ok tt → w' = w).
Proof.
  unfold open_wb.
  destruct (fs w !! p) as [st|] eqn:E.
  - destruct (st_kind st); intros [= <- <-]; simpl.
    + split_and!; try done.
      * intros q Hq. by rewrite lookup_insert_ne.
      * intros _. apply lookup_insert_eq.
    + split_and!; done.
  - destruct (check_parent p w) as [[]|e]; intros [= <- <-]; simpl.
    + split_and!; try done.
      * intros q Hq. by rewrite lookup_insert_ne.
      * intros _. apply lookup_insert_eq.
    + split_and!; done.
Qed.

(** The effects of [_download_file]: one GET, whatever happens; nothing is
    logged; no path but [p] changes; and when it returns, [p] is a regular
    file holding the body of the response. *)
Lemma _download_file_effects env url p w res w' :
  _download_file env url p w = (res, w') →
  calls w' = calls w ++ [GET url true]
  ∧ logged w' = logged w
  ∧ (∀ q, q ≠ p → fs w' !! q = fs w !! q)
  ∧ (res = Ok tt →
     ∃ r st, respond env (length (calls w)) (GET url true) = Ok r
             ∧ fs w' !! p = Some st
             ∧ st_kind st = RegularFile
             ∧ st_size st = Z.of_nat (length (content r))).
Proof.
  rewrite _download_file_unfold.
  destruct (respond env (length (calls w)) (GET url true)) as [r|e].
  2:{ intros [= <- <-]. by split_and!. }
  destruct ((400 <=? status_code r) && (status_code r <? 600))%bool.
  { intros [= <- <-]. by split_and!. }
  destruct (open_wb env p (add_call (GET url true) w)) as [[[]|e] w1] eqn:Hopen;
    apply open_wb_inv in Hopen as (Hc & Hl & Hn & Hframe & Hp & Hsame).
  - specialize (Hp eq_refl).
    rewrite (write_chunks_spec _ _ _ _ _ Hp). intros [= <- <-]. simpl.
    split_and!; try done.
    + intros q Hq. rewrite lookup_insert_ne by done. by apply Hframe.
    + intros _. eexists r, _. split; [done|]. split; [apply lookup_insert_eq|].
      pose proof (iter_content_concat r CHUNK_SIZE CHUNK_SIZE_pos) as Hcat.
      destruct (iter_content r CHUNK_SIZE) as [|c cs] eqn:Hit.
      * simpl in *. rewrite <- Hcat. done.
      * rewrite Hcat. simpl. split; [done|lia].
  - intros [= <- <-]. rewrite Hsame by done. by split_and!.
Qed.

(** ** The download loop of [download_collections], lines 166 to 183 *)

Lemma up_to_date_iff st details :
  up_to_date st details = true ↔
  st_size st = file_size details ∨ (inject_Z (time_updated details) < st_mtime st)%Q.
Proof.
  unfold up_to_date. rewrite orb_true_iff, Z.eqb_eq, negb_true_iff.
  split; (intros [H|H]; [by left|right]).
  - apply Qnot_le_lt. intros Hle. apply Qle_bool_iff in Hle. congruence.
  - destruct (Qle_bool (st_mtime st) (inject_Z (time_updated details))) eqn:E; [|done].
    apply Qle_bool_iff in E. exfalso. by eapply Qlt_not_le.
Qed.

Lemma download_entry_skip env p kd w :
  needs_download p kd w = false →
  download_entry env p kd w = (Ok tt, add_log INFO (MsgSkipping (file_name kd.2)) w).
Proof.
  destruct kd as [k details]. unfold needs_download, download_entry; simpl.
  unfold bind, path_exists, stat, ret.
  destruct (fs w !! destination p k details) as [st|] eqn:E; [|done].
  rewrite ?E. unfold up_to_date.
  destruct (st_size st =? file_size details); simpl; [done|].
  rewrite ?E. by destruct (Qle_bool (st_mtime st) (inject_Z (time_updated details))).
Qed.

Lemma download_entry_fetch env p kd w :
  needs_download p kd w = true →
  download_entry env p kd w =
  _download_file env (file_url kd.2) (destination p kd.1 kd.2)
    (add_log INFO (MsgDownloading (file_name kd.2)) w).
Proof.
  destruct kd as [k details]. unfold needs_download, download_entry; simpl.
  unfold bind, path_exists, stat, ret.
  destruct (fs w !! destination p k details) as [st|] eqn:E; [|done].
  rewrite ?E. unfold up_to_date.
  destruct (st_size st =? file_size details); simpl; [done|].
  rewrite ?E. by destruct (Qle_bool (st_mtime st) (inject_Z (time_updated details))).
Qed.

Lemma snoc_neq {A} (l : list A) x : l ++ [x] ≠ l.
Proof.
  intros H. apply (f_equal length) in H. rewrite length_app in H. simpl in H. lia.
Qed.

Lemma download_loop_cons env p kd rest w :
  download_loop env p (kd :: rest) w =
  match download_entry env p kd w with
  | (Ok _, w') => download_loop env p rest w'
  | (Raise e, w') => (Raise e, w')
  end.
Proof. done. Qed.

(** C1. For an entry of the metadata mapping whose destination exists, the
    loop of [download_collections] skips the download (it logs the skip,
    makes no HTTP call, leaves the directory alone and goes on to the next
    entry) if and only if the size on disk equals [file_size] or the
    modification time on disk is strictly greater than [time_updated];
    either condition alone is enough.  When neither holds, the entry goes
    to [_download_file] with its [file_url] and its destination. *)
Theorem collection_skip_predicate env p k details rest w st :
  fs w !! destination p k details = Some st →
  let skip := st_size st = file_size details
              ∨ (inject_Z (time_updated details) < st_mtime st)%Q in
  (skip → download_entry env p (k, details) w
          = (Ok tt, add_log INFO (MsgSkipping (file_name details)) w)
          ∧ download_loop env p ((k, details) :: rest) w
            = download_loop env p rest (add_log INFO (MsgSkipping (file_name details)) w))
  ∧ (¬ skip → download_entry env p (k, details) w
              = _download_file env (file_url details) (destination p k details)
                  (add_log INFO (MsgDownloading (file_name details)) w))
  ∧ (calls (download_entry env p (k, details) w).2 = calls w ↔ skip)
  ∧ (needs_download p (k, details) w = false ↔ skip).
Proof.
  intros Hst skip.
  assert (Hneeds : needs_download p (k, details) w = negb (up_to_date st details)).
  { unfold needs_download; simpl. by rewrite Hst. }
  assert (Hplan : needs_download p (k, details) w = false ↔ skip).
  { rewrite Hneeds, negb_false_iff. apply up_to_date_iff. }
  assert (Hskip : skip → download_entry env p (k, details) w
                         = (Ok tt, add_log INFO (MsgSkipping (file_name details)) w)).
  { intros Hs. apply (download_entry_skip env p (k, details)). by apply Hplan. }
  assert (Hfetch : ¬ skip → download_entry env p (k, details) w
                     = _download_file env (file_url details) (destination p k details)
                         (add_log INFO (MsgDownloading (file_name details)) w)).
  { intros Hs. apply (download_entry_fetch env p (k, details)).
    destruct (needs_download p (k, details) w); [done|]. exfalso. by apply Hs, Hplan. }
  split_and!; [|done| |done].
  - intros Hs. split; [by apply Hskip|].
    by rewrite download_loop_cons, (Hskip Hs).
  - split.
    + intros Hcalls. destruct (needs_download p (k, details) w) eqn:E; [|by apply Hplan].
      exfalso. rewrite Hfetch in Hcalls.
      2:{ intros Hs. apply Hplan in Hs. congruence. }
      destruct (_download_file env (file_url details) (destination p k details)
                  (add_log INFO (MsgDownloading (file_name details)) w)) as [res w'] eqn:Hd.
      apply _download_file_effects in Hd as (Hc & _). simpl in *.
      rewrite Hc in Hcalls. by apply snoc_neq in Hcalls.
    + intros Hs. by rewrite (Hskip Hs).
Qed.

Lemma collection_skip_predicate_witness :
  download_entry Sample.cdn_ok Sample.addons
    ("42", details_of (Sample.map_vpk "http://cdn/42")) Sample.installed_42
  = (Ok tt, add_log INFO (MsgSkipping "map.vpk") Sample.installed_42).
Proof.
  destruct (collection_skip_predicate Sample.cdn_ok Sample.addons "42"
              (details_of (Sample.map_vpk "http://cdn/42")) [] Sample.installed_42
              (Sample.file_stat 3 0%Q)) as (Hskip & _ & _).
  - vm_compute. reflexivity.
  - apply Hskip. left. reflexivity.
Defined.

(** The scenario of a size match with a remote far newer than the local
    file: 100 bytes on disk, 100 bytes declared, the file is skipped. *)
Example size_match_wins_over_staleness :
  needs_download "/srv/addons"
    ("7", {| file_name := "map1.vpk"; file_size := 100;
             time_updated := 4102444800; file_url := "http://cdn/7" |})
    (Sample.machine [("/srv/addons/7.vpk", Sample.file_stat 100 (inject_Z 1000))])
  = false.
Proof. vm_compute. reflexivity. Qed.


(** A run of the loop changes no path outside its plan. *)
Lemma download_loop_frame env p items w res w' :
  download_loop env p items w = (res, w') →
  ∀ q, q ∉ plan_paths p (download_plan env p items w) → fs w' !! q = fs w !! q.
Proof.
  revert w. induction items as [|kd rest IH]; intros w Hrun q Hq.
  - by injection Hrun as <- <-.
  - rewrite download_loop_cons in Hrun. simpl in Hq. unfold plan_paths in Hq.
    rewrite fmap_app, not_elem_of_app in Hq. destruct Hq as [Hhere Hrest].
    destruct (needs_download p kd w) eqn:Hneeds.
    + rewrite download_entry_fetch in Hrun, Hrest by done.
      destruct (_download_file env _ _ _) as [r1 w1] eqn:Hd.
      apply _download_file_effects in Hd as (_ & _ & Hframe & _).
      assert (Hw1 : fs w1 !! q = fs w !! q).
      { apply Hframe. intros ->. apply Hhere. simpl. apply list_elem_of_here. }
      destruct r1 as [[]|e].
      * rewrite <- Hw1. by eapply IH.
      * by injection Hrun as <- <-.
    + rewrite download_entry_skip in Hrun, Hrest by done.
      by apply (IH _ Hrun).
Qed.





(** C8. When the GET of a planned entry is answered with a 4xx or 5xx
    status, [_download_file] raises [HTTPError] after that single call,
    without touching the directory, and the loop of [download_collections]
    ends there with the same exception: whatever entries follow, no further
    call is made. *)
Theorem transfer_failure_aborts env p k d rest w r :
  needs_download p (k, d) w = true →
  respond env (length (calls w)) (GET (file_url d) true) = Ok r →
  400 ≤ status_code r < 600 →
  let w1 := add_log INFO (MsgDownloading (file_name d)) w in
  _download_file env (file_url d) (destination p k d) w1
  = (Raise (HTTPError (status_code r)), add_call (GET (file_url d) true) w1)
  ∧ download_loop env p ((k, d) :: rest) w
    = (Raise (HTTPError (status_code r)), add_call (GET (file_url d) true) w1).
Proof.
  intros Hneeds Hresp Hstatus w1.
  assert (Hd : _download_file env (file_url d) (destination p k d) w1
               = (Raise (HTTPError (status_code r)), add_call (GET (file_url d) true) w1)).
  { rewrite _download_file_unfold. simpl calls. rewrite Hresp.
    assert (((400 <=? status_code r) && (status_code r <? 600))%bool = true) as ->; [|done].
    apply andb_true_iff. split; [apply Z.leb_le|apply Z.ltb_lt]; lia. }
  split; [done|].
  rewrite download_loop_cons, (download_entry_fetch env p (k, d)) by done.
  simpl. fold w1. by rewrite Hd.
Qed.

Lemma transfer_failure_aborts_witness :
  download_loop Sample.cdn_not_found Sample.addons Sample.two_files Sample.fresh_install
  = (Raise (HTTPError 404),
     add_call (GET "http://cdn/42" true)
       (add_log INFO (MsgDownloading "map.vpk") Sample.fresh_install)).
Proof.
  refine (proj2 (transfer_failure_aborts Sample.cdn_not_found Sample.addons "42"
                   (details_of (Sample.map_vpk "http://cdn/42"))
                   [("43", details_of Sample.skin_vpk)] Sample.fresh_install
                   (Sample.reply 404 [] None) _ _ _)).
  - vm_compute. reflexivity.
  - reflexivity.
  - simpl. lia.
Defined.

(** A status outside 2xx that is no error status: [_download_file] does
    not raise on 304, it writes the (empty) body, and the loop goes on to
    the next entry. *)
Lemma not_modified_is_not_raised :
  respond Sample.cdn_not_modified 0 (GET "http://cdn/42" true)
  = Ok (Sample.reply 304 [] None)
  ∧ ¬ (200 ≤ status_code (Sample.reply 304 [] None) < 300)
  ∧ (_download_file Sample.cdn_not_modified "http://cdn/42" "/srv/addons/42.vpk"
       Sample.fresh_install).1 = Ok tt
  ∧ (download_loop Sample.cdn_not_modified Sample.addons Sample.two_files
       Sample.fresh_install).1 = Ok tt
  ∧ calls (download_loop Sample.cdn_not_modified Sample.addons Sample.two_files
             Sample.fresh_install).2
    = [GET "http://cdn/42" true; GET "http://cdn/43" true].
Proof.
  split_and!; [reflexivity | simpl; lia | vm_compute; reflexivity ..].
Qed.

(** ** The metadata calls: the retry loop, lines 212 to 221 and 250 to 259 *)

(** Case analysis on what [resp.json()] gives for the answer [r] *)
Ltac payload_cases r :=
  unfold json in *; destruct (parsed r) as [[?cds|?pfd]|].

(** Whatever the remote answers, the retry loop repeats one and the same
    request, at most [n] times, and at least once when [n] is not zero. *)
Lemma post_until_ok_calls env n url data secs last w res w' :
  post_until_ok env n url data secs last w = (res, w') →
  ∃ m, (m ≤ n)%nat ∧ ((0 < n)%nat → (0 < m)%nat)
       ∧ calls w' = calls w ++ repeat (POST url data) m
       ∧ fs w' = fs w ∧ logged w' = logged w.
Proof.
  revert last w. induction n as [|n IH]; intros last w; simpl.
  - intros [= <- <-]. exists O. simpl. rewrite app_nil_r. split_and!; [lia|lia|done..].
  - unfold bind, requests_post, requests_call.
    destruct (respond env (length (calls w)) (POST url data)) as [r|e].
    2:{ intros [= <- <-]. exists 1%nat. split_and!; [lia|lia|done..]. }
    destruct (status_code r =? 200).
    { intros [= <- <-]. exists 1%nat. split_and!; [lia|lia|done..]. }
    unfold sleep. destruct (secs <? 0).
    { intros [= <- <-]. exists 1%nat. split_and!; [lia|lia|done..]. }
    intros Hrec. apply IH in Hrec as (m & Hm & _ & Hc & Hf & Hl).
    exists (S m). split_and!; [lia|lia| |done..].
    rewrite Hc. simpl. by rewrite <- app_assoc.
Qed.


(** The loop when the first answer is a success: one request, no sleep. *)
Lemma post_until_ok_first env n url data secs last w r :
  respond env (length (calls w)) (POST url data) = Ok r →
  status_code r = 200 →
  post_until_ok env (S n) url data secs last w = (Ok (Some r), add_call (POST url data) w).
Proof.
  intros Hr Hs. simpl. unfold bind, requests_post, requests_call.
  rewrite Hr, Hs. done.
Qed.

(** The answer the loop leaves in [resp] is one the remote gave. *)
Lemma post_until_ok_answer env n url data secs last w r w' :
  post_until_ok env n url data secs last w = (Ok (Some r), w') →
  last = Some r ∨ ∃ i, respond env i (POST url data) = Ok r.
Proof.
  revert last w. induction n as [|n IH]; intros last w; simpl.
  - intros [= -> <-]. by left.
  - unfold bind, requests_post, requests_call.
    destruct (respond env (length (calls w)) (POST url data)) as [r0|e] eqn:Hr0; [|done].
    destruct (status_code r0 =? 200).
    { intros [= <- <-]. right. by eexists. }
    unfold sleep. destruct (secs <? 0); [done|].
    intros Hrec. apply IH in Hrec as [[= <-]|Hrec]; [|by right].
    right. by eexists.
Qed.

Lemma _get_collection_file_ids_first_ok env ids retries secs w r :
  1 ≤ retries →
  respond env (length (calls w)) (POST get_collection_url (collection_data ids)) = Ok r →
  status_code r = 200 →
  _get_collection_file_ids env ids retries secs w
  = (match parsed r with
     | Some (CollectionDetails cds) => Ok (collect_file_ids cds)
     | Some (PublishedFileDetails _) => Raise (KeyError "collectiondetails")
     | None => Raise JSONDecodeError
     end, add_call (POST get_collection_url (collection_data ids)) w).
Proof.
  intros Hr Hresp Hs.
  assert (Hn : ∃ m, Z.to_nat retries = S m) by (exists (Nat.pred (Z.to_nat retries)); lia).
  destruct Hn as [m Hm].
  unfold _get_collection_file_ids, bind. rewrite Hm.
  rewrite (post_until_ok_first _ _ _ _ _ _ _ r) by done.
  rewrite Hs. simpl. payload_cases r; done.
Qed.

Lemma _get_steam_file_info_first_ok env ids retries secs w r :
  1 ≤ retries →
  respond env (length (calls w)) (POST get_file_details_url (file_info_data ids)) = Ok r →
  status_code r = 200 →
  _get_steam_file_info env ids retries secs w
  = (match parsed r with
     | Some (PublishedFileDetails pfd) => Ok (collect_file_info pfd)
     | Some (CollectionDetails _) => Raise (KeyError "publishedfiledetails")
     | None => Raise JSONDecodeError
     end, add_call (POST get_file_details_url (file_info_data ids)) w).
Proof.
  intros Hr Hresp Hs.
  assert (Hn : ∃ m, Z.to_nat retries = S m) by (exists (Nat.pred (Z.to_nat retries)); lia).
  destruct Hn as [m Hm].
  unfold _get_steam_file_info, bind. rewrite Hm.
  rewrite (post_until_ok_first _ _ _ _ _ _ _ r) by done.
  rewrite Hs. simpl. payload_cases r; done.
Qed.

(** What the two methods return, they computed from an answer of the
    remote with status 200. *)
Lemma _get_collection_file_ids_returns env ids retries secs w result w' :
  _get_collection_file_ids env ids retries secs w = (Ok result, w') →
  ∃ i r cds, respond env i (POST get_collection_url (collection_data ids)) = Ok r
             ∧ status_code r = 200
             ∧ parsed r = Some (CollectionDetails cds)
             ∧ result = collect_file_ids cds.
Proof.
  unfold _get_collection_file_ids, bind.
  destruct (post_until_ok env (Z.to_nat retries) get_collection_url
              (collection_data ids) secs None w) as [[[r|]|e] w1] eqn:Hrun; [|done|done].
  apply post_until_ok_answer in Hrun as [|[i Hi]]; [done|].
  destruct (status_code r =? 200) eqn:Hs; simpl; [|done].
  apply Z.eqb_eq in Hs. unfold json.
  destruct (parsed r) as [[cds|pfd]|] eqn:Hp; simpl; [|done|done].
  intros [= <- <-]. by exists i, r, cds.
Qed.

Lemma _get_steam_file_info_returns env ids retries secs w result w' :
  _get_steam_file_info env ids retries secs w = (Ok result, w') →
  ∃ i r pfd, respond env i (POST get_file_details_url (file_info_data ids)) = Ok r
             ∧ status_code r = 200
             ∧ parsed r = Some (PublishedFileDetails pfd)
             ∧ result = collect_file_info pfd.
Proof.
  unfold _get_steam_file_info, bind.
  destruct (post_until_ok env (Z.to_nat retries) get_file_details_url
              (file_info_data ids) secs None w) as [[[r|]|e] w1] eqn:Hrun; [|done|done].
  apply post_until_ok_answer in Hrun as [|[i Hi]]; [done|].
  destruct (status_code r =? 200) eqn:Hs; simpl; [|done].
  apply Z.eqb_eq in Hs. unfold json.
  destruct (parsed r) as [[cds|pfd]|] eqn:Hp; simpl; [done| |done].
  intros [= <- <-]. by exists i, r, pfd.
Qed.

Lemma _get_collection_file_ids_calls env ids retries secs w res w' :
  _get_collection_file_ids env ids retries secs w = (res, w') →
  ∃ m, (0 < retries → (1 ≤ m)%nat)
       ∧ calls w' = calls w ++ repeat (POST get_collection_url (collection_data ids)) m
       ∧ fs w' = fs w.
Proof.
  unfold _get_collection_file_ids, bind.
  destruct (post_until_ok env (Z.to_nat retries) get_collection_url
              (collection_data ids) secs None w) as [r1 w1] eqn:Hrun.
  apply post_until_ok_calls in Hrun as (m & _ & Hpos & Hc & Hf & _).
  intros Hres. exists m. split; [lia|].
  assert (w' = w1) as ->; [|done].
  destruct r1 as [[resp|]|e]; simpl in Hres; try by injection Hres.
  destruct (negb (status_code resp =? 200)); simpl in Hres; [by injection Hres|].
  payload_cases resp; by injection Hres.
Qed.




(** With a retry budget of zero the loop body never runs: no request is
    made, and [resp] is unbound when the status is looked at. *)
Example zero_retries_unbound :
  _get_collection_file_ids (Sample.unavailable 503 Sample.three_bytes) ["7"] 0
    default_retry_seconds Sample.fresh_install
  = (Raise (UnboundLocalError "resp"), Sample.fresh_install)
  ∧ _get_steam_file_info (Sample.unavailable 503 Sample.three_bytes) ["42"] 0
      default_retry_seconds Sample.fresh_install
    = (Raise (UnboundLocalError "resp"), Sample.fresh_install).
Proof. split; reflexivity. Qed.

(** C2. The list [_get_collection_file_ids] returns is the one its two
    loops build from the children lists of the expansion response, whatever
    collections were asked for; it is returned whenever the remote answers
    with status 200 and such a payload.  That list holds every file
    identifier of the children lists, each exactly once, in the order of
    their first occurrences: of two identifiers of the result, the one at
    the smaller position is the one first met earlier while iterating the
    collections' children. *)
Theorem collection_file_ids_dedup env collection_ids retries retry_seconds w :
  let post := POST get_collection_url (collection_data collection_ids) in
  (∀ cds,
     let result := collect_file_ids cds in
     NoDup result
     ∧ (∀ x, x ∈ result ↔ x ∈ child_ids cds)
     ∧ (∀ i j x y, result !! i = Some x → result !! j = Some y → (i < j)%nat →
          ∃ a b, first_index x (child_ids cds) = Some a
                 ∧ first_index y (child_ids cds) = Some b
                 ∧ (a < b)%nat))
  ∧ (∀ result w',
       _get_collection_file_ids env collection_ids retries retry_seconds w = (Ok result, w') →
       ∃ i r cds, respond env i post = Ok r
                  ∧ status_code r = 200
                  ∧ parsed r = Some (CollectionDetails cds)
                  ∧ result = collect_file_ids cds)
  ∧ (∀ r cds,
       1 ≤ retries →
       respond env (length (calls w)) post = Ok r →
       status_code r = 200 →
       parsed r = Some (CollectionDetails cds) →
       _get_collection_file_ids env collection_ids retries retry_seconds w
       = (Ok (collect_file_ids cds), add_call post w)).
Proof.
  intros post. split_and!.
  - intros cds. apply collect_file_ids_facts.
  - intros result w'. apply _get_collection_file_ids_returns.
  - intros r cds Hr Hresp Hs Hp.
    rewrite (_get_collection_file_ids_first_ok env collection_ids retries retry_seconds w r)
      by done.
    by rewrite Hp.
Qed.

(** Collections [A] and [B] both hold the file [42]: it is listed once. *)
Example shared_member_listed_once :
  collect_file_ids
    [ {| children := [ {| child_publishedfileid := "42" |};
                       {| child_publishedfileid := "7" |} ] |};
      {| children := [ {| child_publishedfileid := "42" |};
                       {| child_publishedfileid := "9" |};
                       {| child_publishedfileid := "7" |} ] |} ]
  = ["42"; "7"; "9"].
Proof. reflexivity. Qed.

(** C6. The dictionary [_get_steam_file_info] returns is the one its loop
    builds from the entries of the file-details response, and it is
    returned whenever the remote answers with status 200 and such a
    payload: the loop raises on none.  In that dictionary every identifier
    of the response is a key once, and its value is made of the four
    fields of the first entry that carries it; the later entries with the
    same identifier leave no trace, and an identifier the response does
    not carry is no key. *)
Theorem file_info_first_wins env file_ids retries retry_seconds w :
  let post := POST get_file_details_url (file_info_data file_ids) in
  (∀ pfd,
     let result := collect_file_info pfd in
     NoDup (PyDict.keys result)
     ∧ ∀ k, PyDict.get result k = details_of <$> first_entry k pfd)
  ∧ (∀ result w',
       _get_steam_file_info env file_ids retries retry_seconds w = (Ok result, w') →
       ∃ i r pfd, respond env i post = Ok r
                  ∧ status_code r = 200
                  ∧ parsed r = Some (PublishedFileDetails pfd)
                  ∧ result = collect_file_info pfd)
  ∧ (∀ r pfd,
       1 ≤ retries →
       respond env (length (calls w)) post = Ok r →
       status_code r = 200 →
       parsed r = Some (PublishedFileDetails pfd) →
       _get_steam_file_info env file_ids retries retry_seconds w
       = (Ok (collect_file_info pfd), add_call post w)).
Proof.
  intros post. split_and!.
  - intros pfd. apply file_info_lookup.
  - intros result w'. apply _get_steam_file_info_returns.
  - intros r pfd Hr Hresp Hs Hp.
    rewrite (_get_steam_file_info_first_ok env file_ids retries retry_seconds w r) by done.
    by rewrite Hp.
Qed.

(** The same file sent twice, with different sizes and URLs: the first
    entry is the one kept. *)
Example duplicate_entry_dropped :
  collect_file_info
    [ Sample.map_vpk "http://cdn/42";
      {| publishedfileid := "42"; filename := "other.vpk"; pf_file_size := 9;
         pf_time_updated := 200; pf_file_url := "http://cdn/other" |} ]
  = [("42", details_of (Sample.map_vpk "http://cdn/42"))].
Proof. reflexivity. Qed.

(** C10. For an empty list of collections the form is the single field
    [collectioncount = "0"], with no [publishedfileids] entry, and
    [_get_collection_file_ids] posts it all the same: called as
    [download_collections] calls it, and with any retry budget of at least
    one, it makes at least one call, and every call it makes is that
    request. *)
Theorem empty_collection_ids_still_posts env w :
  let post := POST get_collection_url [("collectioncount", FStr "0")] in
  collection_data [] = [("collectioncount", FStr "0")]
  ∧ (∃ m, (1 ≤ m)%nat
          ∧ calls (_get_collection_file_ids env [] default_retries
                     default_retry_seconds w).2
            = calls w ++ repeat post m)
  ∧ (∀ retries retry_seconds, 0 < retries →
       ∃ m, (1 ≤ m)%nat
            ∧ calls (_get_collection_file_ids env [] retries retry_seconds w).2
              = calls w ++ repeat post m).
Proof.
  intros post.
  assert (Hany : ∀ retries retry_seconds, 0 < retries →
            ∃ m, (1 ≤ m)%nat
                 ∧ calls (_get_collection_file_ids env [] retries retry_seconds w).2
                   = calls w ++ repeat post m).
  { intros retries secs Hr.
    destruct (_get_collection_file_ids env [] retries secs w) as [res w'] eqn:Hrun.
    apply _get_collection_file_ids_calls in Hrun as (m & Hm & Hc & _).
    exists m. split; [by apply Hm|]. exact Hc. }
  split_and!; [reflexivity | | done].
  apply Hany. unfold default_retries. lia.
Qed.

(** With a retry budget of zero no request is made at all. *)
Example zero_retries_no_call :
  calls (_get_collection_file_ids Sample.cdn_ok [] 0 default_retry_seconds
           Sample.fresh_install).2 = [].
Proof. reflexivity. Qed.

(** ** [download_collections] as a whole *)

Lemma _get_steam_file_info_calls env ids retries secs w res w' :
  _get_steam_file_info env ids retries secs w = (res, w') →
  ∃ l, calls w' = calls w ++ l.
Proof.
  unfold _get_steam_file_info, bind.
  destruct (post_until_ok env (Z.to_nat retries) get_file_details_url
              (file_info_data ids) secs None w) as [r1 w1] eqn:Hrun.
  apply post_until_ok_calls in Hrun as (m & _ & _ & Hc & _).
  intros Hres. eexists.
  assert (w' = w1) as ->; [|done].
  destruct r1 as [[resp|]|e]; simpl in Hres; try by injection Hres.
  destruct (negb (status_code resp =? 200)); simpl in Hres; [by injection Hres|].
  payload_cases resp; by injection Hres.
Qed.

Lemma download_loop_calls env p items w res w' :
  download_loop env p items w = (res, w') → ∃ l, calls w' = calls w ++ l.
Proof.
  revert w. induction items as [|kd rest IH]; intros w.
  - intros [= <- <-]. exists []. by rewrite app_nil_r.
  - rewrite download_loop_cons.
    destruct (download_entry env p kd w) as [r1 w1] eqn:He.
    assert (Hw1 : ∃ l, calls w1 = calls w ++ l).
    { destruct (needs_download p kd w) eqn:Hn.
      - rewrite download_entry_fetch in He by done.
        apply _download_file_effects in He as (Hc & _). by eexists.
      - rewrite download_entry_skip in He by done. injection He as <- <-.
        exists []. simpl. by rewrite app_nil_r. }
    destruct Hw1 as [l1 Hl1].
    destruct r1 as [[]|e].
    + intros Hrest. apply IH in Hrest as [l2 Hl2].
      exists (l1 ++ l2). by rewrite Hl2, Hl1, app_assoc.
    + intros [= <- <-]. by eexists.
Qed.

(** Resolution comes first: the first call of lines 160 to 183 is the
    expansion request. *)
Lemma resolve_and_download_starts env ids p w :
  ∃ rest, calls (resolve_and_download env ids p w).2
          = calls w ++ POST get_collection_url (collection_data ids) :: rest.
Proof.
  unfold resolve_and_download, bind.
  destruct (_get_collection_file_ids env ids default_retries default_retry_seconds w)
    as [r1 w1] eqn:H1.
  apply _get_collection_file_ids_calls in H1 as (m & Hm & Hc1 & _).
  destruct m as [|m]; [unfold default_retries in Hm; lia|].
  assert (Hgrow : ∀ (res : result unit) w', (∃ l, calls w' = calls w1 ++ l) →
            ∃ rest, calls (res, w').2
                    = calls w ++ POST get_collection_url (collection_data ids) :: rest).
  { intros res w' [l Hl]. simpl. rewrite Hl, Hc1. simpl.
    rewrite <- app_assoc. simpl. by eexists. }
  destruct r1 as [file_ids|e]; [|apply Hgrow; exists []; by rewrite app_nil_r].
  unfold LOG at 1.
  destruct (_get_steam_file_info env file_ids default_retries default_retry_seconds
              (add_log DEBUG (MsgFileIds file_ids) w1)) as [r2 w2] eqn:H2.
  apply _get_steam_file_info_calls in H2 as [l2 Hl2]. simpl in Hl2.
  destruct r2 as [file_details|e]; [|apply Hgrow; by eexists].
  unfold LOG at 1.
  destruct (download_loop env p file_details
              (add_log DEBUG (MsgFileDetails file_details) w2)) as [r3 w3] eqn:H3.
  apply download_loop_calls in H3 as [l3 Hl3]. simpl in Hl3.
  apply Hgrow. exists (l2 ++ l3). by rewrite Hl3, Hl2, app_assoc.
Qed.

(** C9, as it holds.  The install path is taken as a [Path]: [dir] below
    is the directory it names, whatever slashes or [.] components the
    string carries and whether or not it is relative.  When [dir] exists
    and is not a directory, [download_collections] logs the fact at that
    check, raises nothing there, and goes on with resolution, metadata and
    the download loop.  When [dir] does not exist, [mkdir] is called on it:
    the directory is created when its parent is a directory, and the run
    goes on; otherwise [mkdir] raises, nothing is created and nothing else
    is done.  In the cases where the run goes on, its first call is the
    expansion request. *)
Theorem install_path_check env ids p w :
  let dir := absolute (cwd env) p in
  (∀ st, fs w !! dir = Some st → st_kind st = RegularFile →
     download_collections env ids (Some p) w
     = resolve_and_download env ids dir (add_log ERROR (MsgNotADirectory dir) w))
  ∧ (fs w !! dir = None → check_parent dir w = Ok tt →
     download_collections env ids (Some p) w
     = resolve_and_download env ids dir
         (set_fs (<[dir := {| st_kind := Directory; st_size := new_dir_size env;
                              st_mtime := now env w |}]> (fs w)) w))
  ∧ (∀ e, fs w !! dir = None → check_parent dir w = Raise e →
     download_collections env ids (Some p) w = (Raise e, w))
  ∧ (∀ w0, ∃ rest, calls (resolve_and_download env ids dir w0).2
                   = calls w0 ++ POST get_collection_url (collection_data ids) :: rest).
Proof.
  intros dir. split_and!.
  - intros st Hst Hkind.
    unfold download_collections, Path, bind, ret, path_exists, is_dir, kind_at, LOG.
    fold dir. rewrite Hst. cbv beta iota. rewrite Hst, Hkind. done.
  - intros Hnone Hparent.
    unfold download_collections, Path, bind, ret, path_exists.
    fold dir. rewrite Hnone. unfold mkdir. rewrite Hnone, Hparent. done.
  - intros e Hnone Hparent.
    unfold download_collections, Path, bind, ret, path_exists.
    fold dir. rewrite Hnone. unfold mkdir. rewrite Hnone, Hparent. done.
  - intros w0. apply resolve_and_download_starts.
Qed.

Lemma install_path_check_witness :
  download_collections Sample.cdn_ok ["7"] (Some Sample.addons) Sample.addons_is_a_file
  = resolve_and_download Sample.cdn_ok ["7"] Sample.addons
      (add_log ERROR (MsgNotADirectory Sample.addons) Sample.addons_is_a_file)
  ∧ download_collections Sample.cdn_ok ["7"] (Some "/srv/addons/") Sample.no_addons
    = resolve_and_download Sample.cdn_ok ["7"] Sample.addons
        (set_fs (<[Sample.addons := {| st_kind := Directory; st_size := 4096;
                                       st_mtime := now Sample.cdn_ok Sample.no_addons |}]>
                   (fs Sample.no_addons)) Sample.no_addons).
Proof.
  destruct (install_path_check Sample.cdn_ok ["7"] Sample.addons Sample.addons_is_a_file)
    as (Hfile & _).
  destruct (install_path_check Sample.cdn_ok ["7"] "/srv/addons/" Sample.no_addons)
    as (_ & Hmk & _).
  split.
  - apply (Hfile (Sample.file_stat 10 0%Q)); [vm_compute; reflexivity | reflexivity].
  - apply Hmk; vm_compute; reflexivity.
Defined.

(** The install path as a string: a trailing slash, a doubled slash or a
    [.] component changes nothing, and a relative path is taken from the
    working directory (here [/home/steam]). *)
Example install_path_spellings :
  let created (install_path : string) (w : world) :=
    st_kind <$> fs (download_collections Sample.cdn_ok ["7"] (Some install_path) w).2
                !! absolute "/home/steam" install_path in
  absolute "/home/steam" "/srv//addons/./" = "/srv/addons"
  ∧ created "/srv//addons/./" Sample.no_addons = Some Directory
  ∧ absolute "/home/steam" "addons" = "/home/steam/addons"
  ∧ created "addons" (Sample.machine [("/home", Sample.dir_stat);
                                      ("/home/steam", Sample.dir_stat)])
    = Some Directory.
Proof. split_and!; vm_compute; reflexivity. Qed.

(** The install path does not exist and its parent does not either:
    [mkdir] raises [FileNotFoundError], no directory is created, and the
    run ends before any call. *)
Lemma missing_parent_not_created :
  fs Sample.no_parent !! Sample.addons = None
  ∧ download_collections Sample.cdn_ok ["7"] (Some Sample.addons) Sample.no_parent
    = (Raise (FileNotFoundError Sample.addons), Sample.no_parent).
Proof. split; vm_compute; reflexivity. Qed.

(** ** The plan and the download URLs *)

Lemma download_plan_subset env p items w kd :
  kd ∈ download_plan env p items w → kd ∈ items.
Proof.
  revert w. induction items as [|e rest IH]; intros w; simpl; [done|].
  rewrite elem_of_app. intros [Hhere|Hrest].
  - destruct (needs_download p e w); [|by apply elem_of_nil in Hhere].
    apply list_elem_of_singleton in Hhere as ->. apply list_elem_of_here.
  - apply list_elem_of_further.
    destruct (download_entry env p e w) as [[[]|err] w1]; [by eapply IH|].
    by apply elem_of_nil in Hrest.
Qed.

Lemma first_entry_elem k pfd fd : first_entry k pfd = Some fd → fd ∈ pfd.
Proof.
  unfold first_entry. intros H. apply find_some in H as [H _].
  by apply list_elem_of_In.
Qed.

(** The requests of a run of the loop are the downloads of its plan. *)
Lemma download_loop_requests env p items w :
  calls (download_loop env p items w).2
  = calls w ++ ((fun kd => GET (file_url kd.2) true) <$> download_plan env p items w).
Proof.
  revert w. induction items as [|kd rest IH]; intros w.
  - simpl. by rewrite app_nil_r.
  - rewrite download_loop_cons. simpl download_plan.
    destruct (needs_download p kd w) eqn:Hn.
    + rewrite download_entry_fetch by done.
      destruct (_download_file env _ _ _) as [r1 w1] eqn:Hd.
      apply _download_file_effects in Hd as (Hc & _). simpl in Hc.
      destruct r1 as [[]|e].
      * rewrite IH, Hc. simpl. by rewrite <- app_assoc.
      * simpl. by rewrite Hc.
    + rewrite download_entry_skip by done. rewrite IH. done.
Qed.

Lemma planned_entry_is_first_entry env p w publishedfiledetails k d :
  (k, d) ∈ download_plan env p (collect_file_info publishedfiledetails) w →
  ∃ fd, first_entry k publishedfiledetails = Some fd ∧ d = details_of fd.
Proof.
  intros Hplan. apply download_plan_subset in Hplan.
  destruct (file_info_lookup publishedfiledetails) as [Hnd Hget].
  apply PyDictFacts.elem_get in Hplan; [|done].
  rewrite Hget in Hplan.
  destruct (first_entry k publishedfiledetails) as [fd|] eqn:Hfirst; [|done].
  injection Hplan as <-. by exists fd.
Qed.

(** C5, as it holds.  For every file-details response, the requests that
    the loop of [download_collections] has [_download_file] make are
    exactly the GETs of the [file_url] of the entries it plans, in order;
    every planned entry has its metadata in the mapping, and this metadata
    is that of the first response entry with its identifier, taken as it
    comes.  So every URL passed on is non-empty whenever no entry of the
    response has an empty [file_url]; nothing in the code checks it. *)
Theorem fetched_urls_are_the_remote_ones env p w publishedfiledetails :
  let items := collect_file_info publishedfiledetails in
  let plan := download_plan env p items w in
  let after := (download_loop env p items w).2 in
  calls after = calls w ++ ((fun kd => GET (file_url kd.2) true) <$> plan)
  ∧ (∀ k d, (k, d) ∈ plan →
       PyDict.get items k = Some d
       ∧ ∃ fd, first_entry k publishedfiledetails = Some fd
               ∧ d = details_of fd ∧ file_url d = pf_file_url fd)
  ∧ (Forall (fun fd => pf_file_url fd ≠ "") publishedfiledetails →
     ∀ req, req ∈ drop (length (calls w)) (calls after) →
            ∃ url, req = GET url true ∧ url ≠ "").
Proof.
  intros items plan after.
  assert (Hcalls : calls after
                   = calls w ++ ((fun kd => GET (file_url kd.2) true) <$> plan))
    by apply download_loop_requests.
  split_and!.
  - exact Hcalls.
  - intros k d Hplan. split.
    + apply PyDictFacts.elem_get; [apply file_info_lookup|].
      by apply download_plan_subset in Hplan.
    + destruct (planned_entry_is_first_entry _ _ _ _ _ _ Hplan) as (fd & Hfirst & ->).
      by exists fd.
  - intros Hall req Hreq. rewrite Hcalls, drop_app_length in Hreq.
    apply list_elem_of_fmap in Hreq as ([k d] & -> & Hplan).
    destruct (planned_entry_is_first_entry _ _ _ _ _ _ Hplan) as (fd & Hfirst & ->).
    exists (pf_file_url fd). split; [done|].
    rewrite Forall_forall in Hall. apply Hall. by eapply first_entry_elem.
Qed.

Lemma fetched_urls_are_the_remote_ones_witness :
  calls (download_loop Sample.cdn_ok Sample.addons
           (collect_file_info [Sample.map_vpk "http://cdn/42"]) Sample.fresh_install).2
  = [GET "http://cdn/42" true].
Proof.
  destruct (fetched_urls_are_the_remote_ones Sample.cdn_ok Sample.addons
              Sample.fresh_install [Sample.map_vpk "http://cdn/42"]) as (Hcalls & _).
  exact Hcalls.
Defined.

(** The remote sends the file [42] with an empty [file_url]: the entry is
    planned all the same, and [download_collections] hands the empty URL to
    [_download_file], which requests it. *)
Lemma empty_url_is_planned :
  download_plan Sample.cdn_no_url Sample.addons
    (collect_file_info [Sample.map_vpk ""]) Sample.fresh_install
  = [("42", details_of (Sample.map_vpk ""))]
  ∧ file_url (details_of (Sample.map_vpk "")) = ""
  ∧ calls (download_collections Sample.cdn_no_url ["7"] (Some Sample.addons)
             Sample.fresh_install).2
    = [POST get_collection_url (collection_data ["7"]);
       POST get_file_details_url (file_info_data ["42"]);
       GET "" true].
Proof. split_and!; vm_compute; reflexivity. Qed.

(** ** The add-on update check: [_allied_mods_download] *)





(** * Further properties of the pipeline *)

(** ** [_download_file]: what a transfer leaves on disk *)

Lemma open_wb_ok env p w :
  (∀ st, fs w !! p = Some st → st_kind st = RegularFile) →
  (fs w !! p = None → check_parent p w = Ok tt) →
  open_wb env p w = (Ok tt, set_fs (<[p := empty_file env w]> (fs w)) w).
Proof.
  intros Hfile Hparent. unfold open_wb.
  destruct (fs w !! p) as [st|] eqn:E.
  - by rewrite (Hfile st eq_refl).
  - by rewrite (Hparent eq_refl).
Qed.

(** When the GET is answered with a status that is no error status and the
    destination can be opened (a regular file, or a free name in an
    existing directory), [_download_file] returns after that one call, and
    the destination is a regular file whose size is the length of the
    body, whatever was there before; no other path changes. *)
Theorem download_file_writes_body env url p w r :
  respond env (length (calls w)) (GET url true) = Ok r →
  ¬ (400 ≤ status_code r < 600) →
  (∀ st, fs w !! p = Some st → st_kind st = RegularFile) →
  (fs w !! p = None → check_parent p w = Ok tt) →
  ∃ w', _download_file env url p w = (Ok tt, w')
        ∧ calls w' = calls w ++ [GET url true]
        ∧ fs w' = <[p := {| st_kind := RegularFile;
                            st_size := Z.of_nat (length (content r));
                            st_mtime := now env (add_call (GET url true) w) |}]> (fs w)
        ∧ slept w' = slept w ∧ logged w' = logged w.
Proof.
  intros Hresp Hstatus Hfile Hparent.
  rewrite _download_file_unfold, Hresp.
  assert (((400 <=? status_code r) && (status_code r <? 600))%bool = false) as ->.
  { apply andb_false_iff.
    destruct (Z.leb_spec 400 (status_code r)); [right|by left].
    apply Z.ltb_ge. lia. }
  rewrite open_wb_ok by done.
  erewrite write_chunks_spec by (simpl; apply lookup_insert_eq).
  eexists. split; [done|]. simpl. split_and!; try done.
  rewrite insert_insert_eq. f_equal.
  pose proof (iter_content_concat r CHUNK_SIZE CHUNK_SIZE_pos) as Hcat.
  destruct (iter_content r CHUNK_SIZE) as [|c cs].
  - simpl in Hcat. rewrite <- Hcat. done.
  - rewrite Hcat. unfold empty_file, now. simpl. f_equal.
Qed.

Lemma download_file_writes_body_witness :
  ∃ w', _download_file Sample.cdn_ok "http://cdn/42" "/srv/addons/42.vpk"
          Sample.installed_42 = (Ok tt, w')
        ∧ calls w' = calls Sample.installed_42 ++ [GET "http://cdn/42" true]
        ∧ fs w' = <["/srv/addons/42.vpk" :=
                      {| st_kind := RegularFile;
                         st_size := Z.of_nat (length (content (Sample.reply 200 Sample.three_bytes None)));
                         st_mtime := now Sample.cdn_ok
                                       (add_call (GET "http://cdn/42" true) Sample.installed_42) |}]>
                    (fs Sample.installed_42)
        ∧ slept w' = slept Sample.installed_42 ∧ logged w' = logged Sample.installed_42.
Proof.
  apply (download_file_writes_body Sample.cdn_ok "http://cdn/42" "/srv/addons/42.vpk"
           Sample.installed_42 (Sample.reply 200 Sample.three_bytes None)).
  - reflexivity.
  - simpl. lia.
  - intros st Hst. vm_compute in Hst. by injection Hst as <-.
  - intros Hnone. vm_compute in Hnone. discriminate Hnone.
Defined.

(** The destination is opened only after the GET has been made and its
    status checked.  When [requests.get] itself raises, the exception
    comes out after that one call; when the destination cannot be opened
    (it is a directory, or its parent is missing), the exception of [open]
    comes out after the GET has been spent.  In both cases the file system
    is left as it was. *)
Theorem download_file_failure_modes env url p w :
  (∀ e, respond env (length (calls w)) (GET url true) = Raise e →
     _download_file env url p w = (Raise e, add_call (GET url true) w))
  ∧ (∀ r st, respond env (length (calls w)) (GET url true) = Ok r →
       ¬ (400 ≤ status_code r < 600) →
       fs w !! p = Some st → st_kind st = Directory →
       _download_file env url p w = (Raise (IsADirectoryError p), add_call (GET url true) w))
  ∧ (∀ r e, respond env (length (calls w)) (GET url true) = Ok r →
       ¬ (400 ≤ status_code r < 600) →
       fs w !! p = None → check_parent p w = Raise e →
       _download_file env url p w = (Raise e, add_call (GET url true) w)).
Proof.
  assert (Hst : ∀ r, ¬ (400 ≤ status_code r < 600) →
            ((400 <=? status_code r) && (status_code r <? 600))%bool = false).
  { intros r Hs. apply andb_false_iff.
    destruct (Z.leb_spec 400 (status_code r)); [right|by left].
    apply Z.ltb_ge. lia. }
  split_and!.
  - intros e Hresp. by rewrite _download_file_unfold, Hresp.
  - intros r st Hresp Hs Hp Hkind.
    rewrite _download_file_unfold, Hresp, (Hst r Hs).
    unfold open_wb. simpl fs. change (fs (add_call (GET url true) w)) with (fs w).
    by rewrite Hp, Hkind.
  - intros r e Hresp Hs Hp Hparent.
    rewrite _download_file_unfold, Hresp, (Hst r Hs).
    unfold open_wb. change (fs (add_call (GET url true) w)) with (fs w).
    rewrite Hp.
    change (check_parent p (add_call (GET url true) w)) with (check_parent p w).
    by rewrite Hparent.
Qed.

(** ** [iter_content]: the chunks written *)

Lemma iter_content_loop_chunks fuel n (body : list byte) :
  (0 < n)%nat → (length body ≤ fuel)%nat →
  ∀ i c, iter_content_loop fuel n body !! i = Some c →
    (0 < length c ≤ n)%nat
    ∧ ((S i < length (iter_content_loop fuel n body))%nat → length c = n).
Proof.
  intros Hn. revert body. induction fuel as [|fuel IH]; intros body Hlen i c; simpl.
  - done.
  - destruct body as [|b body]; [done|].
    destruct i as [|i]; simpl.
    + intros [= <-]. rewrite length_take. simpl length. split; [lia|].
      intros Hmore.
      destruct (decide (n ≤ S (length body))%nat) as [|Hshort]; [lia|].
      exfalso.
      assert (drop n (b :: body) = []) as Hnil by (apply drop_ge; simpl; lia).
      rewrite Hnil in Hmore. destruct fuel; simpl in Hmore; lia.
    + intros Hc. apply IH in Hc.
      * destruct Hc as [Hb Hfull]. split; [done|]. intros Hmore. apply Hfull. lia.
      * rewrite length_drop. simpl in *. lia.
Qed.

(** The body is written in order and in full, in chunks of at most 8192
    bytes, none of them empty, and all of them full except possibly the
    last. *)
Theorem chunks_cover_the_body (r : response) :
  Z.of_nat CHUNK_SIZE = 8192
  ∧ concat (iter_content r CHUNK_SIZE) = content r
  ∧ ∀ i c, iter_content r CHUNK_SIZE !! i = Some c →
      (0 < length c ≤ CHUNK_SIZE)%nat
      ∧ ((S i < length (iter_content r CHUNK_SIZE))%nat → length c = CHUNK_SIZE).
Proof.
  split_and!.
  - unfold CHUNK_SIZE. lia.
  - apply iter_content_concat, CHUNK_SIZE_pos.
  - intros i c Hc.
    apply (iter_content_loop_chunks (length (content r)) CHUNK_SIZE (content r)
             CHUNK_SIZE_pos (le_n _) i c Hc).
Qed.

(** ** The retry loop beyond the first attempt *)

Lemma after_failures_0 req secs w : after_failures req secs 0 w = w.
Proof. unfold after_failures. simpl. rewrite !app_nil_r. by destruct w. Qed.

Lemma after_failures_S req secs k w :
  after_failures req secs k (add_sleep secs (add_call req w))
  = after_failures req secs (S k) w.
Proof. unfold after_failures. simpl. by rewrite <- !app_assoc. Qed.

(** [k] failed attempts in a row use up [k] of the budget and leave the
    loop where it would be had it started after them. *)
Lemma post_until_ok_skip_failures env k m url data secs last w (resps : nat → response) :
  0 ≤ secs →
  (∀ i, (i < k)%nat →
     respond env (length (calls w) + i) (POST url data) = Ok (resps i)
     ∧ status_code (resps i) ≠ 200) →
  post_until_ok env (k + m) url data secs last w
  = post_until_ok env m url data secs
      (match k with O => last | S j => Some (resps j) end)
      (after_failures (POST url data) secs k w).
Proof.
  intros Hsecs. revert last w resps.
  induction k as [|k IH]; intros last w resps Hall.
  - by rewrite after_failures_0.
  - simpl plus. cbn [post_until_ok]. unfold bind at 1, requests_post, requests_call.
    destruct (Hall O (Nat.lt_0_succ k)) as [H0 Hs0]. rewrite Nat.add_0_r in H0.
    rewrite H0. apply Z.eqb_neq in Hs0. rewrite Hs0.
    unfold bind, sleep. assert ((secs <? 0) = false) as -> by (apply Z.ltb_ge; lia).
    rewrite (IH (Some (resps O)) _ (fun i => resps (S i))).
    + rewrite after_failures_S. by destruct k.
    + intros i Hi. simpl. rewrite length_app. simpl.
      replace (length (calls w) + 1 + i)%nat with (length (calls w) + S i)%nat by lia.
      apply Hall. lia.
Qed.

Lemma length_calls_after_failures req secs k w :
  length (calls (after_failures req secs k w)) = (length (calls w) + k)%nat.
Proof. unfold after_failures. simpl. by rewrite length_app, repeat_length. Qed.

(** When the first [k] answers are failures and the next one, still within
    the budget, has status 200, the two metadata methods return what they
    compute from that answer after exactly [k + 1] requests and [k] sleeps
    of [retry_seconds]. *)
Theorem retry_until_success env ids retries secs w k (resps : nat → response) :
  0 ≤ secs → (k < Z.to_nat retries)%nat →
  let post_c := POST get_collection_url (collection_data ids) in
  let post_f := POST get_file_details_url (file_info_data ids) in
  ((∀ i, (i < k)%nat → respond env (length (calls w) + i) post_c = Ok (resps i)
                        ∧ status_code (resps i) ≠ 200) →
   ∀ r, respond env (length (calls w) + k) post_c = Ok r → status_code r = 200 →
     _get_collection_file_ids env ids retries secs w
     = (match parsed r with
        | Some (CollectionDetails cds) => Ok (collect_file_ids cds)
        | Some (PublishedFileDetails _) => Raise (KeyError "collectiondetails")
        | None => Raise JSONDecodeError
        end, add_call post_c (after_failures post_c secs k w)))
  ∧ ((∀ i, (i < k)%nat → respond env (length (calls w) + i) post_f = Ok (resps i)
                          ∧ status_code (resps i) ≠ 200) →
     ∀ r, respond env (length (calls w) + k) post_f = Ok r → status_code r = 200 →
       _get_steam_file_info env ids retries secs w
       = (match parsed r with
          | Some (PublishedFileDetails pfd) => Ok (collect_file_info pfd)
          | Some (CollectionDetails _) => Raise (KeyError "publishedfiledetails")
          | None => Raise JSONDecodeError
          end, add_call post_f (after_failures post_f secs k w))).
Proof.
  intros Hsecs Hk post_c post_f.
  assert (Hn : ∃ m, Z.to_nat retries = (k + S m)%nat)
    by (exists (Z.to_nat retries - S k)%nat; lia).
  destruct Hn as [m Hm].
  split.
  - intros Hall r Hr Hs.
    unfold _get_collection_file_ids, bind. rewrite Hm.
    rewrite (post_until_ok_skip_failures env k (S m) _ _ secs None w resps Hsecs Hall).
    rewrite (post_until_ok_first _ _ _ _ _ _ _ r);
      [|by rewrite length_calls_after_failures|done].
    rewrite Hs. simpl. payload_cases r; done.
  - intros Hall r Hr Hs.
    unfold _get_steam_file_info, bind. rewrite Hm.
    rewrite (post_until_ok_skip_failures env k (S m) _ _ secs None w resps Hsecs Hall).
    rewrite (post_until_ok_first _ _ _ _ _ _ _ r);
      [|by rewrite length_calls_after_failures|done].
    rewrite Hs. simpl. payload_cases r; done.
Qed.

(** When every answer within the budget is a failure, the two methods
    sleep after each attempt, the last one included: they raise after [r]
    requests and [r] sleeps, having changed nothing else. *)
Theorem exhausted_budget_sleeps_every_time env ids retries secs w (resps : nat → response) :
  1 ≤ retries → 0 ≤ secs →
  let n := Z.to_nat retries in
  let post_c := POST get_collection_url (collection_data ids) in
  let post_f := POST get_file_details_url (file_info_data ids) in
  ((∀ i, (i < n)%nat → respond env (length (calls w) + i) post_c = Ok (resps i)
                        ∧ status_code (resps i) ≠ 200) →
   (_get_collection_file_ids env ids retries secs w).2 = after_failures post_c secs n w)
  ∧ ((∀ i, (i < n)%nat → respond env (length (calls w) + i) post_f = Ok (resps i)
                          ∧ status_code (resps i) ≠ 200) →
     (_get_steam_file_info env ids retries secs w).2 = after_failures post_f secs n w).
Proof.
  intros Hr Hsecs n post_c post_f.
  assert (Hn : ∃ m, n = S m) by (exists (Nat.pred n); subst n; lia).
  destruct Hn as [m Hm].
  assert (Hlast : (m < n)%nat) by lia.
  split.
  - intros Hall. unfold _get_collection_file_ids, bind. fold n.
    replace n with (n + 0)%nat at 1 by lia.
    rewrite (post_until_ok_skip_failures env n 0 _ _ secs None w resps Hsecs Hall).
    simpl. rewrite Hm. fold post_c. rewrite <- Hm.
    destruct (Hall m Hlast) as [_ Hs]. apply Z.eqb_neq in Hs. by rewrite Hs.
  - intros Hall. unfold _get_steam_file_info, bind. fold n.
    replace n with (n + 0)%nat at 1 by lia.
    rewrite (post_until_ok_skip_failures env n 0 _ _ secs None w resps Hsecs Hall).
    simpl. rewrite Hm. fold post_f. rewrite <- Hm.
    destruct (Hall m Hlast) as [_ Hs]. apply Z.eqb_neq in Hs. by rewrite Hs.
Qed.

Lemma retry_until_success_witness :
  _get_collection_file_ids (More.flaky 2) ["7"] default_retries default_retry_seconds
    Sample.fresh_install
  = (Ok ["42"],
     add_call (POST get_collection_url (collection_data ["7"]))
       (after_failures (POST get_collection_url (collection_data ["7"]))
          default_retry_seconds 2 Sample.fresh_install)).
Proof.
  destruct (retry_until_success (More.flaky 2) ["7"] default_retries default_retry_seconds
              Sample.fresh_install 2
              (fun _ => Sample.reply 503 Sample.three_bytes None))
    as [Hc _].
  - unfold default_retry_seconds. lia.
  - unfold default_retries. simpl. lia.
  - refine (Hc _ (Sample.reply 200 [] (Some (CollectionDetails Sample.one_collection))) _ _).
    + intros i Hi. destruct i as [|[|i]]; [split; [reflexivity|simpl; lia] ..|lia].
    + reflexivity.
    + reflexivity.
Defined.

Lemma exhausted_budget_sleeps_every_time_witness :
  (_get_collection_file_ids (Sample.unavailable 503 Sample.three_bytes) ["7"]
     default_retries default_retry_seconds Sample.fresh_install).2
  = after_failures (POST get_collection_url (collection_data ["7"]))
      default_retry_seconds 5 Sample.fresh_install.
Proof.
  destruct (exhausted_budget_sleeps_every_time (Sample.unavailable 503 Sample.three_bytes)
              ["7"] default_retries default_retry_seconds Sample.fresh_install
              (fun _ => Sample.reply 503 Sample.three_bytes None))
    as [Hc _].
  - unfold default_retries. lia.
  - unfold default_retry_seconds. lia.
  - apply Hc. intros i _. split; [reflexivity | simpl; lia].
Defined.

(** Two things end the retry loop before the budget is used up.  An
    exception of [requests.post] is not caught: it comes out at once, after
    the failed attempts before it.  And a negative [retry_seconds] makes
    [sleep] raise [ValueError] after the first failed attempt. *)
Theorem retry_stops_early env ids retries secs w :
  let post_c := POST get_collection_url (collection_data ids) in
  let post_f := POST get_file_details_url (file_info_data ids) in
  (∀ k (resps : nat → response) e,
     0 ≤ secs → (k < Z.to_nat retries)%nat →
     (∀ i, (i < k)%nat → respond env (length (calls w) + i) post_c = Ok (resps i)
                          ∧ status_code (resps i) ≠ 200) →
     respond env (length (calls w) + k) post_c = Raise e →
     _get_collection_file_ids env ids retries secs w
     = (Raise e, add_call post_c (after_failures post_c secs k w)))
  ∧ (∀ k (resps : nat → response) e,
       0 ≤ secs → (k < Z.to_nat retries)%nat →
       (∀ i, (i < k)%nat → respond env (length (calls w) + i) post_f = Ok (resps i)
                            ∧ status_code (resps i) ≠ 200) →
       respond env (length (calls w) + k) post_f = Raise e →
       _get_steam_file_info env ids retries secs w
       = (Raise e, add_call post_f (after_failures post_f secs k w)))
  ∧ (∀ r, secs < 0 → 1 ≤ retries →
       respond env (length (calls w)) post_c = Ok r → status_code r ≠ 200 →
       _get_collection_file_ids env ids retries secs w
       = (Raise ValueError, add_call post_c w))
  ∧ (∀ r, secs < 0 → 1 ≤ retries →
       respond env (length (calls w)) post_f = Ok r → status_code r ≠ 200 →
       _get_steam_file_info env ids retries secs w
       = (Raise ValueError, add_call post_f w)).
Proof.
  intros post_c post_f.
  assert (Hraise : ∀ url data m last w0 e,
            respond env (length (calls w0)) (POST url data) = Raise e →
            post_until_ok env (S m) url data secs last w0
            = (Raise e, add_call (POST url data) w0)).
  { intros url data m last w0 e He. simpl.
    unfold bind, requests_post, requests_call. by rewrite He. }
  assert (Hneg : ∀ url data m last w0 r,
            secs < 0 → respond env (length (calls w0)) (POST url data) = Ok r →
            status_code r ≠ 200 →
            post_until_ok env (S m) url data secs last w0
            = (Raise ValueError, add_call (POST url data) w0)).
  { intros url data m last w0 r Hs Hr Hst. simpl.
    unfold bind, requests_post, requests_call. rewrite Hr.
    apply Z.eqb_neq in Hst. rewrite Hst. unfold sleep.
    by assert ((secs <? 0) = true) as -> by (apply Z.ltb_lt; lia). }
  split_and!.
  - intros k resps e Hsecs Hk Hall He.
    assert (Hn : ∃ m, Z.to_nat retries = (k + S m)%nat)
      by (exists (Z.to_nat retries - S k)%nat; lia).
    destruct Hn as [m Hm].
    unfold _get_collection_file_ids, bind. rewrite Hm.
    rewrite (post_until_ok_skip_failures env k (S m) _ _ secs None w resps Hsecs Hall).
    rewrite (Hraise _ _ _ _ _ e); [done|].
    by rewrite length_calls_after_failures.
  - intros k resps e Hsecs Hk Hall He.
    assert (Hn : ∃ m, Z.to_nat retries = (k + S m)%nat)
      by (exists (Z.to_nat retries - S k)%nat; lia).
    destruct Hn as [m Hm].
    unfold _get_steam_file_info, bind. rewrite Hm.
    rewrite (post_until_ok_skip_failures env k (S m) _ _ secs None w resps Hsecs Hall).
    rewrite (Hraise _ _ _ _ _ e); [done|].
    by rewrite length_calls_after_failures.
  - intros r Hs Hr Hresp Hst.
    assert (Hn : ∃ m, Z.to_nat retries = S m) by (exists (Nat.pred (Z.to_nat retries)); lia).
    destruct Hn as [m Hm].
    unfold _get_collection_file_ids, bind. rewrite Hm.
    by rewrite (Hneg _ _ _ _ _ r).
  - intros r Hs Hr Hresp Hst.
    assert (Hn : ∃ m, Z.to_nat retries = S m) by (exists (Nat.pred (Z.to_nat retries)); lia).
    destruct Hn as [m Hm].
    unfold _get_steam_file_info, bind. rewrite Hm.
    by rewrite (Hneg _ _ _ _ _ r).
Qed.

Example unreachable_remote_not_retried :
  _get_collection_file_ids More.unreachable ["7"] default_retries default_retry_seconds
    Sample.fresh_install
  = (Raise (RequestException "connection refused"),
     add_call (POST get_collection_url (collection_data ["7"])) Sample.fresh_install).
Proof. reflexivity. Qed.

(** ** The forms posted *)

Lemma string_app_inv_head (a b c : string) : a +:+ b = a +:+ c → b = c.
Proof. induction a as [|x a IH]; simpl; [done|]. intros [= H]. by apply IH. Qed.

Lemma string_snoc_inj (a b : string) (x : ascii) :
  a +:+ String x "" = b +:+ String x "" → a = b.
Proof.
  revert b. induction a as [|y a IH]; intros [|z b]; simpl.
  - done.
  - intros [= _ H]. by destruct b.
  - intros [= _ H]. by destruct a.
  - intros [= -> H]. f_equal. by apply IH.
Qed.

Lemma publishedfileids_key_inj i j :
  publishedfileids_key i = publishedfileids_key j → i = j.
Proof.
  unfold publishedfileids_key. intros H.
  apply string_app_inv_head, string_snoc_inj in H. by apply (inj pretty) in H.
Qed.

Lemma add_publishedfileids_other data i0 ids key :
  (∀ j, (i0 ≤ j < i0 + length ids)%nat → key ≠ publishedfileids_key j) →
  PyDict.get (add_publishedfileids data i0 ids) key = PyDict.get data key.
Proof.
  revert data i0. induction ids as [|v ids IH]; intros data i0 Hkey; simpl in *; [done|].
  fold (publishedfileids_key i0).
  rewrite IH by (intros j Hj; apply Hkey; lia).
  rewrite PyDictFacts.get_set.
  destruct (String.eqb_spec (publishedfileids_key i0) key) as [<-|]; [|done].
  exfalso. apply (Hkey i0); [lia|done].
Qed.

Lemma add_publishedfileids_at data i0 ids j :
  (j < length ids)%nat →
  PyDict.get (add_publishedfileids data i0 ids) (publishedfileids_key (i0 + j))
  = FStr <$> ids !! j.
Proof.
  revert data i0 j. induction ids as [|v ids IH]; intros data i0 j Hj; simpl in *; [lia|].
  fold (publishedfileids_key i0).
  destruct j as [|j].
  - rewrite Nat.add_0_r, add_publishedfileids_other.
    + by rewrite PyDictFacts.get_set, String.eqb_refl.
    + intros j Hj' Heq. apply publishedfileids_key_inj in Heq. lia.
  - replace (i0 + S j)%nat with (S i0 + j)%nat by lia.
    rewrite IH by lia. done.
Qed.

Lemma add_publishedfileids_length data i0 ids :
  (∀ j, (i0 ≤ j)%nat → PyDict.get data (publishedfileids_key j) = None) →
  length (add_publishedfileids data i0 ids) = (length data + length ids)%nat.
Proof.
  revert data i0. induction ids as [|v ids IH]; intros data i0 Hfresh; simpl; [lia|].
  fold (publishedfileids_key i0).
  rewrite IH.
  - assert (Hk : length (PyDict.keys (PyDict.set data (publishedfileids_key i0) (FStr v)))
                 = S (length data)).
    { rewrite PyDictFacts.keys_set_new by (apply Hfresh; lia).
      unfold PyDict.keys. rewrite length_app, length_map. simpl. lia. }
    unfold PyDict.keys in Hk. rewrite length_map in Hk. lia.
  - intros j Hj. rewrite PyDictFacts.get_set.
    destruct (String.eqb_spec (publishedfileids_key i0) (publishedfileids_key j)) as [Heq|].
    + apply publishedfileids_key_inj in Heq. lia.
    + apply Hfresh. lia.
Qed.

(** The forms of the two metadata calls hold the count under its key, the
    [i]-th identifier under [publishedfileids[i]], and nothing else.  The
    count is the decimal string of the number of identifiers in the
    expansion call, and the number itself in the file-details call. *)
Theorem form_fields (ids : list string) :
  (PyDict.get (collection_data ids) "collectioncount" = Some (FStr (pretty (length ids)))
   ∧ (∀ i, PyDict.get (collection_data ids) (publishedfileids_key i) = FStr <$> ids !! i)
   ∧ length (collection_data ids) = S (length ids))
  ∧ (PyDict.get (file_info_data ids) "itemcount" = Some (FInt (Z.of_nat (length ids)))
     ∧ (∀ i, PyDict.get (file_info_data ids) (publishedfileids_key i) = FStr <$> ids !! i)
     ∧ length (file_info_data ids) = S (length ids)).
Proof.
  assert (Hgen : ∀ name (count : form_value),
            (∀ j, name ≠ publishedfileids_key j) →
            PyDict.get (add_publishedfileids [(name, count)] 0 ids) name = Some count
            ∧ (∀ i, PyDict.get (add_publishedfileids [(name, count)] 0 ids)
                      (publishedfileids_key i) = FStr <$> ids !! i)
            ∧ length (add_publishedfileids [(name, count)] 0 ids) = S (length ids)).
  { intros name count Hname. split_and!.
    - rewrite add_publishedfileids_other by (intros j _; apply Hname).
      simpl. by rewrite String.eqb_refl.
    - intros i. destruct (decide (i < length ids)%nat) as [Hi|Hi].
      + by rewrite <- (add_publishedfileids_at [(name, count)] 0 ids i Hi).
      + rewrite add_publishedfileids_other.
        * rewrite lookup_ge_None_2 by lia. simpl.
          destruct (String.eqb_spec name (publishedfileids_key i)) as [Heq|]; [|done].
          by destruct (Hname i).
        * intros j Hj Heq. apply publishedfileids_key_inj in Heq. lia.
    - rewrite add_publishedfileids_length; [done|].
      intros j _. simpl.
      destruct (String.eqb_spec name (publishedfileids_key j)) as [Heq|]; [|done].
      by destruct (Hname j). }
  split; apply Hgen; intros j; unfold publishedfileids_key; discriminate.
Qed.

(** ** Metadata failures inside [download_collections] *)

Lemma post_until_ok_all_failed env m url data secs w (resps : nat → response) :
  0 ≤ secs →
  (∀ i, (i < S m)%nat →
     respond env (length (calls w) + i) (POST url data) = Ok (resps i)
     ∧ status_code (resps i) ≠ 200) →
  post_until_ok env (S m) url data secs None w
  = (Ok (Some (resps m)), after_failures (POST url data) secs (S m) w).
Proof.
  intros Hsecs Hall. replace (S m) with (S m + 0)%nat at 1 by lia.
  by rewrite (post_until_ok_skip_failures env (S m) 0 _ _ secs None w resps Hsecs Hall).
Qed.

Lemma _get_collection_file_ids_exhausted env ids w (resps : nat → response) :
  (∀ i, (i < 5)%nat →
     respond env (length (calls w) + i) (POST get_collection_url (collection_data ids))
     = Ok (resps i) ∧ status_code (resps i) ≠ 200) →
  _get_collection_file_ids env ids default_retries default_retry_seconds w
  = (Raise (PyException (CollectionIdsError 5 get_collection_url
                           (status_code (resps 4%nat)) (content (resps 4%nat)))),
     after_failures (POST get_collection_url (collection_data ids)) 5 5 w).
Proof.
  intros Hall. unfold _get_collection_file_ids, bind.
  change (Z.to_nat default_retries) with 5%nat.
  rewrite (post_until_ok_all_failed env 4 _ _ default_retry_seconds w resps);
    [|unfold default_retry_seconds; lia|done].
  destruct (Hall 4%nat ltac:(lia)) as [_ Hs]. apply Z.eqb_neq in Hs. by rewrite Hs.
Qed.

Lemma _get_steam_file_info_exhausted env ids w (resps : nat → response) :
  (∀ i, (i < 5)%nat →
     respond env (length (calls w) + i) (POST get_file_details_url (file_info_data ids))
     = Ok (resps i) ∧ status_code (resps i) ≠ 200) →
  _get_steam_file_info env ids default_retries default_retry_seconds w
  = (Raise (PyException (FileInfoError 5 get_collection_url
                           (status_code (resps 4%nat)) (content (resps 4%nat)))),
     after_failures (POST get_file_details_url (file_info_data ids)) 5 5 w).
Proof.
  intros Hall. unfold _get_steam_file_info, bind.
  change (Z.to_nat default_retries) with 5%nat.
  rewrite (post_until_ok_all_failed env 4 _ _ default_retry_seconds w resps);
    [|unfold default_retry_seconds; lia|done].
  destruct (Hall 4%nat ltac:(lia)) as [_ Hs]. apply Z.eqb_neq in Hs. by rewrite Hs.
Qed.

(** A metadata call that runs out of its budget ends [download_collections]
    on the spot.  When the expansion keeps failing, it raises after its
    five requests: no file-details request is made and nothing is
    downloaded, but an install directory created at the start of the run
    stays ([p] is the directory that the install path names).  When the
    expansion succeeds and the file-details call keeps
    failing, it raises after those five requests, and no file is fetched;
    the message of that exception names the expansion URL. *)
Theorem metadata_failure_stops_the_run env ids p w (resps : nat → response) :
  let post_c := POST get_collection_url (collection_data ids) in
  let fail_c := PyException (CollectionIdsError 5 get_collection_url
                               (status_code (resps 4%nat)) (content (resps 4%nat))) in
  ((∀ i, (i < 5)%nat → respond env (length (calls w) + i) post_c = Ok (resps i)
                        ∧ status_code (resps i) ≠ 200) →
   resolve_and_download env ids p w = (Raise fail_c, after_failures post_c 5 5 w)
   ∧ (∀ install_path,
        absolute (cwd env) install_path = p →
        fs w !! p = None → check_parent p w = Ok tt →
        download_collections env ids (Some install_path) w
        = (Raise fail_c,
           after_failures post_c 5 5
             (set_fs (<[p := {| st_kind := Directory; st_size := new_dir_size env;
                                st_mtime := now env w |}]> (fs w)) w))))
  ∧ (∀ r cds,
       respond env (length (calls w)) post_c = Ok r → status_code r = 200 →
       parsed r = Some (CollectionDetails cds) →
       let post_f := POST get_file_details_url (file_info_data (collect_file_ids cds)) in
       (∀ i, (i < 5)%nat → respond env (S (length (calls w)) + i) post_f = Ok (resps i)
                            ∧ status_code (resps i) ≠ 200) →
       resolve_and_download env ids p w
       = (Raise (PyException (FileInfoError 5 get_collection_url
                                (status_code (resps 4%nat)) (content (resps 4%nat)))),
          after_failures post_f 5 5
            (add_log DEBUG (MsgFileIds (collect_file_ids cds)) (add_call post_c w)))).
Proof.
  intros post_c fail_c. split.
  - intros Hall.
    assert (Hres : ∀ w0, calls w0 = calls w →
              resolve_and_download env ids p w0
              = (Raise fail_c, after_failures post_c 5 5 w0)).
    { intros w0 Hw0. unfold resolve_and_download, bind.
      rewrite (_get_collection_file_ids_exhausted env ids w0 resps); [done|].
      by rewrite Hw0. }
    split; [by apply Hres|].
    intros install_path Hdir Hnone Hparent.
    unfold download_collections, Path, bind, ret, path_exists.
    rewrite Hdir, Hnone. unfold mkdir. rewrite Hnone, Hparent. by apply Hres.
  - intros r cds Hr Hs Hp post_f Hall.
    unfold resolve_and_download, bind.
    rewrite (_get_collection_file_ids_first_ok env ids _ _ w r);
      [|unfold default_retries; lia|done|done].
    rewrite Hp. unfold LOG at 1.
    rewrite (_get_steam_file_info_exhausted env _ _ resps); [done|].
    intros i Hi. simpl calls. rewrite length_app. simpl length.
    replace (length (calls w) + 1 + i)%nat with (S (length (calls w)) + i)%nat by lia.
    by apply Hall.
Qed.

(** ** The download loop: calls, plan and frame *)

Lemma download_plan_sublist env p items w : download_plan env p items w `sublist_of` items.
Proof.
  revert w. induction items as [|kd rest IH]; intros w; simpl; [done|].
  assert (Htail : match download_entry env p kd w with
                  | (Ok _, w') => download_plan env p rest w'
                  | (Raise _, _) => []
                  end `sublist_of` rest).
  { destruct (download_entry env p kd w) as [[[]|e] w1]; [apply IH|apply sublist_nil_l]. }
  destruct (needs_download p kd w); simpl.
  - by apply sublist_skip.
  - by apply sublist_cons.
Qed.

(** Whether it completes or is cut short by an exception, a run of the
    loop makes exactly one GET per entry of its plan, with that entry's
    [file_url], in the order of the plan, and no other call. *)
Theorem loop_calls_are_the_plan env p items w :
  calls (download_loop env p items w).2
  = calls w ++ ((fun kd => GET (file_url kd.2) true) <$> download_plan env p items w).
Proof.
  revert w. induction items as [|kd rest IH]; intros w.
  - simpl. by rewrite app_nil_r.
  - rewrite download_loop_cons. simpl download_plan.
    destruct (needs_download p kd w) eqn:Hn.
    + rewrite download_entry_fetch by done.
      destruct (_download_file env _ _ _) as [r1 w1] eqn:Hd.
      apply _download_file_effects in Hd as (Hc & _). simpl in Hc.
      destruct r1 as [[]|e].
      * rewrite IH, Hc. simpl. by rewrite <- app_assoc.
      * simpl. by rewrite Hc.
    + rewrite download_entry_skip by done. rewrite IH. done.
Qed.

(** The plan of a run takes its entries from the metadata mapping, in the
    order of the mapping (the order in which the identifiers first appear
    in the file-details response), and the run changes no path but the
    destinations of the plan. *)
Theorem loop_touches_only_the_plan env p items w :
  download_plan env p items w `sublist_of` items
  ∧ ∀ q, q ∉ plan_paths p (download_plan env p items w) →
      fs (download_loop env p items w).2 !! q = fs w !! q.
Proof.
  split; [apply download_plan_sublist|].
  intros q Hq.
  destruct (download_loop env p items w) as [res w'] eqn:Hrun.
  by apply (download_loop_frame env p items w res w' Hrun).
Qed.

(** ** Paths: parsing and normal form *)

Lemma string_app_cons x (a b : string) : String x a +:+ b = String x (a +:+ b).
Proof. reflexivity. Qed.

Lemma string_app_assoc (a b c : string) : (a +:+ b) +:+ c = a +:+ b +:+ c.
Proof. induction a as [|x a IH]; [done|]. by rewrite !string_app_cons, IH. Qed.

Lemma string_app_nil_r (a : string) : a +:+ "" = a.
Proof. induction a as [|x a IH]; [done|]. by rewrite string_app_cons, IH. Qed.

Lemma string_app_length (a b : string) :
  String.length (a +:+ b) = (String.length a + String.length b)%nat.
Proof. induction a as [|x a IH]; [done|]. rewrite string_app_cons. simpl. by rewrite IH. Qed.

Lemma rsplit_Some c s h t :
  rsplit c s = Some (h, t) → s = h +:+ String c t ∧ rsplit c t = None.
Proof.
  revert h. induction s as [|a s IH]; intros h; simpl; [done|].
  destruct (rsplit c s) as [[h' t']|] eqn:E.
  - intros [= <- <-]. destruct (IH h' eq_refl) as [-> Ht]. done.
  - destruct (Ascii.eqb_spec a c) as [->|]; [|done].
    intros [= <- <-]. done.
Qed.

Lemma rsplit_None_app c a b :
  rsplit c (a +:+ b) = None ↔ rsplit c a = None ∧ rsplit c b = None.
Proof.
  induction a as [|x a IH]; simpl.
  - tauto.
  - destruct (rsplit c (a +:+ b)) as [[h t]|] eqn:E.
    + split; [done|]. intros [Ha Hb]. exfalso.
      destruct (rsplit c a) as [[h' t']|]; [done|].
      pose proof (proj2 IH (conj eq_refl Hb)). congruence.
    + destruct (proj1 IH eq_refl) as [Ha Hb]. rewrite Ha.
      destruct (Ascii.eqb x c); [split; [done|by intros [? _]]|done].
Qed.

Lemma rsplit_None_cons c x s :
  rsplit c (String x s) = None ↔ x ≠ c ∧ rsplit c s = None.
Proof.
  simpl. destruct (rsplit c s) as [[h t]|]; [split; [done|by intros [_ ?]]|].
  destruct (Ascii.eqb_spec x c); split; try done. by intros [? _].
Qed.

Lemma split_slash_nonempty s : split_slash s ≠ [].
Proof.
  destruct s as [|a s]; simpl; [done|].
  destruct (Ascii.eqb a "/"); [done|]. by destruct (split_slash s).
Qed.

(** Splitting at a slash splits the list of components. *)
Lemma split_slash_app a b :
  split_slash (a +:+ String "/" b) = split_slash a ++ split_slash b.
Proof.
  induction a as [|x a IH]; [done|].
  rewrite string_app_cons. cbn [split_slash]. rewrite IH.
  destruct (Ascii.eqb x "/"); [done|].
  pose proof (split_slash_nonempty a) as Hne.
  by destruct (split_slash a).
Qed.

Lemma split_slash_free c : rsplit "/" c = None → split_slash c = [c].
Proof.
  induction c as [|x c IH]; [done|].
  intros [Hx Hc]%rsplit_None_cons. cbn [split_slash].
  apply Ascii.eqb_neq in Hx. rewrite Hx, (IH Hc). done.
Qed.

Lemma split_slash_elements s : Forall (fun c => rsplit "/" c = None) (split_slash s).
Proof.
  induction s as [|x s IH]; cbn [split_slash]; [by repeat constructor|].
  destruct (Ascii.eqb_spec x "/") as [->|Hx]; [by constructor|].
  destruct (split_slash s) as [|h t]; [by repeat constructor; apply rsplit_None_cons|].
  apply Forall_cons in IH as [Hh Ht]. constructor; [|done].
  by apply rsplit_None_cons.
Qed.

Lemma path_parts_components s : Forall component (path_parts s).
Proof.
  unfold path_parts. pose proof (split_slash_elements s) as Hall.
  induction Hall as [|c l Hc _ IH]; simpl; [constructor|].
  destruct (is_component c) eqn:E; [|done]. by constructor.
Qed.

Lemma path_parts_app a b :
  path_parts (a +:+ String "/" b) = path_parts a ++ path_parts b.
Proof. unfold path_parts. by rewrite split_slash_app, List.filter_app. Qed.

Lemma path_parts_component c : component c → path_parts c = [c].
Proof.
  intros [Hc Hfree]. unfold path_parts. rewrite (split_slash_free _ Hfree). simpl.
  by rewrite Hc.
Qed.

Lemma path_parts_join qs : Forall component qs → path_parts (join_slash qs) = qs.
Proof.
  induction 1 as [|c qs Hc Hqs IH]; [done|].
  destruct qs as [|c2 qs]; [by apply path_parts_component|].
  change (join_slash (c :: c2 :: qs)) with (c +:+ String "/" (join_slash (c2 :: qs))).
  by rewrite path_parts_app, IH, (path_parts_component _ Hc).
Qed.

Lemma path_parts_root r x : root_like r → path_parts (r +:+ x) = path_parts x.
Proof. by intros [-> | [-> | ->]]. Qed.

Lemma leading_slashes_component c x : component c → leading_slashes (c +:+ x) = 0%nat.
Proof.
  intros [Hc Hfree]. destruct c as [|a c]; [done|].
  apply rsplit_None_cons in Hfree as [Ha _].
  rewrite string_app_cons. simpl. apply Ascii.eqb_neq in Ha. by rewrite Ha.
Qed.

Lemma leading_slashes_join qs : Forall component qs → leading_slashes (join_slash qs) = 0%nat.
Proof.
  intros Hqs. destruct Hqs as [|c qs Hc Hqs]; [done|].
  destruct qs as [|c2 qs].
  - rewrite <- (string_app_nil_r c). by apply leading_slashes_component.
  - by apply leading_slashes_component.
Qed.

Lemma path_root_root_like s : root_like (path_root s).
Proof.
  unfold path_root, root_like. destruct (leading_slashes s) as [|[|[|n]]]; auto.
Qed.

Lemma path_root_render r qs :
  root_like r → Forall component qs → path_root (render r qs) = r.
Proof.
  intros Hr Hqs. unfold render, path_root.
  destruct qs as [|c qs].
  - by destruct Hr as [-> | [-> | ->]].
  - pose proof (leading_slashes_join _ Hqs) as Hz.
    remember (join_slash (c :: qs)) as x.
    destruct Hr as [-> | [-> | ->]].
    + change ("" +:+ x) with x. by rewrite Hz.
    + change (leading_slashes ("/" +:+ x)) with (S (leading_slashes x)). by rewrite Hz.
    + change (leading_slashes ("//" +:+ x)) with (S (S (leading_slashes x))). by rewrite Hz.
Qed.

Lemma path_parts_render r qs :
  root_like r → Forall component qs → path_parts (render r qs) = qs.
Proof.
  intros Hr Hqs. unfold render. destruct qs as [|c qs].
  - by destruct Hr as [-> | [-> | ->]].
  - rewrite (path_parts_root _ _ Hr). by apply path_parts_join.
Qed.

(** A rendered path is in normal form, and its name and parent are read
    off its components. *)
Lemma normal_form_render r qs :
  root_like r → Forall component qs → normal_form (render r qs) = render r qs.
Proof.
  intros Hr Hqs. unfold normal_form.
  by rewrite (path_root_render _ _ Hr Hqs), (path_parts_render _ _ Hr Hqs).
Qed.

Lemma path_name_render r qs :
  root_like r → Forall component qs → path_name (render r qs) = List.last qs "".
Proof. intros Hr Hqs. unfold path_name. by rewrite (path_parts_render _ _ Hr Hqs). Qed.

Lemma path_parent_render r qs :
  root_like r → Forall component qs →
  path_parent (render r qs) = render r (removelast qs).
Proof.
  intros Hr Hqs. unfold path_parent.
  by rewrite (path_root_render _ _ Hr Hqs), (path_parts_render _ _ Hr Hqs).
Qed.

Lemma normal_form_idempotent s : normal_form (normal_form s) = normal_form s.
Proof.
  unfold normal_form at 2 3.
  apply normal_form_render; [apply path_root_root_like|apply path_parts_components].
Qed.

(** The absolute path of a string: a root and a list of components that
    ends with the components of the string. *)
Lemma absolute_render working_dir s :
  ∃ r base, root_like r ∧ Forall component base
            ∧ absolute working_dir s = render r (base ++ path_parts s)
            ∧ (r, base) = if starts_with_slash s then (path_root s, [])
                          else (path_root working_dir, path_parts working_dir).
Proof.
  unfold absolute. destruct (starts_with_slash s).
  - exists (path_root s), []. split_and!; [apply path_root_root_like|constructor|done..].
  - exists (path_root working_dir), (path_parts working_dir).
    split_and!; [apply path_root_root_like|apply path_parts_components|done..].
Qed.

Lemma absolute_idempotent working_dir s :
  normal_form (absolute working_dir s) = absolute working_dir s.
Proof.
  destruct (absolute_render working_dir s) as (r & base & Hr & Hbase & -> & _).
  apply normal_form_render; [done|].
  apply Forall_app. split; [done|apply path_parts_components].
Qed.

Lemma join_slash_snoc qs c :
  qs ≠ [] → join_slash (qs ++ [c]) = join_slash qs +:+ String "/" c.
Proof.
  induction qs as [|q qs IH]; [done|]. intros _.
  destruct qs as [|q2 qs]; [done|].
  change (join_slash ((q :: q2 :: qs) ++ [c]))
    with (q +:+ String "/" (join_slash ((q2 :: qs) ++ [c]))).
  rewrite IH by done.
  change (join_slash (q :: q2 :: qs)) with (q +:+ String "/" (join_slash (q2 :: qs))).
  by rewrite !string_app_assoc.
Qed.

(** Adding text to the last component *)
Lemma render_snoc_app r qs c x :
  render r (qs ++ [c]) +:+ x = render r (qs ++ [c +:+ x]).
Proof.
  unfold render. destruct qs as [|q qs]; simpl app.
  - cbn [join_slash]. by rewrite string_app_assoc.
  - change (q :: qs ++ [c]) with ((q :: qs) ++ [c]).
    change (q :: qs ++ [c +:+ x]) with ((q :: qs) ++ [c +:+ x]).
    rewrite !join_slash_snoc by done. simpl app. cbv iota.
    rewrite !string_app_assoc. by rewrite string_app_cons.
Qed.

Lemma removelast_snoc {A} (l : list A) x : removelast (l ++ [x]) = l.
Proof. by rewrite removelast_last. Qed.

Lemma last_snoc' {A} (l : list A) x d : List.last (l ++ [x]) d = x.
Proof. by rewrite List.last_last. Qed.

(** ** Where a file lands *)

Lemma last_Forall {A} (P : A → Prop) (l : list A) (d : A) :
  Forall P l → P d → P (List.last l d).
Proof.
  intros Hl Hd. induction Hl as [|x l Hx Hl IH]; [done|].
  destruct l as [|y l]; [done|]. exact IH.
Qed.

Lemma path_name_free s : rsplit "/" (path_name s) = None.
Proof.
  unfold path_name.
  apply (last_Forall (fun c => rsplit "/" c = None)); [|done].
  eapply Forall_impl; [apply path_parts_components|]. by intros c [_ ?].
Qed.

(** The suffix taken from the remote file name is empty, or a dot followed
    by at least one character, and holds no slash. *)
Lemma path_suffix_shape s :
  path_suffix s = ""
  ∨ ∃ t, path_suffix s = String "." t ∧ t ≠ "" ∧ rsplit "/" t = None.
Proof.
  unfold path_suffix. pose proof (path_name_free s) as Hname.
  destruct (rsplit "." (path_name s)) as [[h t]|] eqn:E; [|by left].
  destruct (String.eqb_spec h "") as [|Hh]; [by left|].
  destruct (String.eqb_spec t "") as [|Ht]; [by left|]. simpl.
  right. exists t. split_and!; [done..|].
  apply rsplit_Some in E as [Heq _]. rewrite Heq in Hname.
  apply rsplit_None_app in Hname as [_ Hname].
  by apply rsplit_None_cons in Hname as [_ ?].
Qed.

Lemma starts_with_slash_free s : rsplit "/" s = None → starts_with_slash s = false.
Proof.
  destruct s as [|a s]; [done|]. intros [Ha _]%rsplit_None_cons.
  simpl. by apply Ascii.eqb_neq.
Qed.

(** A slash-free identifier other than the empty one and [.], followed by
    a suffix, is one component of a path. *)
Lemma identifier_component k s :
  rsplit "/" k = None → k ≠ "" → k ≠ "." → component (k +:+ path_suffix s).
Proof.
  intros Hfree Hne Hdot.
  destruct (path_suffix_shape s) as [->|(t & -> & Ht & Htfree)].
  - rewrite string_app_nil_r. split; [|done]. unfold is_component.
    destruct (String.eqb_spec k ""); [done|]. by destruct (String.eqb_spec k ".").
  - split.
    + unfold is_component.
      destruct (String.eqb_spec (k +:+ String "." t) "") as [Heq|_].
      { apply (f_equal String.length) in Heq. rewrite string_app_length in Heq.
        simpl in Heq. lia. }
      destruct (String.eqb_spec (k +:+ String "." t) ".") as [Heq|_]; [|done].
      apply (f_equal String.length) in Heq. rewrite string_app_length in Heq.
      destruct k; [done|]. destruct t; [done|]. simpl in Heq. lia.
    + apply rsplit_None_app. split; [done|]. by apply rsplit_None_cons.
Qed.

Lemma ends_with_slash_app a b : b ≠ "" → ends_with_slash (a +:+ b) = ends_with_slash b.
Proof.
  intros Hb. induction a as [|x a IH]; [done|].
  rewrite string_app_cons. cbn [ends_with_slash]. rewrite IH.
  destruct (a +:+ b) eqn:E; [|done].
  destruct a, b; done.
Qed.

Lemma ends_with_slash_free c : rsplit "/" c = None → ends_with_slash c = false.
Proof.
  induction c as [|x c IH]; [done|].
  intros [Hx Hc]%rsplit_None_cons. cbn [ends_with_slash]. rewrite (IH Hc).
  destruct c; [by apply Ascii.eqb_neq|done].
Qed.

Lemma join_slash_nonempty qs : Forall component qs → qs ≠ [] → join_slash qs ≠ "".
Proof.
  intros Hqs Hne. destruct Hqs as [|c qs [Hc _] _]; [done|].
  destruct c; [done|]. by destruct qs.
Qed.

Lemma ends_with_slash_join qs :
  Forall component qs → qs ≠ [] → ends_with_slash (join_slash qs) = false.
Proof.
  induction 1 as [|c qs Hc Hqs IH]; [done|]. intros _.
  destruct qs as [|c2 qs]; [by apply ends_with_slash_free, Hc|].
  change (join_slash (c :: c2 :: qs)) with (c +:+ String "/" (join_slash (c2 :: qs))).
  rewrite ends_with_slash_app by done.
  pose proof (join_slash_nonempty (c2 :: qs) Hqs ltac:(done)) as Hne.
  cbn [ends_with_slash]. rewrite IH by done.
  by destruct (join_slash (c2 :: qs)).
Qed.

(** Joining one more component to an absolute path in normal form *)
Lemma path_join_component r qs name :
  root_like r → r ≠ "" → Forall component qs → component name →
  path_join (render r qs) name = render r (qs ++ [name]).
Proof.
  intros Hr Hroot Hqs Hname.
  assert (Hrel : starts_with_slash name = false)
    by (apply starts_with_slash_free, Hname).
  unfold path_join. rewrite Hrel.
  destruct qs as [|q qs].
  - destruct Hr as [-> | [-> | ->]]; done.
  - assert (Hend : ends_with_slash (render r (q :: qs)) = false).
    { unfold render. rewrite ends_with_slash_app.
      - by apply ends_with_slash_join.
      - by apply join_slash_nonempty. }
    rewrite Hend.
    assert (Hne : String.eqb (render r (q :: qs)) "" = false).
    { apply String.eqb_neq. unfold render. destruct Hr as [-> | [-> | ->]]; done. }
    rewrite Hne. simpl orb. cbv iota.
    unfold render. simpl app. cbv iota.
    change (q :: qs ++ [name]) with ((q :: qs) ++ [name]).
    rewrite join_slash_snoc by done. by rewrite !string_app_assoc.
Qed.

Lemma absolute_normal_form p :
  normal_form p = p → starts_with_slash p = true →
  ∃ r qs, root_like r ∧ r ≠ "" ∧ Forall component qs ∧ p = render r qs.
Proof.
  intros Hnf Habs. exists (path_root p), (path_parts p).
  split_and!; [apply path_root_root_like| |apply path_parts_components|done].
  destruct p as [|a p]; [done|]. simpl in Habs. unfold path_root. simpl.
  rewrite Habs. by destruct (leading_slashes p) as [|[|n]].
Qed.

(** For an install directory (an absolute path in normal form) and a file
    identifier that holds no slash and is not empty, [.] or [..], the
    destination is the identifier followed by the suffix of the remote
    file name, directly inside the install directory: whatever the remote
    sends as file name, only its extension is used. *)
Theorem destination_inside_install_dir p k details :
  normal_form p = p → starts_with_slash p = true →
  rsplit "/" k = None → k ≠ "" → k ≠ "." → k ≠ ".." →
  let name := k +:+ path_suffix (file_name details) in
  destination p k details = path_join p name
  ∧ path_name (destination p k details) = name
  ∧ path_parent (destination p k details) = p.
Proof.
  intros Hnf Habs Hfree Hne Hdot _ name.
  destruct (absolute_normal_form p Hnf Habs) as (r & qs & Hr & Hroot & Hqs & ->).
  assert (Hname : component name) by by apply identifier_component.
  assert (Hall : Forall component (qs ++ [name])).
  { apply Forall_app. split; [done|by constructor]. }
  unfold destination. fold name.
  rewrite (path_join_component r qs name Hr Hroot Hqs Hname).
  rewrite (normal_form_render _ _ Hr Hall).
  rewrite (path_name_render _ _ Hr Hall), (path_parent_render _ _ Hr Hall).
  by rewrite last_snoc', removelast_snoc.
Qed.

Lemma destination_inside_install_dir_witness :
  destination "/srv/addons" "123" (details_of (Sample.map_vpk "http://cdn/42"))
  = "/srv/addons/123.vpk"
  ∧ path_parent (destination "/srv/addons" "123"
                   (details_of (Sample.map_vpk "http://cdn/42"))) = "/srv/addons".
Proof.
  destruct (destination_inside_install_dir "/srv/addons" "123"
              (details_of (Sample.map_vpk "http://cdn/42")))
    as (Hdest & _ & Hparent); try done.
Defined.

(** The identifiers the theorem leaves out: an empty identifier or [.]
    with a file name that has no extension gives the install directory
    itself, and [..] its parent directory in the file system. *)
Example destination_of_odd_identifiers :
  let plain := {| file_name := "readme"; file_size := 3; time_updated := 100;
                  file_url := "http://cdn/1" |} in
  destination "/srv/addons" "" plain = "/srv/addons"
  ∧ destination "/srv/addons" "." plain = "/srv/addons"
  ∧ destination "/srv/addons" ".." plain = "/srv/addons/..".
Proof. by vm_compute. Qed.

(** A file identifier that starts with a slash is taken as an absolute
    path: the destination is the normal form of the identifier followed by
    the suffix, and the install directory plays no part in what the loop
    does with the entry: the same test, the same download, the same file
    written, for every install directory. *)
Theorem absolute_identifier_ignores_install_dir env p p' k details w :
  starts_with_slash k = true →
  destination p k details = normal_form (k +:+ path_suffix (file_name details))
  ∧ download_entry env p (k, details) w = download_entry env p' (k, details) w.
Proof.
  intros Hk.
  assert (Hdest : ∀ q, destination q k details
                       = normal_form (k +:+ path_suffix (file_name details))).
  { intros q. unfold destination, path_join.
    destruct k as [|a k]; [done|]. rewrite string_app_cons.
    simpl in Hk. simpl. by rewrite Hk. }
  split; [apply Hdest|].
  unfold download_entry. by rewrite (Hdest p), (Hdest p').
Qed.

Lemma absolute_identifier_ignores_install_dir_witness :
  destination "/srv/addons" "/etc/cron.d/job" (details_of (Sample.map_vpk "http://cdn/42"))
  = "/etc/cron.d/job.vpk"
  ∧ download_entry Sample.cdn_ok "/srv/addons"
      ("/etc/cron.d/job", details_of (Sample.map_vpk "http://cdn/42")) Sample.fresh_install
    = download_entry Sample.cdn_ok "/home/steam"
        ("/etc/cron.d/job", details_of (Sample.map_vpk "http://cdn/42")) Sample.fresh_install.
Proof.
  apply (absolute_identifier_ignores_install_dir Sample.cdn_ok "/srv/addons" "/home/steam"
           "/etc/cron.d/job" (details_of (Sample.map_vpk "http://cdn/42"))
           Sample.fresh_install).
  reflexivity.
Defined.
(** ** The order of the metadata mapping *)

Lemma keys_store_details_eq result fd :
  PyDict.keys (store_details result fd)
  = if bool_decide (publishedfileid fd ∈ PyDict.keys result)
    then PyDict.keys result
    else PyDict.keys result ++ [publishedfileid fd].
Proof.
  unfold store_details, PyDict.mem.
  destruct (PyDict.get result (publishedfileid fd)) as [v|] eqn:E; simpl.
  - rewrite bool_decide_true; [done|].
    destruct (decide (publishedfileid fd ∈ PyDict.keys result)) as [|Hn]; [done|].
    apply PyDictFacts.get_None_keys in Hn. congruence.
  - rewrite bool_decide_false by (by apply PyDictFacts.get_None_keys).
    by apply PyDictFacts.keys_set_new.
Qed.

Lemma keys_fold_store_details_eq l result :
  PyDict.keys (fold_left store_details l result)
  = fold_left append_child
      ((fun fd => {| child_publishedfileid := publishedfileid fd |}) <$> l)
      (PyDict.keys result).
Proof.
  revert result. induction l as [|fd l IH]; intros result; simpl; [done|].
  rewrite IH, keys_store_details_eq. done.
Qed.

(** The keys of the metadata mapping, hence the order in which
    [download_collections] goes through the files, are the identifiers of
    the file-details response, each once, in the order of their first
    occurrences in the response. *)
Theorem file_info_keys_in_response_order (publishedfiledetails : list published_file) :
  let keys := PyDict.keys (collect_file_info publishedfiledetails) in
  let ids := publishedfileid <$> publishedfiledetails in
  NoDup keys
  ∧ (∀ x, x ∈ keys ↔ x ∈ ids)
  ∧ (∀ i j x y, keys !! i = Some x → keys !! j = Some y → (i < j)%nat →
       ∃ a b, first_index x ids = Some a ∧ first_index y ids = Some b ∧ (a < b)%nat).
Proof.
  intros keys ids.
  assert (Hkeys : keys = fold_left append_child
                           ((fun fd => {| child_publishedfileid := publishedfileid fd |})
                              <$> publishedfiledetails) []).
  { unfold keys, collect_file_info. by rewrite keys_fold_store_details_eq. }
  assert (Hids : ids = child_publishedfileid
                         <$> ((fun fd => {| child_publishedfileid := publishedfileid fd |})
                                <$> publishedfiledetails)).
  { unfold ids. rewrite <- list_fmap_compose. done. }
  rewrite Hkeys, Hids. split_and!.
  - apply append_children_NoDup.
  - apply append_children_elem.
  - apply append_children_order.
Qed.

(** ** [_allied_mods_download]: first install and error paths *)

(** The headers of a response are found whatever the case of their names. *)
Example header_names_ignore_case :
  header_value [("content-length", "3"); ("LAST-MODIFIED", "x")] "Content-Length" = Some "3"
  ∧ header_value [("content-length", "3"); ("LAST-MODIFIED", "x")] "Last-Modified" = Some "x"
  ∧ header_value [("Content-Type", "text/plain")] "Content-Length" = None.
Proof. split_and!; reflexivity. Qed.

(** When no regular file is installed at the target, the archive is
    fetched without any HEAD request: after the GET of the pointer file the
    method logs and goes straight to [_download_file], and returns [True]
    if that returns. *)
Theorem allied_first_install env install_path url_prefix version latest_suffix w
    pointer download_file :
  let latest_url := url_prefix +:+ "/" +:+ version +:+ "/" +:+ latest_suffix in
  let download_url := url_prefix +:+ "/" +:+ version +:+ "/" +:+ download_file in
  respond env (length (calls w)) (GET latest_url false) = Ok pointer →
  status_code pointer = 200 →
  decode_utf8 env (content pointer) = Some download_file →
  kind_at RegularFile install_path w = false →
  _allied_mods_download env install_path url_prefix version latest_suffix w
  = bind (_download_file env download_url install_path) (fun _ => ret true)
      (add_log INFO (MsgDownloadingFrom download_url)
         (add_log DEBUG (MsgHeaders (headers pointer))
            (add_call (GET latest_url false) w))).
Proof.
  intros latest_url download_url Hpointer Hstatus Hdecode Hkind.
  unfold _allied_mods_download, bind, requests_get, requests_call, decode, is_file, ret, LOG.
  fold latest_url. rewrite Hpointer, Hstatus.
  change (negb (200 =? 200)) with false. cbv beta iota.
  rewrite Hdecode. fold download_url.
  change (kind_at RegularFile install_path (add_call (GET latest_url false) w))
    with (kind_at RegularFile install_path w).
  rewrite Hkind.
  by destruct (_download_file env download_url install_path _) as [[[]|e] w3].
Qed.

Lemma allied_first_install_witness :
  _allied_mods_download (Sample.allied "100" 0) Sample.metamod
    "https://mms.alliedmods.net/mmsdrop" "1.11" "mmsource-latest-linux" Sample.fresh_install
  = bind (_download_file (Sample.allied "100" 0)
            "https://mms.alliedmods.net/mmsdrop/1.11/mmsource.tar.gz" Sample.metamod)
      (fun _ => ret true)
      (add_log INFO (MsgDownloadingFrom "https://mms.alliedmods.net/mmsdrop/1.11/mmsource.tar.gz")
         (add_log DEBUG (MsgHeaders [])
            (add_call (GET "https://mms.alliedmods.net/mmsdrop/1.11/mmsource-latest-linux" false)
               Sample.fresh_install))).
Proof.
  apply (allied_first_install (Sample.allied "100" 0) Sample.metamod
           "https://mms.alliedmods.net/mmsdrop" "1.11" "mmsource-latest-linux"
           Sample.fresh_install
           (Sample.reply 200 (list_byte_of_string "mmsource.tar.gz") None)
           "mmsource.tar.gz"); reflexivity.
Defined.


(** ** [update_server_cfg_settings] *)

Lemma concat_lines_app l1 l2 :
  concat_lines (l1 ++ l2) = concat_lines l1 +:+ concat_lines l2.
Proof.
  induction l1 as [|l l1 IH]; simpl; [done|].
  by rewrite IH, string_app_assoc.
Qed.

Lemma starts_with_slash_app a b :
  starts_with_slash (a +:+ b)
  = if String.eqb a "" then starts_with_slash b else starts_with_slash a.
Proof. by destruct a. Qed.

Lemma leading_slashes_cons a s :
  leading_slashes (String a s) = if Ascii.eqb a "/" then S (leading_slashes s) else 0%nat.
Proof. reflexivity. Qed.

Lemma leading_slashes_cfg g x :
  leading_slashes (g +:+ "/cfg" +:+ x) = leading_slashes (g +:+ "/cfg").
Proof.
  induction g as [|a g IH]; [done|].
  change (String a g +:+ "/cfg" +:+ x) with (String a (g +:+ "/cfg" +:+ x)).
  change (String a g +:+ "/cfg") with (String a (g +:+ "/cfg")).
  rewrite !leading_slashes_cons. by rewrite IH.
Qed.

(** The paths of [update_server_cfg_settings]: the directory [cfg] of the
    game, and in it [server.cfg] and [server.cfg.new]. *)
Lemma cfg_paths working_dir game_path :
  ∃ r base,
    root_like r ∧ Forall component base
    ∧ absolute working_dir (game_path +:+ "/cfg") = render r (base ++ ["cfg"])
    ∧ absolute working_dir (game_path +:+ "/cfg/server.cfg")
      = render r ((base ++ ["cfg"]) ++ ["server.cfg"])
    ∧ normal_form (absolute working_dir (game_path +:+ "/cfg/server.cfg") +:+ ".new")
      = render r ((base ++ ["cfg"]) ++ ["server.cfg.new"]).
Proof.
  assert (Hfile : game_path +:+ "/cfg/server.cfg" = game_path +:+ "/cfg" +:+ "/server.cfg")
    by done.
  assert (Hstart : starts_with_slash (game_path +:+ "/cfg/server.cfg")
                   = starts_with_slash (game_path +:+ "/cfg")).
  { rewrite !starts_with_slash_app. by destruct (String.eqb game_path ""). }
  assert (Hroot : path_root (game_path +:+ "/cfg/server.cfg")
                  = path_root (game_path +:+ "/cfg")).
  { unfold path_root. by rewrite Hfile, leading_slashes_cfg. }
  assert (Hparts_dir : path_parts (game_path +:+ "/cfg") = path_parts game_path ++ ["cfg"]).
  { change (game_path +:+ "/cfg") with (game_path +:+ String "/" "cfg").
    by rewrite path_parts_app. }
  assert (Hparts_file : path_parts (game_path +:+ "/cfg/server.cfg")
                        = (path_parts game_path ++ ["cfg"]) ++ ["server.cfg"]).
  { change (game_path +:+ "/cfg/server.cfg")
      with (game_path +:+ String "/" "cfg/server.cfg").
    rewrite path_parts_app. by rewrite <- app_assoc. }
  destruct (absolute_render working_dir (game_path +:+ "/cfg"))
    as (r & base & Hr & Hbase & Hdir & Hrb).
  destruct (absolute_render working_dir (game_path +:+ "/cfg/server.cfg"))
    as (r' & base' & _ & _ & Hin & Hrb').
  rewrite Hstart, Hroot, <- Hrb in Hrb'. injection Hrb' as -> ->.
  rewrite Hparts_dir in Hdir. rewrite Hparts_file in Hin.
  exists r, (base ++ path_parts game_path).
  assert (Hcomp : Forall component (base ++ path_parts game_path)).
  { apply Forall_app. split; [done|apply path_parts_components]. }
  assert (Hcfg : component "cfg") by done.
  split_and!; [done|done| | |].
  - by rewrite Hdir, app_assoc.
  - by rewrite Hin, !app_assoc.
  - rewrite Hin, !app_assoc, render_snoc_app.
    apply normal_form_render; [done|].
    apply Forall_app. split; [|by repeat constructor].
    apply Forall_app. split; [done|by repeat constructor].
Qed.

Lemma cfg_paths_facts working_dir game_path :
  let infile := absolute working_dir (game_path +:+ "/cfg/server.cfg") in
  let outfile := normal_form (infile +:+ ".new") in
  let dir := absolute working_dir (game_path +:+ "/cfg") in
  infile ≠ outfile ∧ path_parent infile = dir ∧ path_parent outfile = dir
  ∧ dir ≠ infile ∧ dir ≠ outfile.
Proof.
  intros infile outfile dir.
  destruct (cfg_paths working_dir game_path) as (r & base & Hr & Hbase & Hdir & Hin & Hout).
  fold dir in Hdir. fold infile in Hin, Hout. fold outfile in Hout.
  assert (Hd : Forall component (base ++ ["cfg"])).
  { apply Forall_app. split; [done|by repeat constructor]. }
  assert (Hi : Forall component ((base ++ ["cfg"]) ++ ["server.cfg"])).
  { apply Forall_app. split; [done|by repeat constructor]. }
  assert (Ho : Forall component ((base ++ ["cfg"]) ++ ["server.cfg.new"])).
  { apply Forall_app. split; [done|by repeat constructor]. }
  assert (Hname_d : path_name dir = "cfg").
  { by rewrite Hdir, (path_name_render _ _ Hr Hd), last_snoc'. }
  assert (Hname_i : path_name infile = "server.cfg").
  { by rewrite Hin, (path_name_render _ _ Hr Hi), last_snoc'. }
  assert (Hname_o : path_name outfile = "server.cfg.new").
  { by rewrite Hout, (path_name_render _ _ Hr Ho), last_snoc'. }
  split_and!.
  - intros Heq. rewrite Heq, Hname_o in Hname_i. discriminate.
  - by rewrite Hin, (path_parent_render _ _ Hr Hi), removelast_snoc.
  - by rewrite Hout, (path_parent_render _ _ Hr Ho), removelast_snoc.
  - intros Heq. rewrite Heq, Hname_i in Hname_d. discriminate.
  - intros Heq. rewrite Heq, Hname_o in Hname_d. discriminate.
Qed.

Lemma cfg_paths_differ working_dir game_path :
  absolute working_dir (game_path +:+ "/cfg/server.cfg")
  ≠ normal_form (absolute working_dir (game_path +:+ "/cfg/server.cfg") +:+ ".new").
Proof. apply cfg_paths_facts. Qed.

Lemma cfg_outfile_parent working_dir game_path :
  path_parent (normal_form (absolute working_dir (game_path +:+ "/cfg/server.cfg")
                            +:+ ".new"))
  = absolute working_dir (game_path +:+ "/cfg").
Proof. apply cfg_paths_facts. Qed.

Lemma cfg_infile_parent working_dir game_path :
  path_parent (absolute working_dir (game_path +:+ "/cfg/server.cfg"))
  = absolute working_dir (game_path +:+ "/cfg").
Proof. apply cfg_paths_facts. Qed.

Lemma text_write_ok p s (t : gmap string text_node) c :
  t !! p = Some (TFile c) → text_write p s t = (Ok tt, <[p := TFile (c +:+ s)]> t).
Proof. intros H. unfold text_write. by rewrite H. Qed.

Lemma get_is_Some_keys {V} (d : PyDict.t V) k : k ∈ PyDict.keys d → is_Some (PyDict.get d k).
Proof.
  intros Hin. destruct (PyDict.get d k) eqn:E; [by eexists|].
  by apply PyDictFacts.get_None_keys in E.
Qed.

Lemma remove_first_subseteq k keys x : x ∈ remove_first k keys → x ∈ keys.
Proof.
  induction keys as [|k' keys IH]; simpl; [done|].
  destruct (String.eqb k' k).
  - apply list_elem_of_further.
  - rewrite !elem_of_cons. intros [->|H]; [by left|right; by apply IH].
Qed.

(** With every pending key a key of [settings], the body of the loop does
    not raise, and leaves pending keys that are keys of [settings]. *)
Lemma patch_line_ok settings keys line :
  (∀ k, k ∈ keys → is_Some (PyDict.get settings k)) →
  ∃ line' keys', patch_line settings keys line = Ok (line', keys')
                 ∧ ∀ k, k ∈ keys' → k ∈ keys.
Proof.
  intros Hdom. unfold patch_line.
  destruct (negb (String.prefix "//" line)); [|by eexists _, _].
  destruct (first_token line) as [k|]; [|by eexists _, _].
  case_bool_decide as Hin; [|by eexists _, _].
  unfold setting. destruct (Hdom k Hin) as [v ->].
  eexists _, _. split; [done|]. intros k'. apply remove_first_subseteq.
Qed.

Lemma patch_loop_ok settings out_p keys lines (t : gmap string text_node) c :
  (∀ k, k ∈ keys → is_Some (PyDict.get settings k)) →
  t !! out_p = Some (TFile c) →
  patch_loop settings out_p keys lines t
  = (Ok (patched_lines settings keys lines).2,
     <[out_p := TFile (c +:+ concat_lines (patched_lines settings keys lines).1)]> t).
Proof.
  revert keys t c. induction lines as [|line rest IH]; intros keys t c Hdom Hc; simpl.
  - unfold tret. by rewrite string_app_nil_r, insert_id.
  - destruct (patch_line_ok settings keys line Hdom) as (line' & keys' & -> & Hsub).
    unfold tbind. rewrite (text_write_ok _ _ _ _ Hc).
    rewrite (IH keys' _ (c +:+ line')); [|by auto|apply lookup_insert_eq].
    destruct (patched_lines settings keys' rest) as [out remaining]. simpl.
    by rewrite insert_insert_eq, string_app_assoc.
Qed.

Lemma patched_lines_remaining settings keys lines :
  (∀ k, k ∈ keys → is_Some (PyDict.get settings k)) →
  ∀ k, k ∈ (patched_lines settings keys lines).2 → k ∈ keys.
Proof.
  revert keys. induction lines as [|line rest IH]; intros keys Hdom k; simpl; [done|].
  destruct (patch_line_ok settings keys line Hdom) as (line' & keys' & -> & Hsub).
  specialize (IH keys' (fun k Hk => Hdom k (Hsub k Hk)) k).
  destruct (patched_lines settings keys' rest) as [out remaining]. simpl in *. auto.
Qed.

Lemma append_settings_ok settings out_p keys (t : gmap string text_node) c :
  (∀ k, k ∈ keys → is_Some (PyDict.get settings k)) →
  t !! out_p = Some (TFile c) →
  append_settings settings out_p keys t
  = (Ok tt, <[out_p := TFile (c +:+ concat_lines (pending_lines settings keys))]> t).
Proof.
  revert t c. induction keys as [|k keys IH]; intros t c Hdom Hc; simpl.
  - unfold tret. by rewrite string_app_nil_r, insert_id.
  - unfold setting, pending_lines. simpl.
    destruct (Hdom k (list_elem_of_here _ _)) as [v Hv]. rewrite Hv. simpl.
    assert (Hrest : ∀ k', k' ∈ keys → is_Some (PyDict.get settings k'))
      by (intros k' Hk'; apply Hdom; by apply list_elem_of_further).
    unfold tbind. destruct (setting_line k v) as [l|].
    + rewrite (text_write_ok _ _ _ _ Hc).
      rewrite (IH _ (c +:+ l)); [|done|apply lookup_insert_eq].
      simpl. by rewrite insert_insert_eq, string_app_assoc.
    + unfold tret. by rewrite (IH _ c).
Qed.

Lemma append_execs_ok out_p exec_configs (t : gmap string text_node) c :
  t !! out_p = Some (TFile c) →
  append_execs out_p exec_configs t
  = (Ok tt,
     <[out_p := TFile (c +:+ concat_lines ((fun config => "exec " +:+ config +:+ linesep)
                                             <$> exec_configs))]> t).
Proof.
  revert t c. induction exec_configs as [|config rest IH]; intros t c Hc; simpl.
  - unfold tret. by rewrite string_app_nil_r, insert_id.
  - unfold tbind. rewrite (text_write_ok _ _ _ _ Hc).
    rewrite (IH _ (c +:+ "exec " +:+ config +:+ linesep)); [|apply lookup_insert_eq].
    rewrite insert_insert_eq. do 3 f_equal.
    by rewrite !string_app_assoc.
Qed.

(** The second block and the rename, from a file opened at [outfile] with
    the content [c0] *)
Lemma cfg_finish settings exec_configs keys infile outfile (t : gmap string text_node) c0 :
  (∀ k, k ∈ keys → is_Some (PyDict.get settings k)) →
  infile ≠ outfile →
  t !! outfile = Some (TFile c0) →
  (t !! infile = None → text_check_parent infile t = Ok tt) →
  (∀ n, t !! infile = Some n → n ≠ TDir) →
  tbind (open_for_writing false outfile) (fun _ =>
  tbind (append_settings settings outfile keys) (fun _ =>
  tbind (append_execs outfile exec_configs) (fun _ =>
  tbind (text_write outfile ("writeid" +:+ linesep)) (fun _ =>
  tbind (text_write outfile ("writeip" +:+ linesep)) (fun _ =>
  text_rename outfile infile))))) t
  = (Ok tt,
     <[infile := TFile (c0 +:+ concat_lines (pending_lines settings keys)
                           +:+ trailer exec_configs)]> (delete outfile t)).
Proof.
  intros Hdom Hne Hout Hparent Hnodir.
  unfold tbind at 1. unfold open_for_writing. rewrite Hout.
  unfold tbind at 1. rewrite (append_settings_ok _ _ _ _ c0 Hdom Hout).
  unfold tbind at 1. erewrite append_execs_ok by apply lookup_insert_eq.
  rewrite insert_insert_eq.
  unfold tbind at 1. erewrite text_write_ok by apply lookup_insert_eq.
  rewrite insert_insert_eq.
  unfold tbind at 1. erewrite text_write_ok by apply lookup_insert_eq.
  rewrite insert_insert_eq.
  unfold text_rename. rewrite lookup_insert_eq, lookup_insert_ne by done.
  assert (Hcontent :
    ((((c0 +:+ concat_lines (pending_lines settings keys))
       +:+ concat_lines ((fun config => "exec " +:+ config +:+ linesep) <$> exec_configs))
      +:+ "writeid" +:+ linesep) +:+ "writeip" +:+ linesep)
    = c0 +:+ concat_lines (pending_lines settings keys) +:+ trailer exec_configs).
  { unfold trailer. by rewrite !string_app_assoc. }
  rewrite Hcontent, delete_insert_eq.
  destruct (t !! infile) as [[|c]|] eqn:Hin.
  - by destruct (Hnodir TDir eq_refl).
  - done.
  - assert (text_check_parent infile
              (<[outfile := TFile (c0 +:+ concat_lines (pending_lines settings keys)
                                      +:+ trailer exec_configs)]> t) = Ok tt) as ->; [|done].
    specialize (Hparent eq_refl). unfold text_check_parent in *.
    destruct (decide (outfile = path_parent infile)) as [Heq|Hneq].
    + rewrite <- Heq in Hparent. by rewrite Hout in Hparent.
    + by rewrite lookup_insert_ne.
Qed.

(** The whole method on an existing [server.cfg] *)
Lemma cfg_existing working_dir game_path settings exec_configs (t : gmap string text_node) c :
  let infile := absolute working_dir (game_path +:+ "/cfg/server.cfg") in
  let outfile := normal_form (infile +:+ ".new") in
  let patched := patched_lines settings (PyDict.keys settings)
                   (readlines (universal_newlines c)) in
  t !! infile = Some (TFile c) →
  t !! absolute working_dir (game_path +:+ "/cfg") = Some TDir →
  t !! outfile ≠ Some TDir →
  update_server_cfg_settings working_dir game_path settings exec_configs t
  = (Ok tt,
     <[infile := TFile (concat_lines patched.1
                        +:+ concat_lines (pending_lines settings patched.2)
                        +:+ trailer exec_configs)]> (delete outfile t)).
Proof.
  intros infile outfile patched Hin Hdir Hout.
  assert (Hne : infile ≠ outfile) by apply cfg_paths_differ.
  assert (Hdom : ∀ k, k ∈ PyDict.keys settings → is_Some (PyDict.get settings k))
    by apply get_is_Some_keys.
  unfold update_server_cfg_settings. fold infile. fold outfile.
  unfold tbind at 1. unfold text_exists. rewrite Hin.
  unfold tbind at 1. unfold tbind at 1. unfold open_r. rewrite Hin.
  assert (Hopen : open_for_writing true outfile t = (Ok tt, <[outfile := TFile ""]> t)).
  { unfold open_for_writing. destruct (t !! outfile) as [[|c0]|] eqn:E; [done|done|].
    unfold text_check_parent. unfold outfile, infile.
    by rewrite cfg_outfile_parent, Hdir. }
  unfold tbind at 1. rewrite Hopen.
  rewrite (patch_loop_ok settings outfile _ _ _ "" Hdom) by apply lookup_insert_eq.
  fold patched. rewrite insert_insert_eq.
  rewrite (cfg_finish settings exec_configs _ infile outfile _
             ("" +:+ concat_lines patched.1)).
  - by rewrite delete_insert_eq.
  - intros k Hk. apply Hdom. revert Hk. by apply patched_lines_remaining.
  - done.
  - apply lookup_insert_eq.
  - rewrite lookup_insert_ne by done. by rewrite Hin.
  - rewrite lookup_insert_ne by done. rewrite Hin. by intros n [= <-].
Qed.

Lemma patched_lines_cons settings keys line rest line' keys' :
  patch_line settings keys line = Ok (line', keys') →
  patched_lines settings keys (line :: rest)
  = (line' :: (patched_lines settings keys' rest).1, (patched_lines settings keys' rest).2).
Proof.
  intros H. simpl. rewrite H. by destruct (patched_lines settings keys' rest).
Qed.

Lemma patched_lines_length settings keys lines :
  (∀ k, k ∈ keys → is_Some (PyDict.get settings k)) →
  length (patched_lines settings keys lines).1 = length lines.
Proof.
  revert keys. induction lines as [|line rest IH]; intros keys Hdom; [done|].
  destruct (patch_line_ok settings keys line Hdom) as (line' & keys' & Hpl & Hsub).
  rewrite (patched_lines_cons _ _ _ _ _ _ Hpl). simpl.
  by rewrite IH by auto.
Qed.

(** A line that is a comment, or whose first word is no key of a setting
    that has a line of its own, is written as it is. *)
Lemma patch_line_keeps settings keys line :
  (String.prefix "//" line = true
   ∨ ∀ k v, first_token line = Some k → PyDict.get settings k = Some v →
            setting_line k v = None) →
  ∀ line' keys', patch_line settings keys line = Ok (line', keys') → line' = line.
Proof.
  intros Hkeep line' keys'. unfold patch_line.
  destruct (String.prefix "//" line) eqn:Hc; simpl; [by intros [= <- _]|].
  destruct Hkeep as [|Hkeep]; [done|].
  destruct (first_token line) as [k|]; [|by intros [= <- _]].
  case_bool_decide; [|by intros [= <- _]].
  unfold setting. destruct (PyDict.get settings k) as [v|] eqn:Hv; [|done].
  rewrite (Hkeep k v eq_refl Hv). by intros [= <- _].
Qed.

Lemma patched_lines_keeps settings keys lines i line :
  (∀ k, k ∈ keys → is_Some (PyDict.get settings k)) →
  lines !! i = Some line →
  (String.prefix "//" line = true
   ∨ ∀ k v, first_token line = Some k → PyDict.get settings k = Some v →
            setting_line k v = None) →
  (patched_lines settings keys lines).1 !! i = Some line.
Proof.
  revert keys i. induction lines as [|l rest IH]; intros keys i Hdom Hi Hkeep; [done|].
  destruct (patch_line_ok settings keys l Hdom) as (line' & keys' & Hpl & Hsub).
  rewrite (patched_lines_cons _ _ _ _ _ _ Hpl).
  destruct i as [|i]; simpl in *.
  - injection Hi as ->. f_equal. by eapply patch_line_keeps.
  - apply IH; auto.
Qed.

Lemma remove_first_NoDup k keys : NoDup keys → NoDup (remove_first k keys).
Proof.
  intros Hnd0. induction Hnd0 as [|k' keys Hk' Hnd IH]; simpl; [apply NoDup_nil_2|].
  destruct (String.eqb k' k); [done|].
  apply NoDup_cons. split; [|done]. intros Hin. by apply remove_first_subseteq in Hin.
Qed.

Lemma remove_first_gone k keys : NoDup keys → k ∉ remove_first k keys.
Proof.
  intros Hnd0. induction Hnd0 as [|k' keys Hk' Hnd IH]; simpl; [apply not_elem_of_nil|].
  destruct (String.eqb_spec k' k) as [->|Hne]; [done|].
  rewrite not_elem_of_cons. split; [congruence|done].
Qed.

Lemma remove_first_other k k' keys : k ≠ k' → k ∈ keys → k ∈ remove_first k' keys.
Proof.
  intros Hne. induction keys as [|k0 keys IH]; simpl; [done|].
  rewrite elem_of_cons. intros [<-|Hin].
  - destruct (String.eqb_spec k k') as [|_]; [done|]. apply list_elem_of_here.
  - destruct (String.eqb k0 k'); [done|]. apply list_elem_of_further. by apply IH.
Qed.

(** What the body of the loop does to the key [k], by whether the line
    names it *)
Lemma patch_line_cases settings keys line k :
  NoDup keys →
  (∀ k, k ∈ keys → is_Some (PyDict.get settings k)) →
  ∃ line' keys', patch_line settings keys line = Ok (line', keys')
    ∧ NoDup keys'
    ∧ (∀ k0, k0 ∈ keys' → k0 ∈ keys)
    ∧ (names_setting k line = false → (k ∈ keys → k ∈ keys'))
    ∧ (names_setting k line = true → k ∉ keys → line' = line)
    ∧ (names_setting k line = true → k ∈ keys →
       (k ∉ keys')
       ∧ (∀ v l, PyDict.get settings k = Some v → setting_line k v = Some l → line' = l)).
Proof.
  intros Hnd Hdom. unfold names_setting, patch_line.
  destruct (String.prefix "//" line); simpl.
  { eexists _, _. split_and!; done. }
  destruct (first_token line) as [k'|]; [|by eexists _, _; split_and!].
  case_bool_decide as Hin.
  - unfold setting. destruct (Hdom k' Hin) as [v' Hv']. rewrite Hv'.
    eexists _, _. split; [done|]. split_and!.
    + by apply remove_first_NoDup.
    + intros k0. apply remove_first_subseteq.
    + intros Hne Hk. apply String.eqb_neq in Hne. by apply remove_first_other.
    + intros Heq Hk. apply String.eqb_eq in Heq as ->. done.
    + intros Heq Hk. apply String.eqb_eq in Heq as ->. split.
      * by apply remove_first_gone.
      * intros v l Hv Hl. rewrite Hv in Hv'. injection Hv' as <-. by rewrite Hl.
  - eexists _, _. split; [done|]. split_and!; try done.
    intros Heq Hk. apply String.eqb_eq in Heq as ->. done.
Qed.

(** Once [k] is no longer pending, the lines that name it are written as
    they are, and [k] is not left pending. *)
Lemma patched_lines_after settings keys lines k :
  NoDup keys →
  (∀ k, k ∈ keys → is_Some (PyDict.get settings k)) →
  k ∉ keys →
  (k ∉ (patched_lines settings keys lines).2)
  ∧ (∀ j line, lines !! j = Some line → names_setting k line = true →
       (patched_lines settings keys lines).1 !! j = Some line).
Proof.
  revert keys. induction lines as [|l rest IH]; intros keys Hnd Hdom Hk; [done|].
  destruct (patch_line_cases settings keys l k Hnd Hdom)
    as (line' & keys' & Hpl & Hnd' & Hsub & _ & Hsame & _).
  rewrite (patched_lines_cons _ _ _ _ _ _ Hpl). simpl.
  destruct (IH keys' Hnd' (fun k0 Hk0 => Hdom k0 (Hsub k0 Hk0))) as [Hrem Hlater].
  { intros Hin. by apply Hk, Hsub. }
  split; [done|]. intros [|j] line; simpl.
  - intros [= ->] Hnames. f_equal. by apply Hsame.
  - apply Hlater.
Qed.

(** The first line that names a pending key [k] is replaced by the line of
    its setting; the later ones are kept; and [k] is left pending exactly
    when no line names it. *)
Lemma patched_lines_first settings keys lines k :
  NoDup keys →
  (∀ k, k ∈ keys → is_Some (PyDict.get settings k)) →
  k ∈ keys →
  (k ∈ (patched_lines settings keys lines).2
   ↔ ∀ j line, lines !! j = Some line → names_setting k line = false)
  ∧ ∀ i line, lines !! i = Some line → names_setting k line = true →
      (∀ j line', (j < i)%nat → lines !! j = Some line' → names_setting k line' = false) →
      (∀ v l, PyDict.get settings k = Some v → setting_line k v = Some l →
         (patched_lines settings keys lines).1 !! i = Some l)
      ∧ ∀ j line', (i < j)%nat → lines !! j = Some line' → names_setting k line' = true →
          (patched_lines settings keys lines).1 !! j = Some line'.
Proof.
  revert keys. induction lines as [|l rest IH]; intros keys Hnd Hdom Hk.
  { simpl. split; [|done]. split; [done|by intros _]. }
  destruct (patch_line_cases settings keys l k Hnd Hdom)
    as (line' & keys' & Hpl & Hnd' & Hsub & Hstay & _ & Hhit).
  assert (Hdom' : ∀ k0, k0 ∈ keys' → is_Some (PyDict.get settings k0))
    by (intros k0 Hk0; apply Hdom, Hsub, Hk0).
  rewrite (patched_lines_cons _ _ _ _ _ _ Hpl). simpl.
  destruct (names_setting k l) eqn:Hnames.
  - (* the first line names [k] *)
    destruct (Hhit eq_refl Hk) as [Hgone Hline].
    destruct (patched_lines_after settings keys' rest k Hnd' Hdom' Hgone) as [Hrem Hlater].
    split.
    + split; [done|]. intros Hnone. specialize (Hnone O l eq_refl). congruence.
    + intros [|i] line; simpl.
      * intros [= ->] _ _. split.
        -- intros v lk Hv Hl. f_equal. by eapply Hline.
        -- intros [|j] line2 Hj; [lia|]. simpl. apply Hlater.
      * intros _ _ Hfirst. specialize (Hfirst O l ltac:(lia) eq_refl). congruence.
  - destruct (IH keys' Hnd' Hdom' (Hstay eq_refl Hk)) as [Hrem Hfirst].
    split.
    + rewrite Hrem. split.
      * intros Hnone [|j] line; simpl; [by intros [= <-]|]. apply Hnone.
      * intros Hnone j line Hj. by apply (Hnone (S j)).
    + intros [|i] line; simpl.
      * intros [= ->] Hn. congruence.
      * intros Hi Hn Hbefore.
        destruct (Hfirst i line Hi Hn) as [Hrepl Hkept].
        { intros j line2 Hj. apply (Hbefore (S j)). lia. }
        split; [done|].
        intros [|j] line2 Hj; [lia|]. simpl. apply Hkept. lia.
Qed.

Example cfg_run :
  update_server_cfg_settings More.home More.game More.new_settings default_exec_configs
    (More.with_server_cfg More.old_cfg)
  = (Ok tt, More.with_server_cfg More.new_cfg).
Proof. vm_compute. reflexivity. Qed.

(** The game path as a string: with a trailing slash, or relative to the
    working directory, the same [server.cfg] is rewritten. *)
Example cfg_run_other_spellings :
  update_server_cfg_settings More.home "/srv/game/" More.new_settings default_exec_configs
    (More.with_server_cfg More.old_cfg)
  = (Ok tt, More.with_server_cfg More.new_cfg)
  ∧ update_server_cfg_settings "/srv" "game" More.new_settings default_exec_configs
      (More.with_server_cfg More.old_cfg)
    = (Ok tt, More.with_server_cfg More.new_cfg).
Proof. split; vm_compute; reflexivity. Qed.

Example readlines_last_line_unterminated :
  readlines (universal_newlines ("a" +:+ String CR (String LF "b") +:+ String CR "c"))
  = ["a" +:+ linesep; "b" +:+ linesep; "c"].
Proof. vm_compute. reflexivity. Qed.

Example first_token_of_indented_line :
  first_token (String (ascii_of_nat 9) "  sv_lan 0" +:+ linesep) = Some "sv_lan".
Proof. vm_compute. reflexivity. Qed.

Lemma filter_ext_elem (P Q : string → bool) (l : list string) :
  (∀ x, x ∈ l → P x = Q x) → List.filter P l = List.filter Q l.
Proof.
  induction l as [|x l IH]; intros H; simpl; [done|].
  rewrite (H x) by apply list_elem_of_here.
  rewrite IH; [done|]. intros y Hy. apply H. by apply list_elem_of_further.
Qed.

Lemma filter_remove_first (P : string → bool) k' keys :
  NoDup keys →
  List.filter P (remove_first k' keys)
  = List.filter (fun k => negb (String.eqb k' k) && P k) keys.
Proof.
  intros Hnd. induction Hnd as [|k0 keys Hk0 Hnd IH]; simpl; [done|].
  destruct (String.eqb_spec k0 k') as [->|Hne].
  - rewrite String.eqb_refl. simpl.
    apply filter_ext_elem. intros x Hx.
    destruct (String.eqb_spec k' x) as [->|]; [done|done].
  - destruct (String.eqb_spec k' k0) as [->|_]; [done|]. simpl.
    rewrite IH. done.
Qed.

(** The keys left pending by the loop are the keys no line names, in their
    order. *)
Lemma patched_lines_remaining_eq settings keys lines :
  NoDup keys →
  (∀ k, k ∈ keys → is_Some (PyDict.get settings k)) →
  (patched_lines settings keys lines).2
  = List.filter (fun k => forallb (fun line => negb (names_setting k line)) lines) keys.
Proof.
  revert keys. induction lines as [|l rest IH]; intros keys Hnd Hdom.
  { simpl. induction keys as [|k keys IHk]; simpl; [done|].
    f_equal. apply IHk.
    - by apply NoDup_cons in Hnd as [_ ?].
    - intros k0 Hk0. apply Hdom. by apply list_elem_of_further. }
  pose proof (patch_line_ok settings keys l Hdom) as (line' & keys' & Hpl & Hsub).
  rewrite (patched_lines_cons _ _ _ _ _ _ Hpl). simpl fst. simpl snd.
  cbn [forallb].
  revert Hpl. unfold patch_line, names_setting.
  destruct (String.prefix "//" l); simpl.
  { intros [= <- <-]. by apply IH. }
  destruct (first_token l) as [k'|]; [|intros [= <- <-]; by apply IH].
  case_bool_decide as Hin.
  - unfold setting. destruct (Hdom k' Hin) as [v' ->]. intros [= <- <-].
    rewrite IH.
    + by apply filter_remove_first.
    + by apply remove_first_NoDup.
    + intros k0 Hk0. apply Hdom. by apply remove_first_subseteq in Hk0.
  - intros [= <- <-]. rewrite IH by done.
    apply filter_ext_elem. intros x Hx.
    destruct (String.eqb_spec k' x) as [->|]; [done|done].
Qed.

(** On an existing [server.cfg], the new file starts with as many lines as
    the old one has, and every line that is a comment, or whose first word
    is not the key of a setting with a [str] or [int] value, is copied as
    it is, at its place; the [.new] file is gone. *)
Theorem cfg_other_lines_kept working_dir game_path settings exec_configs
    (t : gmap string text_node) c :
  let infile := absolute working_dir (game_path +:+ "/cfg/server.cfg") in
  let outfile := normal_form (infile +:+ ".new") in
  let lines := readlines (universal_newlines c) in
  t !! infile = Some (TFile c) →
  t !! absolute working_dir (game_path +:+ "/cfg") = Some TDir →
  t !! outfile ≠ Some TDir →
  ∃ out tail,
    update_server_cfg_settings working_dir game_path settings exec_configs t
    = (Ok tt, <[infile := TFile (concat_lines out +:+ tail)]> (delete outfile t))
    ∧ length out = length lines
    ∧ ∀ i line, lines !! i = Some line →
        (String.prefix "//" line = true
         ∨ ∀ k v, first_token line = Some k → PyDict.get settings k = Some v →
                  setting_line k v = None) →
        out !! i = Some line.
Proof.
  intros infile outfile lines Hin Hdir Hout.
  assert (Hdom : ∀ k, k ∈ PyDict.keys settings → is_Some (PyDict.get settings k))
    by apply get_is_Some_keys.
  eexists _, _. split; [by apply cfg_existing|]. split.
  - by apply patched_lines_length.
  - intros i line Hi Hkeep. by apply patched_lines_keeps.
Qed.

Lemma cfg_other_lines_kept_witness :
  ∃ out tail,
    update_server_cfg_settings More.home More.game More.new_settings default_exec_configs
      (More.with_server_cfg More.old_cfg)
    = (Ok tt,
       <[More.game +:+ "/cfg/server.cfg" := TFile (concat_lines out +:+ tail)]>
         (delete ((More.game +:+ "/cfg/server.cfg") +:+ ".new")
            (More.with_server_cfg More.old_cfg)))
    ∧ length out = length (readlines (universal_newlines More.old_cfg))
    ∧ ∀ i line, readlines (universal_newlines More.old_cfg) !! i = Some line →
        (String.prefix "//" line = true
         ∨ ∀ k v, first_token line = Some k → PyDict.get More.new_settings k = Some v →
                  setting_line k v = None) →
        out !! i = Some line.
Proof.
  apply (cfg_other_lines_kept More.home More.game More.new_settings default_exec_configs
           (More.with_server_cfg More.old_cfg) More.old_cfg).
  - vm_compute. reflexivity.
  - vm_compute. reflexivity.
  - vm_compute. discriminate.
Defined.

(** For a setting with a [str] or [int] value, the first line of
    [server.cfg] that names its key is replaced by the line of the setting,
    and every later line that names the same key is left as it was. *)
Theorem cfg_first_occurrence_replaced working_dir game_path settings exec_configs
    (t : gmap string text_node) c k v l :
  let infile := absolute working_dir (game_path +:+ "/cfg/server.cfg") in
  let outfile := normal_form (infile +:+ ".new") in
  let lines := readlines (universal_newlines c) in
  t !! infile = Some (TFile c) →
  t !! absolute working_dir (game_path +:+ "/cfg") = Some TDir →
  t !! outfile ≠ Some TDir →
  NoDup (PyDict.keys settings) →
  PyDict.get settings k = Some v →
  setting_line k v = Some l →
  ∃ out tail,
    update_server_cfg_settings working_dir game_path settings exec_configs t
    = (Ok tt, <[infile := TFile (concat_lines out +:+ tail)]> (delete outfile t))
    ∧ ∀ i line, lines !! i = Some line → names_setting k line = true →
        (∀ j line', (j < i)%nat → lines !! j = Some line' → names_setting k line' = false) →
        out !! i = Some l
        ∧ ∀ j line', (i < j)%nat → lines !! j = Some line' → names_setting k line' = true →
            out !! j = Some line'.
Proof.
  intros infile outfile lines Hin Hdir Hout Hnd Hv Hl.
  assert (Hdom : ∀ k, k ∈ PyDict.keys settings → is_Some (PyDict.get settings k))
    by apply get_is_Some_keys.
  assert (Hk : k ∈ PyDict.keys settings).
  { destruct (decide (k ∈ PyDict.keys settings)) as [|Hn]; [done|].
    apply PyDictFacts.get_None_keys in Hn. congruence. }
  eexists _, _. split; [by apply cfg_existing|].
  intros i line Hi Hnames Hfirst.
  destruct (patched_lines_first settings (PyDict.keys settings) lines k Hnd Hdom Hk)
    as [_ Hrepl].
  destruct (Hrepl i line Hi Hnames Hfirst) as [Hline Hlater].
  split; [by apply (Hline v l)|exact Hlater].
Qed.

Lemma cfg_first_occurrence_replaced_witness :
  ∃ out tail,
    update_server_cfg_settings More.home More.game More.new_settings default_exec_configs
      (More.with_server_cfg More.old_cfg)
    = (Ok tt,
       <[More.game +:+ "/cfg/server.cfg" := TFile (concat_lines out +:+ tail)]>
         (delete ((More.game +:+ "/cfg/server.cfg") +:+ ".new")
            (More.with_server_cfg More.old_cfg)))
    ∧ ∀ i line, readlines (universal_newlines More.old_cfg) !! i = Some line →
        names_setting "hostname" line = true →
        (∀ j line', (j < i)%nat →
           readlines (universal_newlines More.old_cfg) !! j = Some line' →
           names_setting "hostname" line' = false) →
        out !! i = Some ("hostname " +:+ dquote +:+ "new" +:+ dquote +:+ linesep)
        ∧ ∀ j line', (i < j)%nat →
            readlines (universal_newlines More.old_cfg) !! j = Some line' →
            names_setting "hostname" line' = true →
            out !! j = Some line'.
Proof.
  apply (cfg_first_occurrence_replaced More.home More.game More.new_settings default_exec_configs
           (More.with_server_cfg More.old_cfg) More.old_cfg "hostname" (SStr "new")).
  - vm_compute. reflexivity.
  - vm_compute. reflexivity.
  - vm_compute. discriminate.
  - apply (bool_decide_unpack _). vm_compute. exact I.
  - reflexivity.
  - reflexivity.
Defined.

(** After the lines of the old file come the lines of the settings that no
    line of the old file names, in the order of the dictionary and only
    for [str] and [int] values, then one [exec] line per configuration,
    then [writeid] and [writeip]. *)
Theorem cfg_unnamed_settings_appended working_dir game_path settings exec_configs
    (t : gmap string text_node) c :
  let infile := absolute working_dir (game_path +:+ "/cfg/server.cfg") in
  let outfile := normal_form (infile +:+ ".new") in
  let lines := readlines (universal_newlines c) in
  let unnamed :=
    List.filter (fun k => forallb (fun line => negb (names_setting k line)) lines)
      (PyDict.keys settings) in
  t !! infile = Some (TFile c) →
  t !! absolute working_dir (game_path +:+ "/cfg") = Some TDir →
  t !! outfile ≠ Some TDir →
  NoDup (PyDict.keys settings) →
  ∃ out,
    update_server_cfg_settings working_dir game_path settings exec_configs t
    = (Ok tt,
       <[infile := TFile (concat_lines out
                          +:+ concat_lines (pending_lines settings unnamed)
                          +:+ trailer exec_configs)]> (delete outfile t))
    ∧ length out = length lines.
Proof.
  intros infile outfile lines unnamed Hin Hdir Hout Hnd.
  assert (Hdom : ∀ k, k ∈ PyDict.keys settings → is_Some (PyDict.get settings k))
    by apply get_is_Some_keys.
  eexists. split.
  - rewrite (cfg_existing working_dir game_path settings exec_configs t c Hin Hdir Hout).
    by rewrite patched_lines_remaining_eq.
  - by apply patched_lines_length.
Qed.

Lemma cfg_unnamed_settings_appended_witness :
  ∃ out,
    update_server_cfg_settings More.home More.game More.new_settings default_exec_configs
      (More.with_server_cfg More.old_cfg)
    = (Ok tt,
       <[More.game +:+ "/cfg/server.cfg" :=
           TFile (concat_lines out
                  +:+ concat_lines
                        (pending_lines More.new_settings
                           (List.filter
                              (fun k => forallb (fun line => negb (names_setting k line))
                                          (readlines (universal_newlines More.old_cfg)))
                              (PyDict.keys More.new_settings)))
                  +:+ trailer default_exec_configs)]>
         (delete ((More.game +:+ "/cfg/server.cfg") +:+ ".new")
            (More.with_server_cfg More.old_cfg)))
    ∧ length out = length (readlines (universal_newlines More.old_cfg)).
Proof.
  apply (cfg_unnamed_settings_appended More.home More.game More.new_settings default_exec_configs
           (More.with_server_cfg More.old_cfg) More.old_cfg).
  - vm_compute. reflexivity.
  - vm_compute. reflexivity.
  - vm_compute. discriminate.
  - apply (bool_decide_unpack _). vm_compute. exact I.
Defined.

(** Without a [server.cfg], the new file holds the lines of all the
    settings with a [str] or [int] value, in the order of the dictionary,
    and the closing lines.  A [server.cfg.new] left behind by an earlier
    run is not truncated: what it holds becomes the head of the new
    file. *)
Theorem cfg_without_server_cfg working_dir game_path settings exec_configs
    (t : gmap string text_node) :
  let infile := absolute working_dir (game_path +:+ "/cfg/server.cfg") in
  let outfile := normal_form (infile +:+ ".new") in
  t !! infile = None →
  t !! absolute working_dir (game_path +:+ "/cfg") = Some TDir →
  t !! outfile ≠ Some TDir →
  update_server_cfg_settings working_dir game_path settings exec_configs t
  = (Ok tt,
     <[infile := TFile (match t !! outfile with
                        | Some (TFile stale) => stale
                        | _ => ""
                        end
                        +:+ concat_lines (pending_lines settings (PyDict.keys settings))
                        +:+ trailer exec_configs)]> (delete outfile t)).
Proof.
  intros infile outfile Hin Hdir Hout.
  assert (Hne : infile ≠ outfile) by apply cfg_paths_differ.
  assert (Hdom : ∀ k, k ∈ PyDict.keys settings → is_Some (PyDict.get settings k))
    by apply get_is_Some_keys.
  assert (Hparent : text_check_parent infile t = Ok tt).
  { unfold text_check_parent, infile. by rewrite cfg_infile_parent, Hdir. }
  unfold update_server_cfg_settings. fold infile. fold outfile.
  unfold tbind at 1. unfold text_exists. rewrite Hin.
  unfold tbind at 1. unfold tret at 1.
  destruct (t !! outfile) as [[|stale]|] eqn:E; [done| |].
  - apply cfg_finish; [done..|]. rewrite Hin. by intros n.
  - (* the file is created by [open(..., "a")] *)
    unfold tbind at 1. unfold open_for_writing. rewrite E.
    assert (text_check_parent outfile t = Ok tt) as ->.
    { unfold text_check_parent, outfile, infile. by rewrite cfg_outfile_parent, Hdir. }
    pose proof (cfg_finish settings exec_configs (PyDict.keys settings) infile outfile
                  (<[outfile := TFile ""]> t) "" Hdom Hne) as Hfin.
    unfold tbind at 1 in Hfin. unfold open_for_writing in Hfin.
    rewrite lookup_insert_eq in Hfin.
    rewrite Hfin.
    + by rewrite delete_insert_eq.
    + done.
    + rewrite lookup_insert_ne by done. intros _.
      unfold text_check_parent in *.
      destruct (decide (outfile = path_parent infile)) as [Heq|Hneq].
      * rewrite <- Heq in Hparent. by rewrite E in Hparent.
      * by rewrite lookup_insert_ne.
    + rewrite lookup_insert_ne by done. by rewrite Hin.
Qed.

Lemma cfg_without_server_cfg_witness :
  update_server_cfg_settings More.home More.game More.new_settings default_exec_configs
    (<[(More.game +:+ "/cfg/server.cfg") +:+ ".new" := TFile "stale"]> More.cfg_only)
  = (Ok tt,
     <[More.game +:+ "/cfg/server.cfg" :=
         TFile ("stale"
                +:+ concat_lines (pending_lines More.new_settings
                                    (PyDict.keys More.new_settings))
                +:+ trailer default_exec_configs)]> More.cfg_only).
Proof.
  rewrite (cfg_without_server_cfg More.home More.game More.new_settings default_exec_configs
             (<[(More.game +:+ "/cfg/server.cfg") +:+ ".new" := TFile "stale"]>
                More.cfg_only)).
  - vm_compute. reflexivity.
  - vm_compute. reflexivity.
  - vm_compute. reflexivity.
  - vm_compute. discriminate.
Defined.


(** ** The installer *)

Lemma write_text_inv env p text w r w' :
  write_text env p text w = (r, w') →
  calls w' = calls w ∧ slept w' = slept w ∧ logged w' = logged w
  ∧ (r = Ok tt → ∃ st, fs w' !! p = Some st ∧ st_kind st = RegularFile)
  ∧ (r ≠ Ok tt →
     w' = w
     ∧ (fs w !! p = None
        ∨ ∃ st, fs w !! p = Some st ∧ st_kind st = Directory
                ∧ r = Raise (IsADirectoryError p))).
Proof.
  unfold write_text, bind.
  destruct (open_wb env p w) as [[[]|e] w1] eqn:Hopen.
  - apply open_wb_inv in Hopen as (Hc & Hl & Hs & _ & Hp & _).
    specialize (Hp eq_refl). unfold write. rewrite Hp.
    intros [= <- <-]. simpl. split_and!; try done.
    intros _. eexists. split; [apply lookup_insert_eq|done].
  - intros [= <- <-].
    assert (Hsame : w1 = w).
    { apply open_wb_inv in Hopen as (_ & _ & _ & _ & _ & Hsame). by apply Hsame. }
    subst w1. split_and!; try done.
    intros _. split; [done|].
    unfold open_wb in Hopen.
    destruct (fs w !! p) as [st|] eqn:E; [|by left].
    right. exists st. destruct (st_kind st); [done|].
    injection Hopen as <-. done.
Qed.

Lemma remove_script_inv self h out h' :
  remove_script self h = (out, h') →
  notes h' = notes h ∧ processes h' = processes h ∧ extractions h' = extractions h
  ∧ calls (machine h') = calls (machine h)
  ∧ ((out = Done tt
      ∧ fs (machine h') = delete (steamcmd_script_path self) (fs (machine h))
      ∧ ∀ st, fs (machine h) !! steamcmd_script_path self = Some st →
              st_kind st = RegularFile)
     ∨ (out = Failed (Py (IsADirectoryError (steamcmd_script_path self)))
        ∧ h' = h
        ∧ ∃ st, fs (machine h) !! steamcmd_script_path self = Some st
                ∧ st_kind st = Directory)).
Proof.
  unfold remove_script, hbind, lift, path_exists, unlink.
  destruct h as [w ns ps xs]. unfold set_machine. simpl.
  destruct (fs w !! steamcmd_script_path self) as [st|] eqn:E.
  - simpl. rewrite E. destruct (st_kind st) eqn:Hk; intros [= <- <-]; simpl.
    + split_and!; try done. left. split_and!; try done. by intros st' [= <-].
    + split_and!; try done. right. split_and!; [done|done|by exists st].
  - unfold hret. intros [= <- <-]. simpl. split_and!; try done.
    left. split_and!; [done| |done].
    by rewrite delete_id.
Qed.

Lemma remove_script_then self (k : H unit) h :
  (∀ h', fs (machine (k h').2) = fs (machine h')) →
  let r := (remove_script self >>! k)%host h in
  fs (machine r.2) !! steamcmd_script_path self = None
  ∨ (∃ st, fs (machine r.2) !! steamcmd_script_path self = Some st
           ∧ st_kind st = Directory
           ∧ r.1 = Failed (Py (IsADirectoryError (steamcmd_script_path self)))).
Proof.
  intros Hk. unfold hbind.
  destruct (remove_script self h) as [o h3] eqn:Hr.
  apply remove_script_inv in Hr
    as (_ & _ & _ & _ & [(-> & Hfs & _)|(-> & -> & st & Hst & Hd)]).
  - left. rewrite Hk, Hfs. apply lookup_delete_eq.
  - right. exists st. simpl. done.
Qed.

Lemma install_app_run tl self template_name context h template :
  get_template tl template_name = Some template →
  install_app tl self template_name context h =
  let h0 := add_note (NoteInstalling (app_id self) (server_ref self)) h in
  let data :=
    {| data_username := username self;
       data_password := password self;
       data_app_id := app_id self;
       data_install_path := install_path self;
       data_context := context |} in
  match write_text (remote tl) (steamcmd_script_path self) (template data) (machine h0) with
  | (Ok _, w1) =>
      match run_script tl self (set_machine w1 h0) with
      | (Done _, h2) =>
          (remove_script self >>! LOG_note (NoteFinished (app_id self) (server_ref self)))%host h2
      | (Failed f, h2) => (remove_script self >>! hfail f)%host h2
      end
  | (Raise e, w1) => (Failed (Py e), set_machine w1 h0)
  end.
Proof.
  intros Ht. unfold install_app. rewrite Ht.
  unfold hbind at 1. unfold LOG_note at 1.
  unfold hbind at 1. unfold lift at 1. cbv zeta.
  destruct (write_text _ _ _ _) as [[[]|e] w1]; reflexivity.
Qed.

(** Whenever the template exists, [install_app] leaves no script file
    behind, whether [steamcmd] succeeds, fails, or cannot be started, and
    whatever it does to the files: after the call the script path does not
    exist, unless a directory stands in its place, in which case the call
    has failed with [IsADirectoryError]. *)
Theorem install_app_removes_script tl self template_name context h :
  is_Some (get_template tl template_name) →
  let out := (install_app tl self template_name context h).1 in
  let files := fs (machine (install_app tl self template_name context h).2) in
  files !! steamcmd_script_path self = None
  ∨ (∃ st, files !! steamcmd_script_path self = Some st ∧ st_kind st = Directory
           ∧ out = Failed (Py (IsADirectoryError (steamcmd_script_path self)))).
Proof.
  intros [template Ht]. cbv zeta.
  rewrite (install_app_run _ _ _ _ _ _ Ht). cbv zeta.
  destruct (write_text (remote tl) (steamcmd_script_path self) _ _)
    as [[[]|e] w1] eqn:Hw.
  - (* the script is written *)
    destruct (run_script tl self _) as [[[]|f] h2] eqn:Hrun.
    + by apply remove_script_then.
    + by apply remove_script_then.
  - (* the script cannot be written *)
    simpl.
    apply write_text_inv in Hw as (_ & _ & _ & _ & Hfail).
    destruct Hfail as [-> Hcase]; [done|].
    destruct Hcase as [Hnone|(st & Hst & Hd & [= ->])]; [by left|].
    right. by exists st.
Qed.

Lemma install_app_removes_script_witness :
  fs (machine (install_app More.steam_tools More.l4d2 "base_install_app.j2" []
                 More.clean_host).2) !! steamcmd_script_path More.l4d2 = None
  ∨ (∃ st, fs (machine (install_app More.steam_tools More.l4d2 "base_install_app.j2" []
                          More.clean_host).2) !! steamcmd_script_path More.l4d2 = Some st
           ∧ st_kind st = Directory
           ∧ (install_app More.steam_tools More.l4d2 "base_install_app.j2" []
                More.clean_host).1
             = Failed (Py (IsADirectoryError (steamcmd_script_path More.l4d2)))).
Proof.
  apply (install_app_removes_script More.steam_tools More.l4d2 "base_install_app.j2" []
           More.clean_host).
  by eexists.
Defined.

Lemma already_installed_world env p url w r w' :
  already_installed env p url w = (r, w') → w' = add_call (HEAD url) w.
Proof.
  unfold already_installed, bind, requests_head, requests_call, header, stat, parsedate,
    datetime_sub, ret, raise.
  destruct (respond env (length (calls w)) (HEAD url)) as [resp|e]; [|by intros [= <- <-]].
  destruct (header_value (headers resp) "Content-Length"); [|by intros [= <- <-]].
  change (fs (add_call (HEAD url) w)) with (fs w).
  destruct (fs w !! p) as [st|]; [|by intros [= <- <-]].
  destruct (header_value (headers resp) "Last-Modified") as [lm|]; [|by intros [= <- <-]].
  destruct (parsedate_to_datetime env lm) as [d|e]; [|by intros [= <- <-]].
  change (fs (add_call (HEAD url) w)) with (fs w).
  destruct (fs w !! p) as [st'|]; [|by intros [= <- <-]].
  destruct (Bool.eqb _ _); by intros [= <- <-].
Qed.

(** The requests of one add-on check: the pointer file first, then at most
    one HEAD and one GET; never a POST. *)
Lemma _allied_mods_download_calls env p url_prefix version latest_suffix w r w' :
  _allied_mods_download env p url_prefix version latest_suffix w = (r, w') →
  ∃ rest,
    calls w' = calls w
               ++ GET (url_prefix +:+ "/" +:+ version +:+ "/" +:+ latest_suffix) false :: rest
    ∧ Forall (fun q => is_post q = false) rest.
Proof.
  unfold _allied_mods_download, bind, requests_get, requests_call, decode, is_file, ret,
    raise, LOG.
  set (latest_url := url_prefix +:+ "/" +:+ version +:+ "/" +:+ latest_suffix).
  destruct (respond env (length (calls w)) (GET latest_url false)) as [resp|e].
  2:{ intros [= <- <-]. by exists []. }
  destruct (negb (status_code resp =? 200)).
  { intros [= <- <-]. by exists []. }
  destruct (decode_utf8 env (content resp)) as [download_file|].
  2:{ intros [= <- <-]. by exists []. }
  set (download_url := url_prefix +:+ "/" +:+ version +:+ "/" +:+ download_file).
  set (w1 := add_call (GET latest_url false) w).
  assert (Hdl : ∀ w2 res w3 (rest : list request),
            calls w2 = calls w ++ GET latest_url false :: rest →
            Forall (fun q => is_post q = false) rest →
            _download_file env download_url p w2 = (res, w3) →
            ∃ rest', calls w3 = calls w ++ GET latest_url false :: rest'
                     ∧ Forall (fun q => is_post q = false) rest').
  { intros w2 res w3 rest Hc Hrest Hd.
    apply _download_file_effects in Hd as (Hc' & _).
    exists (rest ++ [GET download_url true]). split.
    - rewrite Hc', Hc. by rewrite <- app_assoc.
    - apply Forall_app. split; [done|]. by repeat constructor. }
  destruct (kind_at RegularFile p w1).
  - destruct (already_installed env p download_url w1) as [[[resp' skip]|e] w2] eqn:Hai.
    + apply already_installed_world in Hai as ->.
      destruct skip.
      * intros [= <- <-]. exists [HEAD download_url]. split; [|by repeat constructor].
        simpl. by rewrite <- app_assoc.
      * destruct (_download_file env download_url p _) as [[[]|e] w3] eqn:Hd;
          intros [= <- <-];
          eapply (Hdl _ _ _ [HEAD download_url]); try exact Hd;
          try (by repeat constructor); simpl; by rewrite <- app_assoc.
    + apply already_installed_world in Hai as ->.
      intros [= <- <-]. exists [HEAD download_url]. split; [|by repeat constructor].
      simpl. by rewrite <- app_assoc.
  - destruct (_download_file env download_url p _) as [[[]|e] w3] eqn:Hd;
      intros [= <- <-];
      eapply (Hdl _ _ _ []); try exact Hd; try (by repeat constructor); done.
Qed.

Lemma install_app_result tl self template_name context h template w1 p files :
  get_template tl template_name = Some template →
  write_text (remote tl) (steamcmd_script_path self)
    (template {| data_username := username self;
                 data_password := password self;
                 data_app_id := app_id self;
                 data_install_path := install_path self;
                 data_context := context |}) (machine h) = (Ok tt, w1) →
  run_process tl [steamcmd_path self; "+runscript"; steamcmd_script_path self] (fs w1)
  = (Ok p, files) →
  (∀ st, files !! steamcmd_script_path self = Some st → st_kind st = RegularFile) →
  install_app tl self template_name context h
  = (if returncode p =? 0 then Done tt
     else Failed (InstallError (app_id self) (server_ref self) (stdout p) (stderr p)),
     {| machine := set_fs (delete (steamcmd_script_path self) files) w1;
        notes := notes h ++ [NoteInstalling (app_id self) (server_ref self)]
                 ++ (if returncode p =? 0
                     then [NoteFinished (app_id self) (server_ref self)] else []);
        processes := processes h
                     ++ [[steamcmd_path self; "+runscript"; steamcmd_script_path self]];
        extractions := extractions h |}).
Proof.
  intros Ht Hw Hrun Hreg.
  rewrite (install_app_run _ _ _ _ _ _ Ht). cbv zeta.
  change (machine (add_note _ h)) with (machine h). rewrite Hw.
  destruct (write_text_inv _ _ _ _ _ _ Hw) as (_ & _ & _ & Hex & _).
  destruct (Hex eq_refl) as (st1 & Hst1 & _).
  unfold run_script, hbind at 1, lift at 1, path_exists. simpl. rewrite Hst1.
  unfold hbind at 1, run at 1. simpl. rewrite Hrun.
  assert (Hclean : ∀ ns,
    remove_script self
      {| machine := set_fs files w1; notes := ns;
         processes := processes h
                      ++ [[steamcmd_path self; "+runscript"; steamcmd_script_path self]];
         extractions := extractions h |}
    = (Done tt,
       {| machine := set_fs (delete (steamcmd_script_path self) files) w1; notes := ns;
          processes := processes h
                       ++ [[steamcmd_path self; "+runscript"; steamcmd_script_path self]];
          extractions := extractions h |})).
  { intros ns. unfold remove_script, hbind, lift, path_exists, unlink. simpl.
    destruct (files !! steamcmd_script_path self) as [st|] eqn:E; simpl.
    - rewrite E, (Hreg st eq_refl). reflexivity.
    - unfold hret. by rewrite delete_id. }
  destruct (returncode p =? 0); simpl; unfold hbind;
    replace (add_process _ _)
      with {| machine := set_fs files w1;
              notes := notes h ++ [NoteInstalling (app_id self) (server_ref self)];
              processes := processes h
                           ++ [[steamcmd_path self; "+runscript";
                                steamcmd_script_path self]];
              extractions := extractions h |} by reflexivity;
    rewrite Hclean.
  - unfold LOG_note, add_note. simpl. by rewrite <- app_assoc.
  - reflexivity.
Qed.

(** When the script can be written and [steamcmd] can be started,
    [install_app] runs it exactly once, on that script; the call succeeds
    exactly when the return code is 0, and fails with the process output
    otherwise. In both cases the script is gone afterwards, every other file
    is as [steamcmd] left it, and no request is sent; the closing message is
    logged only on success. (The script is supposed not to have been turned
    into a directory by [steamcmd].) *)
Theorem install_app_outcome tl self template_name context h template w1 p files :
  let script := steamcmd_script_path self in
  let run := install_app tl self template_name context h in
  get_template tl template_name = Some template →
  write_text (remote tl) script
    (template {| data_username := username self;
                 data_password := password self;
                 data_app_id := app_id self;
                 data_install_path := install_path self;
                 data_context := context |}) (machine h) = (Ok tt, w1) →
  run_process tl [steamcmd_path self; "+runscript"; script] (fs w1) = (Ok p, files) →
  (∀ st, files !! script = Some st → st_kind st = RegularFile) →
  (returncode p = 0 → run.1 = Done tt)
  ∧ (returncode p ≠ 0 →
     run.1 = Failed (InstallError (app_id self) (server_ref self) (stdout p) (stderr p)))
  ∧ processes run.2 = processes h ++ [[steamcmd_path self; "+runscript"; script]]
  ∧ fs (machine run.2) !! script = None
  ∧ (∀ q, q ≠ script → fs (machine run.2) !! q = files !! q)
  ∧ calls (machine run.2) = calls (machine h)
  ∧ extractions run.2 = extractions h
  ∧ (NoteFinished (app_id self) (server_ref self) ∈ notes run.2
     ↔ (returncode p = 0 ∨ NoteFinished (app_id self) (server_ref self) ∈ notes h)).
Proof.
  intros script run Ht Hw Hrun Hreg. subst run.
  rewrite (install_app_result _ _ _ _ _ _ _ _ _ Ht Hw Hrun Hreg). simpl.
  destruct (write_text_inv _ _ _ _ _ _ Hw) as (Hcalls & _).
  split_and!.
  - intros ->. done.
  - intros Hne. apply Z.eqb_neq in Hne. by rewrite Hne.
  - done.
  - apply lookup_delete_eq.
  - intros q Hq. by apply lookup_delete_ne.
  - done.
  - done.
  - destruct (returncode p =? 0) eqn:E.
    + apply Z.eqb_eq in E. split; [by left|]. intros _. set_solver.
    + apply Z.eqb_neq in E. split.
      * intros [Hin|Hin%list_elem_of_singleton]%elem_of_app; [by right|done].
      * intros [?|Hin]; [done|]. set_solver.
Qed.

Lemma install_app_outcome_witness :
  (install_app (More.tools_with (Sample.allied "100" 0) 1) More.l4d2
     "base_install_app.j2" [] More.clean_host).1
  = Failed (InstallError 222860 "0" Sample.three_bytes [])
  ∧ fs (machine (install_app (More.tools_with (Sample.allied "100" 0) 1) More.l4d2
                   "base_install_app.j2" [] More.clean_host).2)
    !! "/home/steam/py-manager-update.script" = None.
Proof.
  pose (tl := More.tools_with (Sample.allied "100" 0) 1).
  pose (w1 := (write_text (remote tl) (steamcmd_script_path More.l4d2)
                 "login anonymous secret" (machine More.clean_host)).2).
  destruct (install_app_outcome tl More.l4d2 "base_install_app.j2" [] More.clean_host
              (fun data => "login " +:+ fmt (data_username data) +:+ " "
                           +:+ fmt (data_password data))
              w1 {| returncode := 1; stdout := Sample.three_bytes; stderr := [] |} (fs w1))
    as (_ & Hfail & _ & Hgone & _).
  - reflexivity.
  - vm_compute. reflexivity.
  - reflexivity.
  - intros st. vm_compute. intros [= <-]. reflexivity.
  - split; [apply Hfail; discriminate|exact Hgone].
Defined.

Lemma sends_nothing_hbind {A B} (c : H A) (k : A → H B) :
  sends_nothing c → (∀ a, sends_nothing (k a)) → sends_nothing (hbind c k).
Proof.
  intros Hc Hk h. unfold hbind. specialize (Hc h).
  destruct (c h) as [[a|f] h1]; simpl in *; [|done].
  by rewrite Hk.
Qed.

Lemma never_posts_hbind {A B} (c : H A) (k : A → H B) :
  never_posts c → (∀ a, never_posts (k a)) → never_posts (hbind c k).
Proof.
  intros Hc Hk h. unfold hbind. destruct (Hc h) as (new & Hnew & Hall).
  destruct (c h) as [[a|f] h1]; simpl in *; [|by exists new].
  destruct (Hk a h1) as (new' & Hnew' & Hall').
  exists (new ++ new'). split.
  - by rewrite Hnew', Hnew, <- app_assoc.
  - by apply Forall_app.
Qed.

Lemma sends_nothing_never_posts {A} (c : H A) : sends_nothing c → never_posts c.
Proof. intros Hc h. exists []. by rewrite app_nil_r. Qed.

Lemma sends_nothing_remove_script self : sends_nothing (remove_script self).
Proof.
  intros h. destruct (remove_script self h) as [o h'] eqn:E.
  by apply remove_script_inv in E as (_ & _ & _ & ? & _).
Qed.

Lemma sends_nothing_run_script tl self : sends_nothing (run_script tl self).
Proof.
  intros h. unfold run_script, hbind, lift, path_exists, run, hret, hfail. simpl.
  destruct (fs (machine h) !! steamcmd_script_path self); simpl; [|done].
  destruct (run_process tl _ _) as [[p|e] files]; simpl; [|done].
  by destruct (negb (returncode p =? 0)).
Qed.

Lemma sends_nothing_install_app tl self template_name context :
  sends_nothing (install_app tl self template_name context).
Proof.
  intros h.
  destruct (get_template tl template_name) as [template|] eqn:Ht.
  - rewrite (install_app_run _ _ _ _ _ _ Ht). cbv zeta.
    change (machine (add_note _ h)) with (machine h).
    destruct (write_text _ _ _ _) as [r w1] eqn:Hw.
    apply write_text_inv in Hw as (Hc & _).
    assert (Hrest : ∀ (k : H unit) h2,
              sends_nothing k →
              calls (machine ((remove_script self >>! k)%host h2).2) = calls (machine h2)).
    { intros k h2 Hk. apply (sends_nothing_hbind _ (fun _ => k)); [|done].
      apply sends_nothing_remove_script. }
    destruct r as [[]|e]; [|done].
    pose proof (sends_nothing_run_script tl self
                  (set_machine w1 (add_note (NoteInstalling (app_id self) (server_ref self)) h)))
      as Hrun.
    destruct (run_script tl self _) as [[[]|f] h2]; simpl in Hrun.
    + rewrite Hrest; [by rewrite Hrun|]. by intros ?.
    + rewrite Hrest; [by rewrite Hrun|]. by intros ?.
  - unfold install_app. rewrite Ht. reflexivity.
Qed.

Lemma never_posts_install_mod tl self what archive url_prefix version latest_prefix :
  never_posts (install_mod tl self what archive url_prefix version latest_prefix).
Proof.
  unfold install_mod. apply never_posts_hbind.
  { apply sends_nothing_never_posts. by destruct (negb (SOURCE_MOD_GAME self)). }
  intros _. apply never_posts_hbind.
  - intros h. unfold lift.
    destruct (_allied_mods_download _ _ _ _ _ (machine h)) as [r w'] eqn:E.
    apply _allied_mods_download_calls in E as (rest & Hc & Hall).
    eexists. split; [by destruct r|].
    by apply Forall_cons_2.
  - intros changed. apply sends_nothing_never_posts. destruct changed; [|done].
    intros h. unfold untar. simpl.
    by destruct (extractall tl _ _ _) as [[[]|e] files].
Qed.

(** A failed [steamcmd] run ends [Left4Dead2Server.install_app] at once:
    whatever collections were asked for, the call fails with the process
    output, sends no request and unpacks nothing. *)
Theorem failed_steamcmd_ends_the_install tl self template_name context collection_ids h
    template w1 p files :
  let script := steamcmd_script_path self in
  let run := l4d2_install_app tl self template_name context collection_ids h in
  get_template tl template_name = Some template →
  write_text (remote tl) script
    (template {| data_username := username self;
                 data_password := password self;
                 data_app_id := app_id self;
                 data_install_path := install_path self;
                 data_context := context |}) (machine h) = (Ok tt, w1) →
  run_process tl [steamcmd_path self; "+runscript"; script] (fs w1) = (Ok p, files) →
  (∀ st, files !! script = Some st → st_kind st = RegularFile) →
  returncode p ≠ 0 →
  run.1 = Failed (InstallError (app_id self) (server_ref self) (stdout p) (stderr p))
  ∧ calls (machine run.2) = calls (machine h)
  ∧ extractions run.2 = extractions h
  ∧ fs (machine run.2) = delete script files.
Proof.
  intros script run Ht Hw Hrun Hreg Hcode. subst run.
  unfold l4d2_install_app, hbind.
  rewrite (install_app_result _ _ _ _ _ _ _ _ _ Ht Hw Hrun Hreg).
  apply Z.eqb_neq in Hcode. rewrite Hcode. simpl.
  by destruct (write_text_inv _ _ _ _ _ _ Hw) as (Hcalls & _).
Qed.

Lemma failed_steamcmd_ends_the_install_witness :
  (l4d2_install_app (More.tools_with (Sample.allied "100" 0) 1) More.l4d2
     "base_install_app.j2" [] ["1"; "2"] More.clean_host).1
  = Failed (InstallError 222860 "0" Sample.three_bytes [])
  ∧ calls (machine (l4d2_install_app (More.tools_with (Sample.allied "100" 0) 1) More.l4d2
                      "base_install_app.j2" [] ["1"; "2"] More.clean_host).2) = [].
Proof.
  pose (tl := More.tools_with (Sample.allied "100" 0) 1).
  pose (w1 := (write_text (remote tl) (steamcmd_script_path More.l4d2)
                 "login anonymous secret" (machine More.clean_host)).2).
  destruct (failed_steamcmd_ends_the_install tl More.l4d2 "base_install_app.j2" []
              ["1"; "2"] More.clean_host
              (fun data => "login " +:+ fmt (data_username data) +:+ " "
                           +:+ fmt (data_password data))
              w1 {| returncode := 1; stdout := Sample.three_bytes; stderr := [] |} (fs w1))
    as (Hfail & Hcalls & _).
  - reflexivity.
  - vm_compute. reflexivity.
  - reflexivity.
  - intros st. vm_compute. intros [= <-]. reflexivity.
  - discriminate.
  - split; [exact Hfail|exact Hcalls].
Defined.

(** Through [Left4Dead2Server.install_app] an empty list of collections
    never reaches the Workshop: [download_collections] is not called, so
    no POST request is sent at all; and when the add-ons are not asked for
    either, no request of any kind is sent. *)
Theorem empty_collection_list_never_posts tl self template_name context h :
  ∃ new,
    calls (machine (l4d2_install_app tl self template_name context [] h).2)
    = calls (machine h) ++ new
    ∧ Forall (fun q => is_post q = false) new
    ∧ (install_sourcemod self = false → new = []).
Proof.
  assert (Hskip : sends_nothing
            (if (0 <? length (@nil string))%nat
             then lift (download_collections (remote tl) [] (addons_path self))
             else hret tt)).
  { by intros ?. }
  destruct (install_sourcemod self) eqn:Hsm.
  - assert (Hall : never_posts (l4d2_install_app tl self template_name context [])).
    { unfold l4d2_install_app. rewrite Hsm. apply never_posts_hbind.
      - apply sends_nothing_never_posts, sends_nothing_install_app.
      - intros _. apply never_posts_hbind; [by apply sends_nothing_never_posts|].
        intros _. apply never_posts_hbind; [|intros _]; apply never_posts_install_mod. }
    destruct (Hall h) as (new & Hnew & Hforall). exists new. by split_and!.
  - exists []. rewrite app_nil_r. split_and!; [|done..].
    unfold l4d2_install_app. rewrite Hsm.
    apply sends_nothing_hbind; [apply sends_nothing_install_app|].
    intros _. apply sends_nothing_hbind; [exact Hskip|]. by intros _ ?.
Qed.

Lemma install_mod_run tl self what archive url_prefix version latest_prefix h :
  install_mod tl self what archive url_prefix version latest_prefix h =
  let h0 := if SOURCE_MOD_GAME self then h else add_note (WarnNotSourceModGame what) h in
  let path := fmt (addons_path self) +:+ "/" +:+ archive in
  match _allied_mods_download (remote tl) (absolute (cwd (remote tl)) path) url_prefix
          version (latest_prefix +:+ lower (platform_system tl)) (machine h) with
  | (Ok true, w) => untar tl path (game_path self) (set_machine w h0)
  | (Ok false, w) => (Done tt, set_machine w h0)
  | (Raise e, w) => (Failed (Py e), set_machine w h0)
  end.
Proof.
  unfold install_mod, hbind, lift, LOG_note, hret.
  destruct (SOURCE_MOD_GAME self); simpl;
    by destruct (_allied_mods_download _ _ _ _ _ (machine h)) as [[[]|e] w].
Qed.

Lemma install_mod_notes tl self what archive url_prefix version latest_prefix h :
  notes (install_mod tl self what archive url_prefix version latest_prefix h).2
  = notes h ++ (if SOURCE_MOD_GAME self then [] else [WarnNotSourceModGame what]).
Proof.
  rewrite install_mod_run. cbv zeta.
  destruct (_allied_mods_download _ _ _ _ _ (machine h)) as [[[]|e] w]; unfold untar;
    simpl; try destruct (extractall tl _ _ _) as [[[]|e] files];
    destruct (SOURCE_MOD_GAME self); simpl; by rewrite ?app_nil_r.
Qed.

Lemma install_mod_first_call tl self what archive url_prefix version latest_prefix h :
  ∃ rest,
    calls (machine (install_mod tl self what archive url_prefix version latest_prefix h).2)
    = calls (machine h)
      ++ GET (url_prefix +:+ "/" +:+ version +:+ "/" +:+ latest_prefix
              +:+ lower (platform_system tl)) false :: rest.
Proof.
  rewrite install_mod_run. cbv zeta.
  destruct (_allied_mods_download _ _ _ _ _ (machine h)) as [r w] eqn:E.
  apply _allied_mods_download_calls in E as (rest & Hc & _).
  exists rest. rewrite <- Hc.
  destruct r as [[]|e]; unfold untar; simpl;
    try destruct (extractall tl _ _ _) as [[[]|e] files]; done.
Qed.

(** On a server that is not a Source game, [_install_metamod] and
    [_install_sourcemod] log that they skip the install, and go on with it
    all the same: the warning is the only note, and the pointer file of the
    add-on is then requested as for any other server. *)
Theorem source_mod_warning_does_not_skip tl self version h :
  SOURCE_MOD_GAME self = false →
  let platform := lower (platform_system tl) in
  let m := (_install_metamod tl self version h).2 in
  let s := (_install_sourcemod tl self version h).2 in
  notes m = notes h ++ [WarnNotSourceModGame "metamod"]
  ∧ (∃ rest, calls (machine m)
             = calls (machine h)
               ++ GET ("https://mms.alliedmods.net/mmsdrop" +:+ "/" +:+ version +:+ "/"
                       +:+ "mmsource-latest-" +:+ platform) false :: rest)
  ∧ notes s = notes h ++ [WarnNotSourceModGame "sourcemod"]
  ∧ (∃ rest, calls (machine s)
             = calls (machine h)
               ++ GET ("https://sm.alliedmods.net/smdrop" +:+ "/" +:+ version +:+ "/"
                       +:+ "sourcemod-latest-" +:+ platform) false :: rest).
Proof.
  intros Hflag platform m s. subst m s platform.
  unfold _install_metamod, _install_sourcemod.
  rewrite !install_mod_notes, Hflag.
  split_and!; [done|apply install_mod_first_call|done|apply install_mod_first_call].
Qed.

Lemma source_mod_warning_does_not_skip_witness :
  notes (_install_metamod More.steam_tools More.plain "1.11" More.clean_host).2
  = [WarnNotSourceModGame "metamod"]
  ∧ ∃ rest, calls (machine (_install_metamod More.steam_tools More.plain "1.11"
                              More.clean_host).2)
            = GET "https://mms.alliedmods.net/mmsdrop/1.11/mmsource-latest-linux" false
              :: rest.
Proof.
  destruct (source_mod_warning_does_not_skip More.steam_tools More.plain "1.11"
              More.clean_host eq_refl) as (Hnotes & Hcalls & _).
  split; [exact Hnotes|exact Hcalls].
Defined.

(** The archive of an add-on is unpacked into the game directory exactly
    when [_allied_mods_download] reports a download: once, after it, into
    [game_path]; never when the installed archive is up to date or the
    download fails. *)
Theorem archive_unpacked_iff_downloaded tl self version h :
  let platform := lower (platform_system tl) in
  let metamod := fmt (addons_path self) +:+ "/" +:+ "metamod.tar.gz" in
  let sourcemod := fmt (addons_path self) +:+ "/" +:+ "sourcemod.tar.gz" in
  extractions (_install_metamod tl self version h).2
  = extractions h
    ++ match (_allied_mods_download (remote tl) (absolute (cwd (remote tl)) metamod)
                "https://mms.alliedmods.net/mmsdrop"
                version ("mmsource-latest-" +:+ platform) (machine h)).1 with
       | Ok true => [(metamod, game_path self)]
       | _ => []
       end
  ∧ extractions (_install_sourcemod tl self version h).2
    = extractions h
      ++ match (_allied_mods_download (remote tl) (absolute (cwd (remote tl)) sourcemod)
                  "https://sm.alliedmods.net/smdrop"
                  version ("sourcemod-latest-" +:+ platform) (machine h)).1 with
         | Ok true => [(sourcemod, game_path self)]
         | _ => []
         end.
Proof.
  intros platform metamod sourcemod. subst platform metamod sourcemod.
  unfold _install_metamod, _install_sourcemod.
  split; rewrite install_mod_run; cbv zeta;
    destruct (_allied_mods_download _ _ _ _ _ (machine h)) as [[[]|e] w]; unfold untar;
    simpl; try destruct (extractall tl _ _ _) as [[[]|e] files];
    destruct (SOURCE_MOD_GAME self); simpl; by rewrite ?app_nil_r.
Qed.

(** ** The commands sent to a running server *)

Lemma send_loop_ok cmd_delay no_newline cmds :
  0 ≤ cmd_delay →
  ∀ i total, (i + length cmds = S total)%nat →
  send_loop i total cmds cmd_delay no_newline
  = (Done tt, with_pauses cmd_delay no_newline cmds).
Proof.
  intros Hd. induction cmds as [|cmd rest IH]; intros i total Hlen; [done|].
  simpl in Hlen. cbn [send_loop with_pauses].
  destruct rest as [|cmd2 rest].
  - assert (i = total) as -> by (simpl in Hlen; lia).
    rewrite Nat.eqb_refl. reflexivity.
  - assert ((i =? total)%nat = false) as ->.
    { apply Nat.eqb_neq. simpl in Hlen. lia. }
    cbn [negb]. assert ((cmd_delay <? 0) = false) as -> by lia.
    rewrite (IH (S i) total) by (simpl in *; lia). reflexivity.
Qed.

(** With a delay that is not negative, every command is written to the
    standard input of the process, in the order given and followed by the
    line separator unless [--no-newline] is set, with one pause of
    [--cmd-delay] seconds between two commands and none after the last. *)
Theorem commands_sent_in_order cmds cmd_delay no_newline :
  0 ≤ cmd_delay →
  send_commands true cmds cmd_delay no_newline
  = (Done tt, with_pauses cmd_delay no_newline cmds)
  ∧ filter (fun e => is_pause e = false) (with_pauses cmd_delay no_newline cmds)
    = (fun cmd => Sent (cmd +:+ (if no_newline then "" else linesep))) <$> cmds
  ∧ length (with_pauses cmd_delay no_newline cmds) = (2 * length cmds - 1)%nat.
Proof.
  intros Hd. split_and!.
  - unfold send_commands. simpl.
    destruct cmds as [|cmd rest]; [done|].
    apply send_loop_ok; [done|]. simpl. lia.
  - induction cmds as [|cmd [|cmd2 rest] IH]; [done|done|].
    cbn [with_pauses fmap list_fmap] in *.
    rewrite filter_cons_True by done.
    rewrite filter_cons_False by done.
    by rewrite IH.
  - induction cmds as [|cmd [|cmd2 rest] IH]; [done|done|].
    cbn [with_pauses length] in *. lia.
Qed.

Lemma commands_sent_in_order_witness :
  send_commands true ["say Server shutting down in 10 seconds"; "quit"] 10 false
  = (Done tt, [Sent ("say Server shutting down in 10 seconds" +:+ linesep);
               Paused 10;
               Sent ("quit" +:+ linesep)]).
Proof.
  apply (commands_sent_in_order ["say Server shutting down in 10 seconds"; "quit"] 10 false).
  lia.
Defined.

(** With a negative delay only the first command is sent: one command
    alone goes through, as no pause is needed, and with more than one the
    program stops with [ValueError] at the first pause. Without the
    standard input of the process nothing is sent at all. *)
Theorem negative_delay_sends_one_command cmd rest cmd_delay no_newline :
  cmd_delay < 0 →
  send_commands true (cmd :: rest) cmd_delay no_newline
  = (match rest with [] => Done tt | _ :: _ => Failed (Py ValueError) end,
     [Sent (cmd +:+ (if no_newline then "" else linesep))])
  ∧ send_commands false (cmd :: rest) cmd_delay no_newline = (Failed NoStdin, []).
Proof.
  intros Hd. split; [|done].
  unfold send_commands. cbn [negb send_loop length].
  destruct rest as [|cmd2 rest]; [done|].
  assert ((1 =? S (length (cmd2 :: rest)))%nat = false) as -> by done.
  cbn [negb]. by assert ((cmd_delay <? 0) = true) as -> by lia.
Qed.

Lemma negative_delay_sends_one_command_witness :
  send_commands true ["say bye"; "quit"] (-1) false
  = (Failed (Py ValueError), [Sent ("say bye" +:+ linesep)])
  ∧ send_commands false ["say bye"; "quit"] (-1) false = (Failed NoStdin, []).
Proof.
  apply (negative_delay_sends_one_command "say bye" ["quit"] (-1) false). lia.
Defined.

(** ** [update_server_cfg_settings] on a file that has the settings *)

Lemma concat_readlines s : concat_lines (readlines s) = s.
Proof.
  induction s as [|c rest IH]; [done|]. cbn [readlines].
  destruct (Ascii.eqb_spec c LF) as [->|Hne].
  - cbn [concat_lines foldr]. fold (concat_lines (readlines rest)). by rewrite IH.
  - destruct (readlines rest) as [|l ls].
    + simpl in IH. by subst rest.
    + cbn [concat_lines foldr] in *. rewrite string_app_cons. by rewrite IH.
Qed.

Lemma universal_newlines_no_cr s : no_cr s = true → universal_newlines s = s.
Proof.
  induction s as [|c rest IH]; [done|]. cbn [no_cr universal_newlines].
  intros [Hc Hrest]%andb_prop. apply negb_true_iff in Hc. rewrite Hc.
  by rewrite IH.
Qed.

Lemma no_cr_app a b : no_cr (a +:+ b) = no_cr a && no_cr b.
Proof.
  induction a as [|c a IH]; [done|]. rewrite string_app_cons. cbn [no_cr].
  by rewrite IH, andb_assoc.
Qed.

Lemma no_cr_trailer exec_configs :
  forallb no_cr exec_configs = true → no_cr (trailer exec_configs) = true.
Proof.
  intros Hall. unfold trailer. rewrite no_cr_app.
  apply andb_true_intro. split; [|by vm_compute].
  induction exec_configs as [|config rest IH]; [done|].
  cbn [forallb] in Hall. apply andb_prop in Hall as [Hc Hrest].
  cbn [fmap list_fmap concat_lines foldr].
  fold (concat_lines ((fun config => "exec " +:+ config +:+ linesep) <$> rest)).
  rewrite !no_cr_app, Hc. by rewrite (IH Hrest).
Qed.

Lemma readlines_line l b : is_line l = true → readlines (l +:+ b) = l :: readlines b.
Proof.
  induction l as [|c l IH]; [done|]. rewrite string_app_cons. cbn [is_line readlines].
  destruct (Ascii.eqb_spec c LF) as [->|Hne].
  - by destruct l.
  - intros Hl. by rewrite (IH Hl).
Qed.

Lemma readlines_lines L b :
  Forall (fun l => is_line l = true) L →
  readlines (concat_lines L +:+ b) = L ++ readlines b.
Proof.
  induction 1 as [|l L Hl _ IH]; [done|].
  cbn [concat_lines foldr]. fold (concat_lines L).
  by rewrite string_app_assoc, (readlines_line _ _ Hl), IH.
Qed.

(** The lines read from a text: all are full lines, except the last when
    the text does not end with a line feed. *)
Lemma readlines_shape s i x :
  readlines s !! i = Some x →
  ((S i < length (readlines s))%nat → is_line x = true)
  ∧ (is_line x = true ∨ ∀ a, x ≠ a +:+ linesep).
Proof.
  revert i x. induction s as [|c rest IH]; intros i x; [done|]. cbn [readlines].
  destruct (Ascii.eqb_spec c LF) as [->|Hne].
  - destruct i as [|i]; simpl.
    + intros [= <-]. split; [done|by left].
    + intros Hi. destruct (IH i x Hi) as [Hfull Hor]. split; [|done].
      intros Hlt. apply Hfull. lia.
  - assert (Hc : Ascii.eqb c LF = false) by by apply Ascii.eqb_neq.
    destruct (readlines rest) as [|l ls] eqn:Hrest.
    + destruct i as [|i]; [|done]. simpl. intros [= <-]. split; [lia|].
      right. intros [|d a]; simpl; [by intros [= ->]|]. intros [= _ H]. by destruct a.
    + destruct i as [|i]; simpl.
      * intros [= <-]. destruct (IH 0%nat l eq_refl) as [Hfull Hor].
        cbn [is_line]. rewrite Hc. split; [done|].
        destruct Hor as [?|Hno]; [by left|right].
        intros [|d a]; simpl; [by intros [= -> _]|].
        intros [= _ H]. by apply (Hno a).
      * intros Hi. apply (IH (S i) x Hi).
Qed.

Lemma find_split {A} (P : A → bool) (l : list A) (x : A) :
  List.find P l = Some x →
  ∃ pre post, l = pre ++ x :: post ∧ List.find P pre = None ∧ P x = true.
Proof.
  induction l as [|y l IH]; [done|]. simpl.
  destruct (P y) eqn:Hy.
  - intros [= ->]. by exists [], l.
  - intros Hf. destruct (IH Hf) as (pre & post & -> & Hpre & Hx).
    exists (y :: pre), post. simpl. by rewrite Hy.
Qed.

Lemma find_app_first {A} (P : A → bool) (pre post : list A) (x : A) :
  List.find P pre = None → P x = true → List.find P (pre ++ x :: post) = Some x.
Proof.
  intros Hpre Hx. induction pre as [|y pre IH]; simpl in *; [by rewrite Hx|].
  destruct (P y); [done|]. by apply IH.
Qed.

Lemma setting_line_ends k v l : setting_line k v = Some l → ∃ a, l = a +:+ linesep.
Proof.
  destruct v as [s|n|b|]; simpl; intros [= <-].
  - exists (k +:+ " " +:+ dquote +:+ s +:+ dquote). by rewrite !string_app_assoc.
  - exists (k +:+ " " +:+ pretty n). by rewrite !string_app_assoc.
  - exists (k +:+ " " +:+ (if b then "True" else "False")). by rewrite !string_app_assoc.
Qed.

Lemma settled_spec settings lines :
  settled settings lines = true →
  ∀ k v l, PyDict.get settings k = Some v → setting_line k v = Some l →
           List.find (names_setting k) lines = Some l.
Proof.
  unfold settled. rewrite forallb_forall. intros Hall k v l Hget Hl.
  apply PyDictFacts.get_elem, list_elem_of_In in Hget.
  specialize (Hall _ Hget). simpl in Hall. rewrite Hl in Hall.
  by apply bool_decide_eq_true in Hall.
Qed.

(** A line found first for a setting stays the first one when text is
    added at the end. *)
Lemma find_readlines_app P c b l a :
  List.find P (readlines c) = Some l →
  l = a +:+ linesep →
  List.find P (readlines (c +:+ b)) = Some l.
Proof.
  intros Hfind Hl.
  destruct (find_split _ _ _ Hfind) as (pre & post & Hlines & Hpre & HP).
  assert (Hfull : Forall (fun x => is_line x = true) (pre ++ [l])).
  { apply Forall_forall. intros x Hx.
    apply list_elem_of_lookup in Hx as [i Hi].
    assert (Hi' : readlines c !! i = Some x).
    { rewrite Hlines.
      replace (pre ++ l :: post) with ((pre ++ [l]) ++ post) by by rewrite <- app_assoc.
      by apply lookup_app_l_Some. }
    destruct (readlines_shape _ _ _ Hi') as [Hfull Hor].
    apply lookup_lt_Some in Hi as Hlt. rewrite length_app in Hlt. simpl in Hlt.
    destruct (decide (i = length pre)) as [->|Hne].
    - rewrite lookup_app_r, Nat.sub_diag in Hi by lia. injection Hi as <-.
      destruct Hor as [?|Hno]; [done|]. by destruct (Hno a).
    - apply Hfull. rewrite Hlines, length_app. simpl. lia. }
  rewrite <- (concat_readlines c), Hlines.
  replace (pre ++ l :: post) with ((pre ++ [l]) ++ post) by by rewrite <- app_assoc.
  rewrite concat_lines_app, string_app_assoc, (readlines_lines _ _ Hfull).
  rewrite <- !app_assoc. simpl. by apply find_app_first.
Qed.

Lemma settled_app settings c b :
  settled settings (readlines c) = true → settled settings (readlines (c +:+ b)) = true.
Proof.
  unfold settled. rewrite !forallb_forall. intros Hall [k v] Hin.
  specialize (Hall _ Hin). simpl in *.
  destruct (setting_line k v) as [l|] eqn:Hl; [|done].
  apply bool_decide_eq_true in Hall. apply bool_decide_eq_true.
  destruct (setting_line_ends _ _ _ Hl) as [a Ha].
  by apply (find_readlines_app _ _ _ _ a).
Qed.

Lemma pending_lines_nil settings keys :
  (∀ k v, k ∈ keys → PyDict.get settings k = Some v → setting_line k v = None) →
  pending_lines settings keys = [].
Proof.
  unfold pending_lines. induction keys as [|k keys IH]; intros Hnone; [done|].
  cbn [omap list_omap].
  destruct (PyDict.get settings k) as [v|] eqn:Hget; simpl.
  - rewrite (Hnone k v (list_elem_of_here _ _) Hget).
    apply IH. intros k' v' Hin. apply Hnone. by apply list_elem_of_further.
  - apply IH. intros k' v' Hin. apply Hnone. by apply list_elem_of_further.
Qed.

(** On lines that carry the settings the loop changes nothing, and leaves
    only keys that have no line. *)
Lemma patched_lines_settled settings lines :
  ∀ keys,
    NoDup keys →
    (∀ k, k ∈ keys → is_Some (PyDict.get settings k)) →
    (∀ k v l, k ∈ keys → PyDict.get settings k = Some v → setting_line k v = Some l →
              List.find (names_setting k) lines = Some l) →
    (patched_lines settings keys lines).1 = lines
    ∧ pending_lines settings (patched_lines settings keys lines).2 = [].
Proof.
  induction lines as [|line rest IH]; intros keys Hnd Hdom Hset.
  - simpl. split; [done|]. apply pending_lines_nil. intros k v Hin Hget.
    destruct (setting_line k v) as [l|] eqn:Hl; [|done].
    by specialize (Hset k v l Hin Hget Hl).
  - cbn [patched_lines].
    assert (Hkeep : (∀ k, k ∈ keys → names_setting k line = false) →
                    (let '(out, remaining) := patched_lines settings keys rest in
                     (line :: out, remaining)).1 = line :: rest
                    ∧ pending_lines settings
                        (let '(out, remaining) := patched_lines settings keys rest in
                         (line :: out, remaining)).2 = []).
    { intros Hno. destruct (IH keys Hnd Hdom) as [Hout Hpend].
      - intros k v l Hin Hget Hl. specialize (Hset k v l Hin Hget Hl).
        simpl in Hset. by rewrite (Hno k Hin) in Hset.
      - destruct (patched_lines settings keys rest) as [out remaining]. simpl in *.
        by rewrite Hout. }
    unfold patch_line, names_setting in *.
    destruct (String.prefix "//" line) eqn:Hcomment; simpl.
    { apply Hkeep. by intros. }
    destruct (first_token line) as [k0|] eqn:Htok; [|apply Hkeep; by intros].
    case_bool_decide as Hin0.
    2:{ apply Hkeep. intros k Hin. simpl. apply String.eqb_neq. by intros ->. }
    unfold setting. destruct (Hdom k0 Hin0) as [v0 Hget0]. rewrite Hget0.
    assert (Hline : match setting_line k0 v0 with Some l => l | None => line end = line).
    { destruct (setting_line k0 v0) as [l|] eqn:Hl; [|done].
      specialize (Hset k0 v0 l Hin0 Hget0 Hl). simpl in Hset.
      rewrite Hcomment, Htok, String.eqb_refl in Hset. simpl in Hset. congruence. }
    rewrite Hline.
    destruct (IH (remove_first k0 keys)) as [Hout Hpend].
    + by apply remove_first_NoDup.
    + intros k Hin. apply Hdom. by apply remove_first_subseteq in Hin.
    + intros k v l Hin Hget Hl.
      assert (k ≠ k0).
      { intros ->. by apply (remove_first_gone k0 keys Hnd). }
      apply remove_first_subseteq in Hin.
      specialize (Hset k v l Hin Hget Hl). simpl in Hset.
      rewrite Hcomment, Htok in Hset. simpl in Hset.
      destruct (String.eqb_spec k0 k) as [Heq|_]; [by subst|done].
    + destruct (patched_lines settings (remove_first k0 keys) rest) as [out remaining].
      simpl in *. by rewrite Hout.
Qed.

Lemma cfg_settled_run working_dir game_path settings exec_configs
    (t : gmap string text_node) c :
  let infile := absolute working_dir (game_path +:+ "/cfg/server.cfg") in
  let outfile := normal_form (infile +:+ ".new") in
  t !! infile = Some (TFile c) →
  t !! absolute working_dir (game_path +:+ "/cfg") = Some TDir →
  t !! outfile ≠ Some TDir →
  NoDup (PyDict.keys settings) →
  no_cr c = true →
  settled settings (readlines c) = true →
  update_server_cfg_settings working_dir game_path settings exec_configs t
  = (Ok tt, <[infile := TFile (c +:+ trailer exec_configs)]> (delete outfile t)).
Proof.
  intros infile outfile Hin Hdir Hout Hnd Hcr Hset.
  rewrite (cfg_existing working_dir game_path settings exec_configs t c Hin Hdir Hout).
  rewrite (universal_newlines_no_cr _ Hcr).
  destruct (patched_lines_settled settings (readlines c) (PyDict.keys settings) Hnd)
    as [Hout' Hpend].
  - apply get_is_Some_keys.
  - intros k v l _. by apply settled_spec.
  - by rewrite Hout', Hpend, concat_readlines.
Qed.

(** On a [server.cfg] that already carries the settings (for each setting
    with a line, the first line naming its key is that line), a run changes
    nothing and appends the [exec], [writeid] and [writeip] lines once more.
    The new file carries the settings again, so a second run appends them
    a second time: the file grows by the same lines at every run. *)
Theorem cfg_every_run_appends_the_trailer working_dir game_path settings exec_configs
    (t : gmap string text_node) c :
  let infile := absolute working_dir (game_path +:+ "/cfg/server.cfg") in
  let outfile := normal_form (infile +:+ ".new") in
  let after (content : string) := <[infile := TFile content]> (delete outfile t) in
  t !! infile = Some (TFile c) →
  t !! absolute working_dir (game_path +:+ "/cfg") = Some TDir →
  t !! outfile ≠ Some TDir →
  NoDup (PyDict.keys settings) →
  no_cr c = true →
  forallb no_cr exec_configs = true →
  settled settings (readlines c) = true →
  update_server_cfg_settings working_dir game_path settings exec_configs t
  = (Ok tt, after (c +:+ trailer exec_configs))
  ∧ settled settings (readlines (c +:+ trailer exec_configs)) = true
  ∧ update_server_cfg_settings working_dir game_path settings exec_configs
      (after (c +:+ trailer exec_configs))
    = (Ok tt, after ((c +:+ trailer exec_configs) +:+ trailer exec_configs)).
Proof.
  intros infile outfile after Hin Hdir Hout Hnd Hcr Hexec Hset.
  destruct (cfg_paths_facts working_dir game_path) as (Hne & _ & _ & Hcfg & Hcfg').
  fold infile in Hne, Hcfg, Hcfg'. fold outfile in Hne, Hcfg'.
  split_and!.
  - by apply cfg_settled_run.
  - by apply settled_app.
  - rewrite (cfg_settled_run working_dir game_path settings exec_configs _
               (c +:+ trailer exec_configs)).
    + f_equal. unfold after. fold infile. fold outfile.
      rewrite delete_insert_ne by done.
      by rewrite insert_insert_eq, delete_delete_eq.
    + apply lookup_insert_eq.
    + unfold after. rewrite lookup_insert_ne by done.
      by rewrite lookup_delete_ne.
    + unfold after. fold infile. fold outfile.
      rewrite lookup_insert_ne by done. by rewrite lookup_delete_eq.
    + done.
    + rewrite no_cr_app, Hcr. by apply no_cr_trailer.
    + by apply settled_app.
Qed.

Lemma cfg_every_run_appends_the_trailer_witness :
  let t := More.with_server_cfg More.new_cfg in
  let after (content : string) :=
    <[More.game +:+ "/cfg/server.cfg" := TFile content]>
      (delete ((More.game +:+ "/cfg/server.cfg") +:+ ".new") t) in
  update_server_cfg_settings More.home More.game More.new_settings default_exec_configs t
  = (Ok tt, after (More.new_cfg +:+ trailer default_exec_configs))
  ∧ update_server_cfg_settings More.home More.game More.new_settings default_exec_configs
      (after (More.new_cfg +:+ trailer default_exec_configs))
    = (Ok tt, after ((More.new_cfg +:+ trailer default_exec_configs)
                     +:+ trailer default_exec_configs)).
Proof.
  intros t after.
  destruct (cfg_every_run_appends_the_trailer More.home More.game More.new_settings
              default_exec_configs t More.new_cfg)
    as (Hfirst & _ & Hsecond).
  - reflexivity.
  - reflexivity.
  - discriminate.
  - apply (bool_decide_unpack _). vm_compute. exact I.
  - vm_compute. reflexivity.
  - reflexivity.
  - vm_compute. reflexivity.
  - split; [exact Hfirst|exact Hsecond].
Defined.
